(** * GreenRide car-pooling backend: ride lifecycle, seat accounting,
      wallet ledger, impact settlement and rating aggregation

    A shallow embedding of the Express/Mongoose request handlers of
    [backend/src/controllers/ride.controller.js], the payment controller
    and [user.controller.js] (submitRating, updateVehicleDetails),
    together with the schema constraints of the [Ride], [Transaction]
    and [Notification] models that decide whether a [save]/[create] is
    accepted, and the error middleware of [server.js].  [updateRide],
    which writes an arbitrary body, and [deleteRide], which removes a
    document, are not modelled.

    Modelling conventions.
    - A JavaScript [Number] that carries money, distance or an impact
      figure is an exact rational ([Q]); seat counts and star ratings are
      integers ([Z]); [Array.length] is a [nat].  Where a handler adds a
      value of the payload to a number with [+=], the value is kept as
      it is sent, a JSON number or a JSON string ([Amount]): on a string
      [+] concatenates, and the model follows it through the printing
      of the number and the reading of the result.
    - A MongoDB collection of users is a finite map from identifiers to
      documents; rides, transactions and notifications are never removed
      by the handlers modelled here, so these collections are lists and a
      document's identifier is its position.
    - A handler is a function from the persistent store to a response and
      a new store.  A document returned by [findById] is a local copy:
      nothing is persisted until [save] is called, and a [save] or
      [create] that violates the schema throws, which the handlers'
      [catch] forwards to [next(err)].  Writes made before a failure stay
      in the store: there is no transaction around a handler.
    - A request is taken after the route's express-validator rules: a
      handler that returns 400 on [validationResult] errors is modelled
      from the point where the payload has passed them.  The one rule
      that is part of the model is [body('amount').isNumeric()] of the
      top-up and of the ride payment, because it lets through a number
      and a numeric string, which these two handlers do not treat
      alike.  A handler that never reads [validationResult]
      (respondToRideRequest, sendSafetyAlert, requestRefund, cancelRide)
      receives its payload as sent.
    - What no rule of the route covers reaches the schema as it is sent:
      [createRide] hands the whole body to [Ride.create], so the body's
      passengers, statuses, location and cancellation fields are stored
      when the schema admits them, and a body without
      [estimatedArrivalTime], which the schema requires, is refused.
      Numbers, identifiers, places and dates of a payload are taken as
      the schema casts them.
    - Only the fields that the handlers below read or write are kept in
      the records; descriptive fields (names, make and model of the
      vehicle, preferences, schedule, titles and messages of
      notifications) and the ride's own impact snapshot, which the
      pre-save hook recomputes and no handler reads, are left out.  The
      constraints of the user schema on the fields kept here (a review's
      rating between 1 and 5) are those of the route's rules, so saving
      a user always goes through. *)

From Stdlib Require Import Ascii DecimalString ZArith QArith Lia Lqa.
From stdpp Require Import base option list gmap strings.

Local Open Scope string_scope.
Local Open Scope list_scope.

(** ** Data model *)

Definition ObjectId := nat.

Module RideStatus.
Inductive t := scheduled | in_progress | completed | cancelled.
#[global] Instance eq_dec : EqDecision t.
Proof. solve_decision. Defined.
Definition to_string (st : t) : string :=
  match st with
  | scheduled => "scheduled"
  | in_progress => "in_progress"
  | completed => "completed"
  | cancelled => "cancelled"
  end.

(** The schema's [enum: ['scheduled', 'in_progress', 'completed',
      'cancelled']]. *)
Definition of_string (s : string) : option t :=
    if decide (s = "scheduled") then Some scheduled
    else if decide (s = "in_progress") then Some in_progress
    else if decide (s = "completed") then Some completed
    else if decide (s = "cancelled") then Some cancelled
    else None.
End RideStatus.

Module PassengerStatus.
(** The four values of the schema's enum, and [unset] for an entry
      whose [status] path is missing from the stored document. *)
Inductive t := pending | accepted | rejected | cancelled | unset.
#[global] Instance eq_dec : EqDecision t.
Proof. solve_decision. Defined.

(** The schema's [enum: ['pending', 'accepted', 'rejected', 'cancelled']]:
      the strings a passenger entry's [status] may hold. *)
Definition of_string (s : string) : option t :=
    if decide (s = "pending") then Some pending
    else if decide (s = "accepted") then Some accepted
    else if decide (s = "rejected") then Some rejected
    else if decide (s = "cancelled") then Some cancelled
    else None.

(** What a handler reads on a loaded document: Mongoose fills a path
      that is missing from the stored document with the schema's
      [default: 'pending']. *)
Definition read (st : t) : t :=
    match st with
    | unset => pending
    | _ => st
    end.
End PassengerStatus.

Module FareStatus.
Inductive t := pending | paid | refunded.
#[global] Instance eq_dec : EqDecision t.
Proof. solve_decision. Defined.

(** The schema's [enum: ['pending', 'paid', 'refunded']]. *)
Definition of_string (s : string) : option t :=
    if decide (s = "pending") then Some pending
    else if decide (s = "paid") then Some paid
    else if decide (s = "refunded") then Some refunded
    else None.
End FareStatus.

Module TxStatus.
Inductive t := pending | completed | failed | refunded.
#[global] Instance eq_dec : EqDecision t.
Proof. solve_decision. Defined.
Definition to_string (st : t) : string :=
  match st with
  | pending => "pending"
  | completed => "completed"
  | failed => "failed"
  | refunded => "refunded"
  end.
End TxStatus.

Module TxType.
Inductive t := ride_payment | wallet_topup | wallet_withdrawal | refund.
#[global] Instance eq_dec : EqDecision t.
Proof. solve_decision. Defined.
End TxType.

Module Role.
Inductive t := driver | passenger.
#[global] Instance eq_dec : EqDecision t.
Proof. solve_decision. Defined.
End Role.

(** [{ address, location: { type: 'Point', coordinates } }] *)
Record Place := mkPlace { address : string; coordinates : list Q }.

Module Vehicle.
Record t := mk { fuelEfficiency : option Q }.
End Vehicle.

Module Fare.
Record t := mk { amount : option Q; currency : string; status : FareStatus.t }.
(** Schema defaults of the nested [fare] path of a passenger entry. *)
Definition default : t := mk None "INR" FareStatus.pending.
End Fare.

Module Passenger.
Record t := mk {
    user : ObjectId;
    status : PassengerStatus.t;
    pickupLocation : Place;
    dropoffLocation : Place;
    fare : Fare.t }.
Definition set_status (st : PassengerStatus.t) (p : t) : t :=
    mk (user p) st (pickupLocation p) (dropoffLocation p) (fare p).
Definition set_fare (f : Fare.t) (p : t) : t :=
    mk (user p) (status p) (pickupLocation p) (dropoffLocation p) f.
End Passenger.

Module CurrentLocation.
Record t := mk { coordinates : list Q; updatedAt : option Z }.
Definition default : t := mk [0%Q; 0%Q] None.
End CurrentLocation.

Module Ride.
Record t := mk {
    driver : ObjectId;
    vehicle : Vehicle.t;
    startLocation : Place;
    endLocation : Place;
    distance : option Q;               (* route.distance *)
    availableSeats : Z;
    passengers : list Passenger.t;
    status : RideStatus.t;
    currentLocation : CurrentLocation.t;
    cancellationReason : option string;
    cancellationTime : option Z }.

Definition set_availableSeats (n : Z) (r : t) : t :=
    mk (driver r) (vehicle r) (startLocation r) (endLocation r) (distance r)
       n (passengers r) (status r) (currentLocation r)
       (cancellationReason r) (cancellationTime r).
Definition set_passengers (ps : list Passenger.t) (r : t) : t :=
    mk (driver r) (vehicle r) (startLocation r) (endLocation r) (distance r)
       (availableSeats r) ps (status r) (currentLocation r)
       (cancellationReason r) (cancellationTime r).
Definition set_status (st : RideStatus.t) (r : t) : t :=
    mk (driver r) (vehicle r) (startLocation r) (endLocation r) (distance r)
       (availableSeats r) (passengers r) st (currentLocation r)
       (cancellationReason r) (cancellationTime r).
Definition set_currentLocation (c : CurrentLocation.t) (r : t) : t :=
    mk (driver r) (vehicle r) (startLocation r) (endLocation r) (distance r)
       (availableSeats r) (passengers r) (status r) c
       (cancellationReason r) (cancellationTime r).
Definition set_cancellation (reason : string) (time : Z) (r : t) : t :=
    mk (driver r) (vehicle r) (startLocation r) (endLocation r) (distance r)
       (availableSeats r) (passengers r) (status r) (currentLocation r)
       (Some reason) (Some time).
End Ride.

Module Wallet.
Record t := mk { balance : Q; transactions : list ObjectId }.
End Wallet.

Module Rating.
Record t := mk { average : Q; count : nat }.
Definition default : t := mk 0 0.
End Rating.

Module Review.
Record t := mk {
    reviewer : ObjectId;
    role : Role.t;
    rating : Z;
    comment : option string;
    date : Z }.
End Review.

Module Impact.
Record t := mk { co2Saved : Q; fuelSaved : Q; treesEquivalent : Q }.
Definition zero : t := mk 0 0 0.
End Impact.

Module User.
Record t := mk {
    vehicle : Vehicle.t;
    wallet : Wallet.t;
    asDriver : Rating.t;               (* rating.asDriver *)
    asPassenger : Rating.t;            (* rating.asPassenger *)
    reviews : list Review.t;
    ridesAsDriver : list ObjectId;
    ridesAsPassenger : list ObjectId;
    environmentalImpact : Impact.t }.

Definition set_wallet (w : Wallet.t) (u : t) : t :=
    mk (vehicle u) w (asDriver u) (asPassenger u) (reviews u)
       (ridesAsDriver u) (ridesAsPassenger u) (environmentalImpact u).
Definition set_asDriver (r : Rating.t) (u : t) : t :=
    mk (vehicle u) (wallet u) r (asPassenger u) (reviews u)
       (ridesAsDriver u) (ridesAsPassenger u) (environmentalImpact u).
Definition set_asPassenger (r : Rating.t) (u : t) : t :=
    mk (vehicle u) (wallet u) (asDriver u) r (reviews u)
       (ridesAsDriver u) (ridesAsPassenger u) (environmentalImpact u).
Definition set_reviews (rs : list Review.t) (u : t) : t :=
    mk (vehicle u) (wallet u) (asDriver u) (asPassenger u) rs
       (ridesAsDriver u) (ridesAsPassenger u) (environmentalImpact u).
Definition set_ridesAsDriver (l : list ObjectId) (u : t) : t :=
    mk (vehicle u) (wallet u) (asDriver u) (asPassenger u) (reviews u)
       l (ridesAsPassenger u) (environmentalImpact u).
Definition set_ridesAsPassenger (l : list ObjectId) (u : t) : t :=
    mk (vehicle u) (wallet u) (asDriver u) (asPassenger u) (reviews u)
       (ridesAsDriver u) l (environmentalImpact u).
Definition set_environmentalImpact (i : Impact.t) (u : t) : t :=
    mk (vehicle u) (wallet u) (asDriver u) (asPassenger u) (reviews u)
       (ridesAsDriver u) (ridesAsPassenger u) i.

(** Schema defaults of a freshly registered user. *)
Definition fresh : t :=
    mk (Vehicle.mk None) (Wallet.mk 0 []) Rating.default Rating.default
       [] [] [] Impact.zero.
End User.

Module Transaction.
Record t := mk {
    sender : ObjectId;
    receiver : ObjectId;
    ride : option ObjectId;
    amount : Q;
    type : TxType.t;
    status : TxStatus.t;
    paymentMethod : string }.
Definition set_status (st : TxStatus.t) (x : t) : t :=
    mk (sender x) (receiver x) (ride x) (amount x) (type x) st (paymentMethod x).
End Transaction.

Module Notification.
Record t := mk {
    recipient : ObjectId;
    sender : ObjectId;
    type : string;
    ride : option ObjectId;
    transaction : option ObjectId }.
End Notification.

(** The persistent store: the four collections. *)
Record Store := mkStore {
  users : gmap ObjectId User.t;
  rides : list Ride.t;
  transactions : list Transaction.t;
  notifications : list Notification.t }.

Definition set_users (f : gmap ObjectId User.t → gmap ObjectId User.t) (s : Store) : Store :=
  mkStore (f (users s)) (rides s) (transactions s) (notifications s).
Definition set_rides (f : list Ride.t → list Ride.t) (s : Store) : Store :=
  mkStore (users s) (f (rides s)) (transactions s) (notifications s).
Definition set_transactions (f : list Transaction.t → list Transaction.t) (s : Store) : Store :=
  mkStore (users s) (rides s) (f (transactions s)) (notifications s).
Definition set_notifications (f : list Notification.t → list Notification.t) (s : Store) : Store :=
  mkStore (users s) (rides s) (transactions s) (f (notifications s)).

(** ** Responses and the handler monad *)

(** What [catch (err) { next(err) }] forwards: a Mongoose validation error
    naming the offending path, or the [TypeError] of a property access on
    [null]/[undefined]. *)
Inductive Error := ValidationError (path : string) | TypeError.

(** [res.status(code).json({ success, message })], or [next(err)]. *)
Inductive Response :=
  | Json (code : nat) (success : bool) (message : string)
  | Next (err : Error).

#[global] Instance Error_eq_dec : EqDecision Error.
Proof. solve_decision. Defined.
#[global] Instance Response_eq_dec : EqDecision Response.
Proof. solve_decision. Defined.

(** A computation of a handler body: it either ends the request with a
    response ([inl]) or continues with a value ([inr]); the store is
    threaded through in both cases. *)
Definition Handler (A : Type) : Type := Store → (Response + A) * Store.

Definition h_ret {A} (a : A) : Handler A := λ s, (inr a, s).
Definition h_bind {A B} (k : A → Handler B) (m : Handler A) : Handler B :=
  λ s, match m s with
       | (inl r, s') => (inl r, s')
       | (inr a, s') => k a s'
       end.

#[global] Instance Handler_ret : MRet Handler := @h_ret.
#[global] Instance Handler_bind : MBind Handler := @h_bind.

(** [return res.status(..).json(..)]: end the request. *)
Definition reply {A} (r : Response) : Handler A := λ s, (inl r, s).
Definition fail {A} (code : nat) (message : string) : Handler A :=
  reply (Json code false message).
Definition throw {A} (e : Error) : Handler A := reply (Next e).
Definition ok (code : nat) : Handler Response := mret (Json code true "").

(** Runs a handler on a store. *)
Definition run (h : Handler Response) (s : Store) : Response * Store :=
  match h s with
  | (inl r, s') => (r, s')
  | (inr r, s') => (r, s')
  end.

(** Property access on a possibly-null document. *)
Definition deref {A} (o : option A) : Handler A :=
  match o with
  | Some a => mret a
  | None => throw TypeError
  end.

(** [for (const x of xs) { await body(x) }] *)
Fixpoint for_each {A} (body : A → Handler unit) (xs : list A) : Handler unit :=
  match xs with
  | [] => mret tt
  | x :: xs' => body x;; for_each body xs'
  end.

(** [findById(id)] followed by the handler's [if (!doc) return 404]. *)
Definition or_fail {A} (code : nat) (message : string) (o : option A) : Handler A :=
  match o with
  | Some a => mret a
  | None => fail code message
  end.

(** [if (cond) return res.status(code).json({ success: false, message })] *)
Definition reject_if (cond : bool) (code : nat) (message : string) : Handler unit :=
  if cond then fail code message else mret tt.

(** ** The persistence layer: Mongoose models over the store *)

(** Reading from and writing to the store. *)
Definition gets {A} (f : Store → A) : Handler A := λ s, (inr (f s), s).
Definition modify (f : Store → Store) : Handler unit := λ s, (inr tt, f s).

Definition User_findById (id : ObjectId) : Handler (option User.t) :=
  gets (λ s, users s !! id).

Definition User_save (id : ObjectId) (u : User.t) : Handler unit :=
  modify (set_users <[id := u]>).

(** [User.findByIdAndUpdate(id, update)]: applies the update operator to
    the stored document; nothing happens when the id does not resolve. *)
Definition User_findByIdAndUpdate (id : ObjectId) (update : User.t → User.t) : Handler unit :=
  modify (set_users (alter update id)).

(** [{ $push: { ridesAsPassenger: rid } }] and [{ $pull: { .. : rid } }] *)
Definition push_ridesAsPassenger (rid : ObjectId) (u : User.t) : User.t :=
  User.set_ridesAsPassenger (User.ridesAsPassenger u ++ [rid]) u.
Definition pull_ridesAsPassenger (rid : ObjectId) (u : User.t) : User.t :=
  User.set_ridesAsPassenger (filter (λ x, x ≠ rid) (User.ridesAsPassenger u)) u.
Definition pull_ridesAsDriver (rid : ObjectId) (u : User.t) : User.t :=
  User.set_ridesAsDriver (filter (λ x, x ≠ rid) (User.ridesAsDriver u)) u.

(** Schema validation of a ride document, run by [save] and [create]:
    [availableSeats: { type: Number, required: true, min: 1 }].  On a
    document the enum constraints on the status fields hold by typing,
    and the other required paths, once stored, are never unset by a
    handler; what a creation payload has to bring is checked by
    [Ride_new] below. *)
Definition Ride_valid (r : Ride.t) : bool := (1 <=? Ride.availableSeats r)%Z.

Definition Ride_validate (r : Ride.t) : Handler unit :=
  if Ride_valid r then mret tt else throw (ValidationError "availableSeats").

Definition Ride_findById (rid : ObjectId) : Handler (option Ride.t) :=
  gets (λ s, rides s !! rid).

Definition Ride_save (rid : ObjectId) (r : Ride.t) : Handler unit :=
  Ride_validate r;; modify (set_rides <[rid := r]>).

Definition Ride_create (r : Ride.t) : Handler ObjectId :=
  Ride_validate r;;
  rid ← gets (λ s, length (rides s));
  modify (set_rides (λ l, l ++ [r]));;
  mret rid.

(** [paymentMethod: { enum: ['wallet', 'card', 'upi', 'netbanking', 'cash'],
    required: true }] of the transaction schema. *)
Definition paymentMethod_enum : list string :=
  ["wallet"; "card"; "upi"; "netbanking"; "cash"].

Definition Transaction_validate (x : Transaction.t) : Handler unit :=
  if bool_decide (Transaction.paymentMethod x ∈ paymentMethod_enum) then mret tt
  else throw (ValidationError "paymentMethod").

Definition Transaction_findById (id : ObjectId) : Handler (option Transaction.t) :=
  gets (λ s, transactions s !! id).

Definition Transaction_create (x : Transaction.t) : Handler ObjectId :=
  Transaction_validate x;;
  id ← gets (λ s, length (transactions s));
  modify (set_transactions (λ l, l ++ [x]));;
  mret id.

Definition Transaction_save (id : ObjectId) (x : Transaction.t) : Handler unit :=
  Transaction_validate x;; modify (set_transactions <[id := x]>).

(** The [type] enum of the notification schema. *)
Definition notification_type_enum : list string :=
  ["ride_request"; "ride_accepted"; "ride_rejected"; "ride_cancelled";
   "ride_started"; "ride_completed"; "payment_received"; "payment_sent";
   "rating_received"; "system_alert"; "safety_alert"].

Definition Notification_create (n : Notification.t) : Handler unit :=
  if bool_decide (Notification.type n ∈ notification_type_enum)
  then modify (set_notifications (λ l, l ++ [n]))
  else throw (ValidationError "type").

(** ** Ride controller *)

(** [ride.passengers.filter(p => p.status === 'accepted')] *)
Definition accepted (ps : list Passenger.t) : list Passenger.t :=
  filter (λ p, Passenger.status p = PassengerStatus.accepted) ps.

(** An element of [passengers] in a creation payload.  The two
    statuses are strings as sent, [None] when the element does not
    carry them. *)
Record EntryBody := mkEntryBody {
  entry_user : ObjectId;
  entry_status : option string;
  entry_pickupLocation : Place;
  entry_dropoffLocation : Place;
  entry_fare_amount : option Q;
  entry_fare_currency : option string;
  entry_fare_status : option string }.

(** The creation payload, [req.body]: the fields that the route's rules
    name (the places, [availableSeats]; [departureTime] and
    [fare.perKm], which no handler reads, are left out) and, as no rule
    excludes them, the other paths of the ride schema that the handlers
    read.  A field is [None] when the body does not carry it. *)
Record CreateRideBody := mkCreateRideBody {
  body_startLocation : Place;
  body_endLocation : Place;
  body_distance : option Q;
  body_estimatedArrivalTime : option Z;
  body_availableSeats : Z;
  body_passengers : list EntryBody;
  body_status : option string;
  body_currentLocation : option CurrentLocation.t;
  body_cancellationReason : option string;
  body_cancellationTime : option Z }.

(** A string path with an [enum] and a [default]: the default when the
    payload does not carry the path, the value when the enum lists it,
    a validation error on the path otherwise. *)
Definition cast_enum {A} (of_string : string → option A) (d : A) (path : string)
    (o : option string) : Error + A :=
  match o with
  | None => inr d
  | Some s =>
      match of_string s with
      | Some a => inr a
      | None => inl (ValidationError path)
      end
  end.

(** The passenger subdocument built from an element of the payload. *)
Definition Passenger_new (e : EntryBody) : Error + Passenger.t :=
  match cast_enum PassengerStatus.of_string PassengerStatus.pending
          "passengers.status" (entry_status e) with
  | inl err => inl err
  | inr status =>
      match cast_enum FareStatus.of_string FareStatus.pending
              "passengers.fare.status" (entry_fare_status e) with
      | inl err => inl err
      | inr fareStatus =>
          inr (Passenger.mk (entry_user e) status (entry_pickupLocation e)
                 (entry_dropoffLocation e)
                 (Fare.mk (entry_fare_amount e) (default "INR" (entry_fare_currency e))
                    fareStatus))
      end
  end.

Fixpoint Passengers_new (es : list EntryBody) : Error + list Passenger.t :=
  match es with
  | [] => inr []
  | e :: es' =>
      match Passenger_new e with
      | inl err => inl err
      | inr p =>
          match Passengers_new es' with
          | inl err => inl err
          | inr ps => inr (p :: ps)
          end
      end
  end.

(** [new Ride(body)] and the part of its validation that depends on the
    payload: [estimatedArrivalTime] is required and has no default, the
    statuses must be listed by their enums, and the paths that the body
    leaves out take their defaults ([passengers: []],
    [status: 'scheduled'], [currentLocation] at [[0, 0]]).  Mongoose
    reports every offending path at once; the error here names the
    first one met. *)
Definition Ride_new (driver : ObjectId) (vehicle : Vehicle.t) (body : CreateRideBody)
  : Error + Ride.t :=
  match body_estimatedArrivalTime body with
  | None => inl (ValidationError "estimatedArrivalTime")
  | Some _ =>
      match Passengers_new (body_passengers body) with
      | inl err => inl err
      | inr passengers =>
          match cast_enum RideStatus.of_string RideStatus.scheduled "status"
                  (body_status body) with
          | inl err => inl err
          | inr status =>
              inr (Ride.mk driver vehicle (body_startLocation body) (body_endLocation body)
                     (body_distance body) (body_availableSeats body) passengers status
                     (default CurrentLocation.default (body_currentLocation body))
                     (body_cancellationReason body) (body_cancellationTime body))
          end
      end
  end.

(** [req.body.driver = req.user.id; req.body.vehicle = user.vehicle;
    Ride.create(req.body)] *)
Definition createRide (caller : ObjectId) (body : CreateRideBody) : Handler Response :=
  user ← User_findById caller ≫= deref;
  rid ←
    match Ride_new caller (User.vehicle user) body with
    | inl err => throw err
    | inr ride => Ride_create ride
    end;
  User_save caller (User.set_ridesAsDriver (User.ridesAsDriver user ++ [rid]) user);;
  ok 201.

Definition requestRide (caller rid : ObjectId) (pickup dropoff : Place) : Handler Response :=
  ride ← Ride_findById rid ≫= or_fail 404 "Ride not found";
  reject_if (bool_decide (Ride.driver ride = caller))
    400 "You cannot request to join your own ride";;
  let existingRequest :=
    list_find (λ p, Passenger.user p = caller) (Ride.passengers ride) in
  reject_if (bool_decide (is_Some existingRequest))
    400 "You have already requested to join this ride";;
  reject_if (bool_decide (Ride.availableSeats ride ≤ 0)%Z)
    400 "This ride is full";;
  Ride_save rid
    (Ride.set_passengers
       (Ride.passengers ride ++
          [Passenger.mk caller PassengerStatus.pending pickup dropoff Fare.default])
       ride);;
  Notification_create
    (Notification.mk (Ride.driver ride) caller "ride_request" (Some rid) None);;
  ok 200.

(** What [ride.passengers[i].status = status] leaves on the entry when
    the ride is saved.  A string is kept when the schema's enum lists
    it and refused otherwise; [undefined] unsets the path, and no
    validator runs on a path that is not set. *)
Definition assigned_status (status : option string) : option PassengerStatus.t :=
  match status with
  | None => Some PassengerStatus.unset
  | Some s => PassengerStatus.of_string s
  end.

(** [status] is [req.body.status] as received, [None] for a body without
    it: the handler does not look at [validationResult], so whatever is
    sent reaches the assignment, and it is the schema's enum that
    refuses an unknown string when the ride is saved.  (A value that is
    not a string fails the cast or the enum like an unknown string; the
    one exception, [null], is left out: whether the enum admits it
    depends on the Mongoose release.) *)
Definition respondToRideRequest (caller rid userId : ObjectId) (status : option string)
  : Handler Response :=
  ride ← Ride_findById rid ≫= or_fail 404 "Ride not found";
  reject_if (bool_decide (Ride.driver ride ≠ caller))
    401 "Not authorized to update this ride";;
  '(passengerIndex, p) ←
    or_fail 404 "Passenger request not found"
      (list_find (λ p, Passenger.user p = userId ∧
                       PassengerStatus.read (Passenger.status p) = PassengerStatus.pending)
         (Ride.passengers ride));
  match assigned_status status with
  | None => throw (ValidationError "passengers.status")
  | Some st =>
    let ride1 :=
      Ride.set_passengers
        (<[passengerIndex := Passenger.set_status st p]> (Ride.passengers ride)) ride in
    ride2 ←
      (if decide (status = Some "accepted") then
         User_findByIdAndUpdate userId (push_ridesAsPassenger rid);;
         mret (Ride.set_availableSeats (Ride.availableSeats ride1 - 1) ride1)
       else mret ride1);
    Ride_save rid ride2;;
    Notification_create
      (Notification.mk userId caller
         (if decide (status = Some "accepted") then "ride_accepted" else "ride_rejected")
         (Some rid) None);;
    ok 200
  end.

Definition cancelRideRequest (caller rid : ObjectId) : Handler Response :=
  ride ← Ride_findById rid ≫= or_fail 404 "Ride not found";
  '(passengerIndex, p) ←
    or_fail 404 "You have not requested to join this ride"
      (list_find (λ p, Passenger.user p = caller) (Ride.passengers ride));
  ride1 ←
    (if decide (Passenger.status p = PassengerStatus.accepted) then
       User_findByIdAndUpdate caller (pull_ridesAsPassenger rid);;
       mret (Ride.set_availableSeats (Ride.availableSeats ride + 1) ride)
     else mret ride);
  Ride_save rid
    (Ride.set_passengers (delete passengerIndex (Ride.passengers ride1)) ride1);;
  Notification_create
    (Notification.mk (Ride.driver ride) caller "ride_cancelled" (Some rid) None);;
  ok 200.

Definition startRide (caller rid : ObjectId) (now : Z) : Handler Response :=
  ride ← Ride_findById rid ≫= or_fail 404 "Ride not found";
  reject_if (bool_decide (Ride.driver ride ≠ caller))
    401 "Not authorized to start this ride";;
  reject_if (bool_decide (Ride.status ride ≠ RideStatus.scheduled))
    400 ("Ride is already " +:+ RideStatus.to_string (Ride.status ride));;
  let ride1 :=
    Ride.set_currentLocation
      (CurrentLocation.mk (coordinates (Ride.startLocation ride)) (Some now))
      (Ride.set_status RideStatus.in_progress ride) in
  Ride_save rid ride1;;
  for_each
    (λ p, Notification_create
            (Notification.mk (Passenger.user p) caller "ride_started" (Some rid) None))
    (accepted (Ride.passengers ride1));;
  ok 200.

(** [x || d] on a possibly absent number: [undefined] and [0] are falsy. *)
Definition or_default (o : option Q) (d : Q) : Q :=
  match o with
  | Some x => if Qeq_bool x 0 then d else x
  | None => d
  end.

(** The impact figures of a trip, as [completeRide] computes them. *)
Definition trip_fuelSaved (ride : Ride.t) : Q :=
  let distance := or_default (Ride.distance ride) 0 in
  let fuelEfficiency := or_default (Vehicle.fuelEfficiency (Ride.vehicle ride)) 15 in
  let passengerCount := length (accepted (Ride.passengers ride)) in
  (distance * inject_Z (Z.of_nat passengerCount)) / fuelEfficiency.
Definition trip_co2Saved (ride : Ride.t) : Q := trip_fuelSaved ride * (23 # 10).
Definition trip_treesEquivalent (ride : Ride.t) : Q := trip_co2Saved ride / 22.

(** [impact.co2Saved += co2; impact.fuelSaved += fuel; impact.treesEquivalent += trees] *)
Definition add_impact (co2 fuel trees : Q) (u : User.t) : User.t :=
  let i := User.environmentalImpact u in
  User.set_environmentalImpact
    (Impact.mk (Impact.co2Saved i + co2) (Impact.fuelSaved i + fuel)
       (Impact.treesEquivalent i + trees)) u.

Definition completeRide (caller rid : ObjectId) (now : Z) : Handler Response :=
  ride ← Ride_findById rid ≫= or_fail 404 "Ride not found";
  reject_if (bool_decide (Ride.driver ride ≠ caller))
    401 "Not authorized to complete this ride";;
  reject_if (bool_decide (Ride.status ride ≠ RideStatus.in_progress))
    400 ("Ride must be in progress to complete, current status: " +:+
         RideStatus.to_string (Ride.status ride));;
  let ride1 :=
    Ride.set_currentLocation
      (CurrentLocation.mk (coordinates (Ride.endLocation ride)) (Some now))
      (Ride.set_status RideStatus.completed ride) in
  Ride_save rid ride1;;
  driver ← User_findById (Ride.driver ride1) ≫= deref;
  let passengers := accepted (Ride.passengers ride1) in
  let passengerCount := inject_Z (Z.of_nat (length passengers)) in
  let fuelSaved := trip_fuelSaved ride1 in
  let co2Saved := trip_co2Saved ride1 in
  let treesEquivalent := trip_treesEquivalent ride1 in
  User_save (Ride.driver ride1) (add_impact co2Saved fuelSaved treesEquivalent driver);;
  for_each
    (λ p,
       Notification_create
         (Notification.mk (Passenger.user p) caller "ride_completed" (Some rid) None);;
       passengerUser ← User_findById (Passenger.user p) ≫= deref;
       User_save (Passenger.user p)
         (add_impact (co2Saved / passengerCount) (fuelSaved / passengerCount)
            (treesEquivalent / passengerCount) passengerUser))
    passengers;;
  ok 200.

Definition cancelRide (caller rid : ObjectId) (reason : string) (now : Z)
  : Handler Response :=
  ride ← Ride_findById rid ≫= or_fail 404 "Ride not found";
  let isDriver := bool_decide (Ride.driver ride = caller) in
  let isPassenger :=
    existsb (λ p, bool_decide (Passenger.user p = caller ∧
                               Passenger.status p = PassengerStatus.accepted))
      (Ride.passengers ride) in
  reject_if (negb isDriver && negb isPassenger)
    401 "Not authorized to cancel this ride";;
  reject_if (bool_decide (Ride.status ride = RideStatus.completed ∨
                          Ride.status ride = RideStatus.cancelled))
    400 ("Ride is already " +:+ RideStatus.to_string (Ride.status ride));;
  ride1 ←
    (if isDriver then
       let ride1 :=
         Ride.set_cancellation reason now (Ride.set_status RideStatus.cancelled ride) in
       for_each
         (λ p,
            Notification_create
              (Notification.mk (Passenger.user p) caller "ride_cancelled" (Some rid) None);;
            User_findByIdAndUpdate (Passenger.user p) (pull_ridesAsPassenger rid))
         (accepted (Ride.passengers ride1));;
       User_findByIdAndUpdate caller (pull_ridesAsDriver rid);;
       mret ride1
     else
       '(passengerIndex, p) ←
         deref (list_find (λ p, Passenger.user p = caller) (Ride.passengers ride));
       let ride1 :=
         Ride.set_availableSeats (Ride.availableSeats ride + 1)
           (Ride.set_passengers
              (<[passengerIndex := Passenger.set_status PassengerStatus.cancelled p]>
                 (Ride.passengers ride)) ride) in
       Notification_create
         (Notification.mk (Ride.driver ride) caller "passenger_cancelled" (Some rid) None);;
       User_findByIdAndUpdate caller (pull_ridesAsPassenger rid);;
       mret ride1);
  Ride_save rid ride1;;
  ok 200.

Definition updateRideLocation (caller rid : ObjectId) (coords : list Q) (now : Z)
  : Handler Response :=
  ride ← Ride_findById rid ≫= or_fail 404 "Ride not found";
  reject_if (bool_decide (Ride.driver ride ≠ caller))
    401 "Not authorized to update this ride location";;
  reject_if (bool_decide (Ride.status ride ≠ RideStatus.in_progress))
    400 "Can only update location for rides in progress";;
  Ride_save rid
    (Ride.set_currentLocation (CurrentLocation.mk coords (Some now)) ride);;
  ok 200.

(** ** Payment controller *)

(** [req.body.amount] as it is sent: a JSON number or a JSON string. *)
Inductive Amount := Num (q : Q) | Str (s : string).

(** The value of a decimal digit. *)
Definition digit (c : Ascii.ascii) : option Z :=
  let n := Z.of_nat (Ascii.nat_of_ascii c) in
  if bool_decide (48 ≤ n ≤ 57)%Z then Some (n - 48)%Z else None.

(** Reads [[0-9]*] followed, at most once, by [.] and [[0-9]+]:
    [mantissa] is the number read so far without its point, [places]
    the number of digits read after the point, [ended] whether the last
    character was a digit. *)
Fixpoint decimal (s : string) (mantissa : Z) (places : option nat) (ended : bool)
  : option (Z * nat) :=
  match s with
  | EmptyString => if ended then Some (mantissa, default 0 places) else None
  | String c s' =>
      match digit c with
      | Some d => decimal s' (10 * mantissa + d)%Z (S <$> places) true
      | None =>
          if decide (c = "."%char) then
            match places with
            | None => decimal s' mantissa (Some 0) false
            | Some _ => None
            end
          else None
      end
  end.

(** The sign in front of a numeral, and the rest. *)
Definition signed (s : string) : Z * string :=
  match s with
  | String c s' =>
      if decide (c = "-"%char) then ((-1)%Z, s')
      else if decide (c = "+"%char) then (1%Z, s')
      else (1%Z, s)
  | EmptyString => (1%Z, s)
  end.

(** The strings that [validator.isNumeric] admits,
    [/^[+-]?([0-9]*[.])?[0-9]+$/], with the number that JavaScript reads
    in them ([Number(s)], which is also Mongoose's cast of a string to
    a [Number] path); [None] for any other string. *)
Definition numeric (s : string) : option Q :=
  '(m, k) ← decimal (signed s).2 0 None false;
  Some (inject_Z ((signed s).1 * m) / inject_Z (10 ^ Z.of_nat k))%Q.

(** The digits of [r / d] after the point, for [0 ≤ r < d]. *)
Fixpoint fraction_digits (fuel : nat) (r d : Z) : string :=
  match fuel with
  | O => ""
  | S fuel' =>
      if (r =? 0)%Z then ""
      else String (Ascii.ascii_of_nat (48 + Z.to_nat (10 * r / d)))
             (fraction_digits fuel' ((10 * r) mod d)%Z d)
  end.

(** [String(x)] of a number: sign, integer part, and the decimals when
    there are any.  The decimals are exact when they end within twenty
    places and cut there otherwise (JavaScript prints the shortest
    numeral that reads back as the same double, and switches to the
    exponent notation from 1e21 on and below 1e-6, which the model
    leaves out). *)
Definition Number_toString (x : Q) : string :=
  let d := Z.pos (Qden x) in
  let a := Z.abs (Qnum x) in
  (if (Qnum x <? 0)%Z then "-" else "") +:+
  NilZero.string_of_int (Z.to_int (a / d)) +:+
  (if (a mod d =? 0)%Z then "" else "." +:+ fraction_digits 20 (a mod d) d).

(** The number that a handler works with where it compares the amount,
    subtracts it or stores it on a [Number] path of a transaction or of
    a fare; [None] for a payload that the route's rule on [amount]
    refuses. *)
Definition to_number (amount : Amount) : option Q :=
  match amount with
  | Num q => Some q
  | Str s => numeric s
  end.

(** [x + amount] put back on a [Number] path: the sum for a number; for
    a string the concatenation of the printed [x] and the string, cast
    to a number again, [None] when it does not read as one.  The
    concatenation ends with a digit and has no exponent, so that
    [Number] reads it exactly when [numeric] does. *)
Definition js_plus (x : Q) (amount : Amount) : option Q :=
  match amount with
  | Num q => Some (x + q)%Q
  | Str s => numeric (Number_toString x +:+ s)
  end.

(** [user.wallet.balance += delta; user.wallet.transactions.push(tx)] *)
Definition wallet_apply (delta : Q) (tx : ObjectId) (u : User.t) : User.t :=
  let w := User.wallet u in
  User.set_wallet (Wallet.mk (Wallet.balance w + delta) (Wallet.transactions w ++ [tx])) u.

(** [user.wallet.balance += amount; user.wallet.transactions.push(tx);
    await user.save()] with the amount of the payload: a balance that
    the cast refuses makes [save] throw. *)
Definition User_credit (id : ObjectId) (amount : Amount) (tx : ObjectId) (u : User.t)
  : Handler unit :=
  match js_plus (Wallet.balance (User.wallet u)) amount with
  | Some balance =>
      User_save id
        (User.set_wallet
           (Wallet.mk balance (Wallet.transactions (User.wallet u) ++ [tx])) u)
  | None => throw (ValidationError "wallet.balance")
  end.

(** The handler starts with [validationResult(req)]: an amount that
    [isNumeric] refuses is answered 400 with the rule's message. *)
Definition addFundsToWallet (caller : ObjectId) (amount : Amount) (paymentMethod : string)
  : Handler Response :=
  match to_number amount with
  | None => fail 400 "Amount must be a number"
  | Some value =>
    transaction ← Transaction_create
      (Transaction.mk caller caller None value TxType.wallet_topup
         TxStatus.completed paymentMethod);
    user ← User_findById caller ≫= deref;
    User_credit caller amount transaction user;;
    ok 200
  end.

Definition withdrawFunds (caller : ObjectId) (amount : Q) : Handler Response :=
  user ← User_findById caller ≫= deref;
  reject_if (if Qlt_le_dec (Wallet.balance (User.wallet user)) amount then true else false)
    400 "Insufficient balance";;
  transaction ← Transaction_create
    (Transaction.mk caller caller None amount TxType.wallet_withdrawal
       TxStatus.pending "bank_transfer");
  User_save caller (wallet_apply (- amount) transaction user);;
  ok 200.

(** [ride.passengers[i].fare = { amount, currency: 'INR', status }] *)
Definition set_fare_at (i : nat) (p : Passenger.t) (f : Fare.t) (ride : Ride.t) : Ride.t :=
  Ride.set_passengers (<[i := Passenger.set_fare f p]> (Ride.passengers ride)) ride.

(** As in [addFundsToWallet], the amount is the payload's: the
    comparison with the balance, the debit [-=] and the stored amounts
    take its number, the credit [+=] of the driver takes it as sent. *)
Definition initiateRidePayment (caller rideId : ObjectId) (amount : Amount)
    (paymentMethod : string) : Handler Response :=
  match to_number amount with
  | None => fail 400 "Amount must be a number"
  | Some value =>
    ride ← Ride_findById rideId ≫= or_fail 404 "Ride not found";
    '(passengerIndex, p) ←
      or_fail 401 "You are not a passenger in this ride"
        (list_find (λ p, Passenger.user p = caller ∧
                         Passenger.status p = PassengerStatus.accepted)
           (Ride.passengers ride));
    reject_if (bool_decide (Fare.status (Passenger.fare p) = FareStatus.paid))
      400 "Payment already made for this ride";;
    (if decide (paymentMethod = "wallet") then
       user ← User_findById caller ≫= deref;
       reject_if (if Qlt_le_dec (Wallet.balance (User.wallet user)) value then true else false)
         400 "Insufficient wallet balance";;
       transaction ← Transaction_create
         (Transaction.mk caller (Ride.driver ride) (Some rideId) value
            TxType.ride_payment TxStatus.completed "wallet");
       User_save caller (wallet_apply (- value) transaction user);;
       driver ← User_findById (Ride.driver ride) ≫= deref;
       User_credit (Ride.driver ride) amount transaction driver;;
       Ride_save rideId
         (set_fare_at passengerIndex p (Fare.mk (Some value) "INR" FareStatus.paid) ride);;
       Notification_create
         (Notification.mk (Ride.driver ride) caller "payment_received"
            (Some rideId) (Some transaction))
     else
       transaction ← Transaction_create
         (Transaction.mk caller (Ride.driver ride) (Some rideId) value
            TxType.ride_payment TxStatus.pending paymentMethod);
       Ride_save rideId
         (set_fare_at passengerIndex p (Fare.mk (Some value) "INR" FareStatus.pending) ride));;
    ok 200
  end.

Definition completeRidePayment (caller rideId transactionId : ObjectId)
  : Handler Response :=
  transaction ← Transaction_findById transactionId ≫= or_fail 404 "Transaction not found";
  reject_if (bool_decide (Transaction.sender transaction ≠ caller))
    401 "Not authorized to complete this transaction";;
  reject_if (bool_decide (Transaction.status transaction ≠ TxStatus.pending))
    400 ("Transaction is already " +:+ TxStatus.to_string (Transaction.status transaction));;
  let transaction1 := Transaction.set_status TxStatus.completed transaction in
  Transaction_save transactionId transaction1;;
  ride ← Ride_findById rideId ≫= or_fail 404 "Ride not found";
  match list_find (λ p, Passenger.user p = caller) (Ride.passengers ride) with
  | Some (passengerIndex, p) =>
    let f := Passenger.fare p in
    Ride_save rideId
      (set_fare_at passengerIndex p
         (Fare.mk (Fare.amount f) (Fare.currency f) FareStatus.paid) ride)
  | None => mret tt
  end;;
  driver ← User_findById (Ride.driver ride) ≫= deref;
  User_save (Ride.driver ride)
    (wallet_apply (Transaction.amount transaction1) transactionId driver);;
  Notification_create
    (Notification.mk (Ride.driver ride) caller "payment_received"
       (Some rideId) (Some transactionId));;
  ok 200.

(** ** User controller: ratings *)

(** [ratings.reduce((sum, r) => sum + r.rating, 0)] *)
Definition totalRating (ratings : list Review.t) : Z :=
  fold_left (λ sum r, (sum + Review.rating r)%Z) ratings 0%Z.

(** The [{ average, count }] record recomputed from the reviews of a role. *)
Definition recompute_rating (role : Role.t) (reviews : list Review.t) : Rating.t :=
  let roleRatings := filter (λ r, Review.role r = role) reviews in
  Rating.mk
    (inject_Z (totalRating roleRatings) / inject_Z (Z.of_nat (length roleRatings)))
    (length roleRatings).

Definition submitRating (caller userId rideId : ObjectId) (role : Role.t)
    (rating : Z) (comment : option string) (now : Z) : Handler Response :=
  userToRate ← User_findById userId ≫= or_fail 404 "User not found";
  let userToRate1 :=
    User.set_reviews
      (User.reviews userToRate ++ [Review.mk caller role rating comment now])
      userToRate in
  let userToRate2 :=
    if decide (role = Role.driver) then
      User.set_asDriver (recompute_rating Role.driver (User.reviews userToRate1)) userToRate1
    else
      User.set_asPassenger (recompute_rating Role.passenger (User.reviews userToRate1)) userToRate1 in
  User_save userId userToRate2;;
  Notification_create
    (Notification.mk userId caller "rating_received" (Some rideId) None);;
  ok 201.

(** ** Specification vocabulary *)

(** [wp h Φ s] holds when running [h] on [s] ends in an outcome and a
    store that satisfy [Φ]. *)
Definition wp {A} (h : Handler A) (Φ : Response + A → Store → Prop) (s : Store) : Prop :=
  Φ (h s).1 (h s).2.



(** ** Seat accounting *)

(** [availableSeats] plus the number of accepted passenger entries. *)
Definition seat_total (r : Ride.t) : Z :=
  (Ride.availableSeats r + Z.of_nat (length (accepted (Ride.passengers r))))%Z.

(** The ride operations of the seat-accounting invariant. *)
Inductive RideOp :=
  | CreateRide (caller : ObjectId) (body : CreateRideBody)
  | RequestRide (caller rid : ObjectId) (pickup dropoff : Place)
  | RespondToRideRequest (caller rid userId : ObjectId) (status : option string)
  | CancelRideRequest (caller rid : ObjectId)
  | StartRide (caller rid : ObjectId) (now : Z)
  | CompleteRide (caller rid : ObjectId) (now : Z)
  | CancelRide (caller rid : ObjectId) (reason : string) (now : Z)
  | UpdateRideLocation (caller rid : ObjectId) (coords : list Q) (now : Z).

Definition handle (op : RideOp) : Handler Response :=
  match op with
  | CreateRide caller body => createRide caller body
  | RequestRide caller rid pickup dropoff => requestRide caller rid pickup dropoff
  | RespondToRideRequest caller rid userId status =>
      respondToRideRequest caller rid userId status
  | CancelRideRequest caller rid => cancelRideRequest caller rid
  | StartRide caller rid now => startRide caller rid now
  | CompleteRide caller rid now => completeRide caller rid now
  | CancelRide caller rid reason now => cancelRide caller rid reason now
  | UpdateRideLocation caller rid coords now => updateRideLocation caller rid coords now
  end.

(** The store after one operation, and after a sequence of them. *)
Definition step (s : Store) (op : RideOp) : Store := (run (handle op) s).2.
Definition exec (ops : list RideOp) (s : Store) : Store := fold_left step ops s.

(** At most one passenger entry per user. *)
Definition one_entry_per_user (r : Ride.t) : Prop :=
  NoDup (Passenger.user <$> Ride.passengers r).

(** A ride document with one entry per user, replaced by another: the
    new one has one entry per user, the same seat total, and stays at
    or above every lower bound [k ≤ 1] of its [availableSeats]. *)
Definition seats_kept (r r' : Ride.t) : Prop :=
  one_entry_per_user r →
  one_entry_per_user r' ∧
  seat_total r' = seat_total r ∧
  ∀ k, (k ≤ 1)%Z → (k ≤ Ride.availableSeats r)%Z → (k ≤ Ride.availableSeats r')%Z.

(** Every ride of [l] is still in [l'], under the same identifier, with
    its seats kept. *)
Definition rides_evolve (l l' : list Ride.t) : Prop :=
  ∀ rid r, l !! rid = Some r → ∃ r', l' !! rid = Some r' ∧ seats_kept r r'.

(** What an entry contributes to the number of accepted entries. *)
Definition accepted_weight (p : Passenger.t) : nat :=
  if decide (Passenger.status p = PassengerStatus.accepted) then 1 else 0.

(** The store after a completion that goes through. *)
Definition payment_completed (caller rideId txid : ObjectId) (tx : Transaction.t)
    (ride : Ride.t) (driver : User.t) (s : Store) : Store :=
  set_notifications
    (λ l, l ++ [Notification.mk (Ride.driver ride) caller "payment_received"
                  (Some rideId) (Some txid)])
    (set_users
       <[Ride.driver ride := wallet_apply (Transaction.amount tx) txid driver]>
       (set_rides
          (λ l, match list_find (λ p, Passenger.user p = caller) (Ride.passengers ride) with
                | Some (i, p) =>
                    <[rideId :=
                        set_fare_at i p
                          (Fare.mk (Fare.amount (Passenger.fare p))
                             (Fare.currency (Passenger.fare p)) FareStatus.paid) ride]> l
                | None => l
                end)
          (set_transactions
             <[txid := Transaction.set_status TxStatus.completed tx]> s))).



(** The arithmetic mean of a list of star ratings. *)
Definition mean (ratings : list Z) : Q :=
  inject_Z (foldr Z.add 0%Z ratings) / inject_Z (Z.of_nat (length ratings)).

(** The rating summary of a user for a role. *)
Definition rating_for (role : Role.t) (u : User.t) : Rating.t :=
  match role with
  | Role.driver => User.asDriver u
  | Role.passenger => User.asPassenger u
  end.

(** ** Ledger accounting *)

(** Sum of the amounts of the transactions that satisfy [P]. *)
Fixpoint sum_amounts (P : Transaction.t → bool) (l : list Transaction.t) : Q :=
  match l with
  | [] => 0
  | x :: l' => (if P x then Transaction.amount x else 0) + sum_amounts P l'
  end.

(** Completed transactions received by, and sent by, a user. *)
Definition completed_to (uid : ObjectId) (x : Transaction.t) : bool :=
  bool_decide (Transaction.status x = TxStatus.completed ∧ Transaction.receiver x = uid).
Definition completed_from (uid : ObjectId) (x : Transaction.t) : bool :=
  bool_decide (Transaction.status x = TxStatus.completed ∧ Transaction.sender x = uid).

(** Every wallet balance is the sum of the completed transactions
    received minus the sum of the completed transactions sent. *)
Definition balances_match_ledger (s : Store) : Prop :=
  ∀ uid u, users s !! uid = Some u →
    (Wallet.balance (User.wallet u) ==
     sum_amounts (completed_to uid) (transactions s) -
     sum_amounts (completed_from uid) (transactions s))%Q.

(** What the handlers do move through a wallet: a completed top-up or
    ride payment credits its receiver, a completed ride payment made
    from the wallet debits its sender. *)
Definition wallet_credit (uid : ObjectId) (x : Transaction.t) : bool :=
  bool_decide (Transaction.status x = TxStatus.completed ∧
               Transaction.receiver x = uid ∧
               (Transaction.type x = TxType.wallet_topup ∨
                Transaction.type x = TxType.ride_payment)).
Definition wallet_debit (uid : ObjectId) (x : Transaction.t) : bool :=
  bool_decide (Transaction.status x = TxStatus.completed ∧
               Transaction.sender x = uid ∧
               Transaction.type x = TxType.ride_payment ∧
               Transaction.paymentMethod x = "wallet").

Definition wallet_net (uid : ObjectId) (l : list Transaction.t) : Q :=
  sum_amounts (wallet_credit uid) l - sum_amounts (wallet_debit uid) l.

Definition balances_match_wallet (s : Store) : Prop :=
  ∀ uid u, users s !! uid = Some u →
    (Wallet.balance (User.wallet u) == wallet_net uid (transactions s))%Q.

Inductive LedgerOp :=
  | AddFundsToWallet (caller : ObjectId) (amount : Amount) (paymentMethod : string)
  | InitiateRidePayment (caller rideId : ObjectId) (amount : Amount) (paymentMethod : string)
  | CompleteRidePayment (caller rideId transactionId : ObjectId).

Definition handle_ledger (op : LedgerOp) : Handler Response :=
  match op with
  | AddFundsToWallet caller amount paymentMethod =>
      addFundsToWallet caller amount paymentMethod
  | InitiateRidePayment caller rideId amount paymentMethod =>
      initiateRidePayment caller rideId amount paymentMethod
  | CompleteRidePayment caller rideId transactionId =>
      completeRidePayment caller rideId transactionId
  end.

(** A top-up, or a ride payment from the wallet, whose amount is sent
    as a JSON number. *)
Definition sent_as_number (op : LedgerOp) : Prop :=
  match op with
  | AddFundsToWallet _ amount _ => ∃ q, amount = Num q
  | InitiateRidePayment _ _ amount paymentMethod =>
      paymentMethod = "wallet" → ∃ q, amount = Num q
  | CompleteRidePayment _ _ _ => True
  end.

(** A completion that settles what it names: the pending transaction is
    a ride payment made outside the wallet, and the ride identifier of
    the request resolves to a valid ride driven by its receiver. *)
Definition completion_matches_ride (s : Store) (op : LedgerOp) : Prop :=
  match op with
  | CompleteRidePayment caller rideId transactionId =>
      ∀ tx, transactions s !! transactionId = Some tx →
            Transaction.sender tx = caller →
            Transaction.status tx = TxStatus.pending →
            Transaction.type tx = TxType.ride_payment ∧
            Transaction.paymentMethod tx ≠ "wallet" ∧
            ∃ ride, rides s !! rideId = Some ride ∧
                    Ride.driver ride = Transaction.receiver tx ∧
                    Ride_valid ride = true
  | _ => True
  end.

(** The store after one ledger operation, and after a sequence of them;
    [completions_match_rides] asks each completion of the sequence to
    settle what it names in the store it runs on. *)
Definition step_ledger (s : Store) (op : LedgerOp) : Store := (run (handle_ledger op) s).2.
Definition exec_ledger (ops : list LedgerOp) (s : Store) : Store :=
  fold_left step_ledger ops s.
Fixpoint completions_match_rides (s : Store) (ops : list LedgerOp) : Prop :=
  match ops with
  | [] => True
  | op :: ops' =>
      completion_matches_ride s op ∧ completions_match_rides (step_ledger s op) ops'
  end.

(** ** Completion figures *)

(** The entries of a given status. *)
Definition with_status (st : PassengerStatus.t) (ps : list Passenger.t) : list Passenger.t :=
  filter (λ p, Passenger.status p = st) ps.


(** ** Seats of a created ride *)

(** The number of elements of a creation payload that are sent as
    accepted. *)
Definition sent_accepted (es : list EntryBody) : nat :=
  length (filter (λ e, entry_status e = Some "accepted") es).

(** A stored ride replaced by another with the same total of free
    seats and accepted entries, and at or above every lower bound
    [k ≤ 1] of its [availableSeats]. *)
Definition seats_follow (r r' : Ride.t) : Prop :=
  (Ride.availableSeats r' + Z.of_nat (length (with_status PassengerStatus.accepted
                                                (Ride.passengers r'))))%Z =
  (Ride.availableSeats r + Z.of_nat (length (with_status PassengerStatus.accepted
                                               (Ride.passengers r))))%Z ∧
  ∀ k, (k ≤ 1)%Z → (k ≤ Ride.availableSeats r)%Z → (k ≤ Ride.availableSeats r')%Z.

Definition rides_seats_follow (l l' : list Ride.t) : Prop :=
  ∀ rid r, l !! rid = Some r → ∃ r', l' !! rid = Some r' ∧ seats_follow r r'.

(** What a transaction adds to a filtered sum. *)
Definition counted (P : Transaction.t → bool) (x : Transaction.t) : Q :=
  if P x then Transaction.amount x else 0.

(** ** Sample stores *)

Definition sample_place : Place := mkPlace "Connaught Place" [(772090 # 10000)%Q; (286139 # 10000)%Q].

(** A creation payload with a distance of 100, an arrival time and the
    given seats, passengers and status. *)
Definition sample_body (seats : Z) (es : list EntryBody) (st : option string)
  : CreateRideBody :=
  mkCreateRideBody sample_place sample_place (Some 100%Q) (Some 3600%Z) seats es st
    None None None.

Definition sample_entry (uid : ObjectId) (st : option string) : EntryBody :=
  mkEntryBody uid st sample_place sample_place None None None.

Definition sample_passenger (uid : ObjectId) (st : PassengerStatus.t) : Passenger.t :=
  Passenger.mk uid st sample_place sample_place Fare.default.

Definition sample_ride (seats : Z) (ps : list Passenger.t) (st : RideStatus.t) : Ride.t :=
  Ride.mk 0 (Vehicle.mk (Some 10%Q)) sample_place sample_place (Some 100%Q)
    seats ps st CurrentLocation.default None None.

Definition sample_users : gmap ObjectId User.t :=
  <[0 := User.fresh]> (<[1 := User.fresh]> (<[2 := User.fresh]> (<[3 := User.fresh]> ∅))).

Definition sample_store (r : Ride.t) : Store := mkStore sample_users [r] [] [].

(** A user whose wallet holds [balance]. *)
Definition user_with_balance (balance : Q) : User.t :=
  User.set_wallet (Wallet.mk balance []) User.fresh.

(** Passenger 1 owes driver 0 a card payment of 50 for ride 0. *)
Definition pending_card_payment : Transaction.t :=
  Transaction.mk 1 0 (Some 0) 50 TxType.ride_payment TxStatus.pending "card".

(** User 1 has topped up 100 by card. *)
Definition card_topup : Transaction.t :=
  Transaction.mk 1 1 None 100 TxType.wallet_topup TxStatus.completed "card".

Definition ledger_store : Store :=
  mkStore (<[0 := user_with_balance 0]> (<[1 := user_with_balance 100]> ∅))
    [sample_ride 2 [sample_passenger 1 PassengerStatus.accepted] RideStatus.completed]
    [pending_card_payment; card_topup] [].

(** A store with one registered user and an empty ledger. *)
Definition fresh_ledger : Store := mkStore {[ 1 := User.fresh ]} [] [] [].

(** ** Further handlers and vocabulary *)

(** The error-handling middleware of [server.js]:
    [res.status(err.status || 500)].  Neither a Mongoose validation
    error nor a [TypeError] carries a [status], so what a handler
    forwards is answered 500. *)
Definition status_code (r : Response) : nat :=
  match r with
  | Json code _ _ => code
  | Next _ => 500
  end.

(** [{ vehicle: req.body }] *)
Definition User_set_vehicle (v : Vehicle.t) (u : User.t) : User.t :=
  User.mk v (User.wallet u) (User.asDriver u) (User.asPassenger u) (User.reviews u)
    (User.ridesAsDriver u) (User.ridesAsPassenger u) (User.environmentalImpact u).

Definition updateVehicleDetails (caller : ObjectId) (body : Vehicle.t) : Handler Response :=
  User_findByIdAndUpdate caller (User_set_vehicle body);;
  user ← User_findById caller ≫= deref;
  ok 200.

(** [Notification.create] of a notification whose [message] comes from
    the request: the schema's [required] refuses an absent or empty
    one. *)
Definition Notification_create_with (message : string) (n : Notification.t) : Handler unit :=
  if decide (message = "") then throw (ValidationError "message")
  else Notification_create n.

(** The handler does not look at [validationResult]: [message] is the
    body's, empty when absent. *)
Definition sendSafetyAlert (caller rid : ObjectId) (message : string) : Handler Response :=
  ride ← Ride_findById rid ≫= or_fail 404 "Ride not found";
  let isDriver := bool_decide (Ride.driver ride = caller) in
  let isPassenger :=
    existsb (λ p, bool_decide (Passenger.user p = caller ∧
                               Passenger.status p = PassengerStatus.accepted))
      (Ride.passengers ride) in
  reject_if (negb isDriver && negb isPassenger)
    401 "Not authorized to send safety alerts for this ride";;
  let recipients :=
    Ride.driver ride :: (Passenger.user <$> accepted (Ride.passengers ride)) in
  let recipientsFiltered := filter (λ r, r ≠ caller) recipients in
  for_each
    (λ recipient,
       Notification_create_with message
         (Notification.mk recipient caller "safety_alert" (Some rid) None))
    recipientsFiltered;;
  mret (Json 200 true "Safety alert sent successfully").

(** [Transaction.findOne({ sender, receiver, ride, type: 'ride_payment',
    status: 'completed' })]: the first stored transaction that matches. *)
Definition Transaction_findOne_payment (sender receiver rideId : ObjectId)
  : Handler (option Transaction.t) :=
  gets (λ s, snd <$> list_find
               (λ x, Transaction.sender x = sender ∧
                     Transaction.receiver x = receiver ∧
                     Transaction.ride x = Some rideId ∧
                     Transaction.type x = TxType.ride_payment ∧
                     Transaction.status x = TxStatus.completed)
               (transactions s)).

Definition requestRefund (caller rideId : ObjectId) : Handler Response :=
  ride ← Ride_findById rideId ≫= or_fail 404 "Ride not found";
  '(passengerIndex, p) ←
    or_fail 401 "You are not a passenger in this ride"
      (list_find (λ p, Passenger.user p = caller ∧
                       Passenger.status p = PassengerStatus.accepted)
         (Ride.passengers ride));
  reject_if (bool_decide (Fare.status (Passenger.fare p) ≠ FareStatus.paid))
    400 "No payment found for this ride";;
  transaction ←
    Transaction_findOne_payment caller (Ride.driver ride) rideId
      ≫= or_fail 404 "Transaction not found";
  refundTransaction ← Transaction_create
    (Transaction.mk (Ride.driver ride) caller (Some rideId)
       (Transaction.amount transaction) TxType.refund TxStatus.pending
       (Transaction.paymentMethod transaction));
  Notification_create
    (Notification.mk (Ride.driver ride) caller "refund_requested"
       (Some rideId) (Some refundTransaction));;
  ok 200.

(** The statuses that a ride of status [st] can still take: everything
    from [scheduled], the two ends from [in_progress], and nothing else
    from an end. *)
Definition status_reaches (st st' : RideStatus.t) : Prop :=
  match st with
  | RideStatus.scheduled => True
  | RideStatus.in_progress => st' ≠ RideStatus.scheduled
  | RideStatus.completed => st' = RideStatus.completed
  | RideStatus.cancelled => st' = RideStatus.cancelled
  end.

(** What a ride keeps for its whole life: its driver, the vehicle
    snapshot, the trip; its status only moves forward; and a driver
    without a passenger entry never gets one. *)
Definition trip_follows (r r' : Ride.t) : Prop :=
  Ride.driver r' = Ride.driver r ∧
  Ride.vehicle r' = Ride.vehicle r ∧
  Ride.startLocation r' = Ride.startLocation r ∧
  Ride.endLocation r' = Ride.endLocation r ∧
  Ride.distance r' = Ride.distance r ∧
  status_reaches (Ride.status r) (Ride.status r') ∧
  (Ride.driver r ∉ Passenger.user <$> Ride.passengers r →
   Ride.driver r' ∉ Passenger.user <$> Ride.passengers r').

Definition rides_follow (l l' : list Ride.t) : Prop :=
  ∀ rid r, l !! rid = Some r → ∃ r', l' !! rid = Some r' ∧ trip_follows r r'.

(** The ride that an operation addresses. *)
Definition op_ride (op : RideOp) : option ObjectId :=
  match op with
  | CreateRide _ _ => None
  | RequestRide _ rid _ _ | RespondToRideRequest _ rid _ _ | CancelRideRequest _ rid
  | StartRide _ rid _ | CompleteRide _ rid _ | CancelRide _ rid _ _
  | UpdateRideLocation _ rid _ _ => Some rid
  end.



(** The ride document that [completeRide] saves. *)
Definition completed (now : Z) (ride : Ride.t) : Ride.t :=
  Ride.set_currentLocation
    (CurrentLocation.mk (coordinates (Ride.endLocation ride)) (Some now))
    (Ride.set_status RideStatus.completed ride).



(** A ride that is neither completed nor cancelled. *)
Definition open_ride (ride : Ride.t) : Prop :=
  Ride.status ride = RideStatus.scheduled ∨ Ride.status ride = RideStatus.in_progress.


(** The ride with the status of entry [i] replaced. *)
Definition answered (i : nat) (p : Passenger.t) (st : PassengerStatus.t) (ride : Ride.t)
  : Ride.t :=
  Ride.set_passengers (<[i := Passenger.set_status st p]> (Ride.passengers ride)) ride.


(** ** Requests *)

(** The requests that the controllers serve, over all three of them. *)
Inductive Request :=
  | OnRide (op : RideOp)
  | OnLedger (op : LedgerOp)
  | WithdrawFunds (caller : ObjectId) (amount : Q)
  | RequestRefund (caller rideId : ObjectId)
  | UpdateVehicleDetails (caller : ObjectId) (body : Vehicle.t)
  | SendSafetyAlert (caller rid : ObjectId) (message : string)
  | SubmitRating (caller userId rideId : ObjectId) (role : Role.t) (rating : Z)
      (comment : option string) (now : Z).

Definition serve (req : Request) : Handler Response :=
  match req with
  | OnRide op => handle op
  | OnLedger op => handle_ledger op
  | WithdrawFunds caller amount => withdrawFunds caller amount
  | RequestRefund caller rideId => requestRefund caller rideId
  | UpdateVehicleDetails caller body => updateVehicleDetails caller body
  | SendSafetyAlert caller rid message => sendSafetyAlert caller rid message
  | SubmitRating caller userId rideId role rating comment now =>
      submitRating caller userId rideId role rating comment now
  end.

(** The store after one request, and after a sequence of them. *)
Definition served (s : Store) (req : Request) : Store := (run (serve req) s).2.
Definition served_all (reqs : list Request) (s : Store) : Store := fold_left served reqs s.

(** A stored transaction is either left as it is or, when pending,
    marked completed. *)
Definition settles (x x' : Transaction.t) : Prop :=
  x' = x ∨
  (Transaction.status x = TxStatus.pending ∧
   x' = Transaction.set_status TxStatus.completed x).

(** Every transaction of [l] is still in [l'], under the same
    identifier, as it was or settled. *)
Definition ledger_follows (l l' : list Transaction.t) : Prop :=
  ∀ id x, l !! id = Some x → ∃ x', l' !! id = Some x' ∧ settles x x'.

(** Every identifier in a wallet names a stored transaction. *)
Definition wallets_resolve (s : Store) : Prop :=
  ∀ uid u id, users s !! uid = Some u →
    id ∈ Wallet.transactions (User.wallet u) → id < length (transactions s).

(** [ride.passengers.findIndex(p => p.user == caller && p.status === 'accepted')] *)
Definition accepted_entry (caller : ObjectId) (ride : Ride.t) : option (nat * Passenger.t) :=
  list_find (λ p, Passenger.user p = caller ∧
                  Passenger.status p = PassengerStatus.accepted)
    (Ride.passengers ride).

(** The transaction that a ride payment records. *)
Definition ride_payment (caller rideId : ObjectId) (ride : Ride.t) (amount : Q)
    (st : TxStatus.t) (paymentMethod : string) : Transaction.t :=
  Transaction.mk caller (Ride.driver ride) (Some rideId) amount
    TxType.ride_payment st paymentMethod.

(** The wallets of [s] are those of [s0]. *)
Definition wallets_kept (s0 s : Store) : Prop :=
  ∀ uid, User.wallet <$> users s !! uid = User.wallet <$> users s0 !! uid.

(** A request of the payment controller that can move money. *)
Definition moves_money (req : Request) : Prop :=
  match req with
  | OnLedger _ => True
  | _ => False
  end.

(** The payment that [requestRefund] looks for. *)
Definition settled_payment (caller rideId : ObjectId) (ride : Ride.t) (x : Transaction.t)
  : Prop :=
  Transaction.sender x = caller ∧
  Transaction.receiver x = Ride.driver ride ∧
  Transaction.ride x = Some rideId ∧
  Transaction.type x = TxType.ride_payment ∧
  Transaction.status x = TxStatus.completed.

(** The transaction that [requestRefund] records. *)
Definition refund_of (caller rideId : ObjectId) (ride : Ride.t) (x : Transaction.t)
  : Transaction.t :=
  Transaction.mk (Ride.driver ride) caller (Some rideId) (Transaction.amount x)
    TxType.refund TxStatus.pending (Transaction.paymentMethod x).

(** No wallet is overdrawn and no stored amount is negative. *)
Definition solvent (s : Store) : Prop :=
  (∀ uid u, users s !! uid = Some u → (0 <= Wallet.balance (User.wallet u))%Q) ∧
  (∀ id x, transactions s !! id = Some x → (0 <= Transaction.amount x)%Q).

(** The amount that a request carries, where it carries one and the
    handler does not compare it with anything, is not negative. *)
Definition amount_nonnegative (req : Request) : Prop :=
  match req with
  | OnLedger (AddFundsToWallet _ amount _)
  | OnLedger (InitiateRidePayment _ _ amount _) =>
      ∀ value, to_number amount = Some value → (0 <= value)%Q
  | _ => True
  end.




(** A creation payload that brings the arrival time and leaves the
    passengers, the status, the location and the cancellation fields to
    the schema's defaults. *)
Definition plain_body (body : CreateRideBody) : Prop :=
  is_Some (body_estimatedArrivalTime body) ∧
  body_passengers body = [] ∧ body_status body = None ∧
  body_currentLocation body = None ∧
  body_cancellationReason body = None ∧ body_cancellationTime body = None.

(** The ride that [createRide] stores for such a payload. *)
Definition created (caller : ObjectId) (user : User.t) (body : CreateRideBody) : Ride.t :=
  Ride.mk caller (User.vehicle user) (body_startLocation body) (body_endLocation body)
    (body_distance body) (body_availableSeats body) [] RideStatus.scheduled
    CurrentLocation.default None None.

(** A trip whose distance and fuel efficiency, where recorded, are not
    negative. *)
Definition nonnegative_trip (ride : Ride.t) : Prop :=
  match Ride.distance ride with Some d => (0 <= d)%Q | None => True end ∧
  match Vehicle.fuelEfficiency (Ride.vehicle ride) with
  | Some e => (0 <= e)%Q
  | None => True
  end.

(** Componentwise order on impact accumulators. *)
Definition impact_le (i i' : Impact.t) : Prop :=
  (Impact.co2Saved i <= Impact.co2Saved i')%Q ∧
  (Impact.fuelSaved i <= Impact.fuelSaved i')%Q ∧
  (Impact.treesEquivalent i <= Impact.treesEquivalent i')%Q.

(** Every user of [s0] is a user of [s] whose accumulators have not
    decreased. *)
Definition impacts_grow (s0 s : Store) : Prop :=
  ∀ uid u, users s0 !! uid = Some u →
    ∃ u', users s !! uid = Some u' ∧
          impact_le (User.environmentalImpact u) (User.environmentalImpact u').

(** Star ratings between 1 and 5. *)
Definition stars (r : Z) : Prop := (1 ≤ r ≤ 5)%Z.

(* end of the definitions *)

(** * Properties *)

(** ** Reasoning about handlers

    The rules below follow the structure of a handler body; [hstep]
    applies the one that matches. *)

#[global] Arguments wp : simpl never.

Lemma wp_ret {A} (a : A) Φ s : Φ (inr a) s → wp (mret a) Φ s.
Proof. done. Qed.

Lemma wp_reply {A} (r : Response) (Φ : Response + A → Store → Prop) s :
  Φ (inl r) s → wp (reply r) Φ s.
Proof. done. Qed.

Lemma wp_bind {A B} (m : Handler A) (k : A → Handler B) Φ s :
  wp m (λ x s', match x with
                | inl r => Φ (inl r) s'
                | inr a => wp (k a) Φ s'
                end) s →
  wp (m ≫= k) Φ s.
Proof.
  unfold wp, mbind, Handler_bind, h_bind.
  destruct (m s) as [[r|a] s']; simpl; done.
Qed.

Lemma wp_gets {A} (f : Store → A) Φ s : Φ (inr (f s)) s → wp (gets f) Φ s.
Proof. done. Qed.

Lemma wp_modify (f : Store → Store) Φ s : Φ (inr tt) (f s) → wp (modify f) Φ s.
Proof. done. Qed.

Lemma wp_mono {A} (h : Handler A) (Φ Ψ : Response + A → Store → Prop) s :
  wp h Φ s → (∀ x s', Φ x s' → Ψ x s') → wp h Ψ s.
Proof. unfold wp. auto. Qed.

(** The response and final store of a whole handler. *)
Lemma wp_run (h : Handler Response) (Ψ : Response → Store → Prop) s :
  wp h (λ x s', match x with inl r | inr r => Ψ r s' end) s →
  Ψ (run h s).1 (run h s).2.
Proof.
  unfold wp, run. destruct (h s) as [[r|r] s']; simpl; done.
Qed.

Lemma wp_run_pair (h : Handler Response) (Ψ : Response * Store → Prop) s :
  wp h (λ x s', Ψ (match x with inl r | inr r => r end, s')) s →
  Ψ (run h s).
Proof.
  unfold wp, run. destruct (h s) as [[r|r] s']; simpl; done.
Qed.

(** A loop keeps an invariant of the store that each iteration keeps. *)
Lemma wp_for_each {A} (body : A → Handler unit) (xs : list A)
    (I : Store → Prop) (Φ : Response + unit → Store → Prop) s :
  I s →
  (∀ x s1, x ∈ xs → I s1 → wp (body x) (λ _ s2, I s2) s1) →
  (∀ o s', I s' → Φ o s') →
  wp (for_each body xs) Φ s.
Proof.
  intros HI Hbody HΦ. revert s HI.
  induction xs as [|x xs IH]; intros s HI; simpl.
  - apply wp_ret. by apply HΦ.
  - apply wp_bind.
    eapply wp_mono; [apply (Hbody x s); [left | done] |].
    intros [r|[]] s' HI'; simpl.
    + by apply HΦ.
    + apply IH; [|done]. intros y s1 Hy. apply Hbody. by right.
Qed.

Ltac head_of t :=
  lazymatch t with
  | ?f _ => head_of f
  | _ => t
  end.

Ltac hstep :=
  lazymatch goal with
  | |- wp (mbind _ _) _ _ => apply wp_bind
  | |- wp (mret _) _ _ => apply wp_ret
  | |- wp (reply _) _ _ => apply wp_reply
  | |- wp (gets _) _ _ => apply wp_gets
  | |- wp (modify _) _ _ => apply wp_modify
  | |- wp (if ?c then _ else _) _ _ => destruct c eqn:?
  | |- wp (match ?c with _ => _ end) _ _ => destruct c eqn:?
  | |- wp (for_each _ _) _ _ => fail "a loop needs an invariant"
  | |- wp ?h _ _ => let f := head_of h in unfold f at 1
  end; cbn beta iota.

Ltac hunfold :=
  unfold ok, fail, throw, or_fail, reject_if, deref,
    User_findById, User_save, User_findByIdAndUpdate,
    Ride_findById, Ride_save, Ride_create, Ride_validate,
    Transaction_findById, Transaction_create, Transaction_save,
    Transaction_validate, Notification_create.

Ltac hsteps := repeat hstep.

(** Turns the recorded outcomes of boolean tests into facts and closes
    the branches they contradict. *)
Ltac hfacts :=
  repeat match goal with
    | H : bool_decide _ = true |- _ => apply bool_decide_eq_true in H
    | H : bool_decide _ = false |- _ => apply bool_decide_eq_false in H
    | H : ¬ (_ ≠ _) |- _ => apply dec_stable in H
    end;
  simplify_eq/=; try done; try congruence.

(** Unfolds a handler down to a function on stores. *)
Ltac hcompute :=
  unfold run; hunfold;
  unfold mbind, mret, Handler_bind, Handler_ret, h_bind, h_ret, gets, modify,
    reply, Ride_valid; simpl.

(** ** Request to join *)


Lemma existing_request_iff caller (ps : list Passenger.t) :
  is_Some (list_find (λ p, Passenger.user p = caller) ps) ↔
  ∃ p, p ∈ ps ∧ Passenger.user p = caller.
Proof.
  split.
  - intros [[i p] H]. apply list_find_Some in H as (Hi & Hp & _).
    exists p. split; [|done]. by eapply list_elem_of_lookup_2.
  - intros (p & Hin & Hp).
    destruct (list_find _ ps) as [x|] eqn:E; [done|].
    apply list_find_None in E. rewrite Forall_forall in E.
    by destruct (E p Hin).
Qed.





(** ** Seat accounting *)

Lemma seats_kept_refl r : seats_kept r r.
Proof. intros Hnd. split_and!; auto. Qed.

Lemma rides_evolve_refl l : rides_evolve l l.
Proof. intros rid r H. exists r. split; [done | apply seats_kept_refl]. Qed.

Lemma rides_evolve_trans l1 l2 l3 :
  rides_evolve l1 l2 → rides_evolve l2 l3 → rides_evolve l1 l3.
Proof.
  intros H12 H23 rid r1 H1.
  destruct (H12 rid r1 H1) as (r2 & H2 & Hk2).
  destruct (H23 rid r2 H2) as (r3 & H3 & Hk3).
  exists r3. split; [done|]. intros Hnd1.
  destruct (Hk2 Hnd1) as (Hnd2 & Ht2 & Hb2).
  destruct (Hk3 Hnd2) as (Hnd3 & Ht3 & Hb3).
  split_and!; [done | congruence | auto].
Qed.

Lemma rides_evolve_insert l rid r r' :
  l !! rid = Some r → seats_kept r r' → rides_evolve l (<[rid := r']> l).
Proof.
  intros Hr Hk rid0 r0 H0.
  destruct (decide (rid = rid0)) as [->|Hne].
  - rewrite list_lookup_insert_eq by (by eapply lookup_lt_Some).
    exists r'. split; [done|]. by assert (r0 = r) as -> by congruence.
  - rewrite list_lookup_insert_ne by done.
    exists r0. split; [done | apply seats_kept_refl].
Qed.

Lemma rides_evolve_app l r : rides_evolve l (l ++ [r]).
Proof.
  intros rid r0 H0. exists r0. split; [|apply seats_kept_refl].
  by apply lookup_app_l_Some.
Qed.

Lemma accepted_app ps qs :
  length (accepted (ps ++ qs)) = length (accepted ps) + length (accepted qs).
Proof. unfold accepted. by rewrite filter_app, length_app. Qed.

Lemma accepted_cons p ps :
  length (accepted (p :: ps)) = accepted_weight p + length (accepted ps).
Proof.
  unfold accepted, accepted_weight. rewrite filter_cons.
  by case_decide.
Qed.

Lemma accepted_insert ps i p p' :
  ps !! i = Some p →
  length (accepted (<[i := p']> ps)) + accepted_weight p =
  length (accepted ps) + accepted_weight p'.
Proof.
  intros Hi.
  rewrite <- (take_drop_middle ps i p Hi) at 2.
  rewrite insert_take_drop by (by eapply lookup_lt_Some).
  rewrite !accepted_app, !accepted_cons. lia.
Qed.

Lemma accepted_delete ps i p :
  ps !! i = Some p →
  length (accepted (delete i ps)) + accepted_weight p = length (accepted ps).
Proof.
  intros Hi.
  rewrite <- (take_drop_middle ps i p Hi) at 2.
  rewrite delete_take_drop.
  rewrite !accepted_app, !accepted_cons. lia.
Qed.

(** Replacing the status of an entry does not change whose entry it is. *)
Lemma users_set_status (ps : list Passenger.t) i p st :
  ps !! i = Some p →
  Passenger.user <$> <[i := Passenger.set_status st p]> ps = Passenger.user <$> ps.
Proof.
  intros Hi. rewrite list_fmap_insert. apply list_insert_id.
  by rewrite list_lookup_fmap, Hi.
Qed.

(** With one entry per user, the entry of a user is the one found. *)
Lemma unique_entry (ps : list Passenger.t) p q :
  NoDup (Passenger.user <$> ps) →
  p ∈ ps → q ∈ ps → Passenger.user p = Passenger.user q → p = q.
Proof.
  intros Hnd Hp Hq Hu.
  apply list_elem_of_lookup in Hp as [i Hi].
  apply list_elem_of_lookup in Hq as [j Hj].
  assert (i = j) as ->; [|congruence].
  eapply NoDup_lookup; [exact Hnd | |].
  - by rewrite list_lookup_fmap, Hi.
  - by rewrite list_lookup_fmap, Hj, Hu.
Qed.

(** Splits [seats_kept] into the part on entries and the part on
    numbers, and settles the latter by arithmetic. *)
Ltac seats :=
  let Hnd := fresh "Hnd" in
  unfold seats_kept, one_entry_per_user, seat_total, accepted_weight in *;
  simpl in *; intros Hnd;
  split; [try exact Hnd |
          repeat case_decide; try congruence; try (split; [lia | intros; lia])].

Lemma requestRide_evolves s caller rid pickup dropoff :
  wp (requestRide caller rid pickup dropoff)
    (λ _ s', rides_evolve (rides s) (rides s')) s.
Proof.
  hsteps.
  all: try (simpl; apply rides_evolve_refl).
  all: eapply rides_evolve_insert; [done|].
  all: hfacts.
  all: seats; rewrite ?accepted_app; simpl; try (split; [lia | auto]).
  all: rewrite fmap_app; apply NoDup_app; split_and!; [done | | apply NoDup_singleton].
  all: intros x Hx Hc; apply list_elem_of_singleton in Hc as ->.
  all: apply list_elem_of_fmap in Hx as (p & Hu & Hp).
  all: match goal with H : ¬ is_Some _ |- _ => apply H end.
  all: apply existing_request_iff; eauto.
Qed.

(** An entry that reads as pending is not an accepted one. *)
Lemma read_pending_not_accepted st :
  PassengerStatus.read st = PassengerStatus.pending → st ≠ PassengerStatus.accepted.
Proof. by destruct st. Qed.

Lemma respondToRideRequest_evolves s caller rid userId status :
  wp (respondToRideRequest caller rid userId status)
    (λ _ s', rides_evolve (rides s) (rides s')) s.
Proof.
  hsteps.
  all: try (simpl; apply rides_evolve_refl).
  all: eapply rides_evolve_insert; [done|].
  all: match goal with H : list_find _ _ = Some _ |- _ =>
         apply list_find_Some in H as (Hi & [Hu Hst%read_pending_not_accepted] & _) end.
  all: match goal with |- seats_kept _ (_ (Ride.set_passengers (<[_ := ?p']> _) _)) =>
         pose proof (accepted_insert _ _ _ p' Hi) as Hc
       | |- seats_kept _ (Ride.set_passengers (<[_ := ?p']> _) _) =>
         pose proof (accepted_insert _ _ _ p' Hi) as Hc end.
  all: unfold Ride_valid in *; simpl in *.
  all: try match goal with H : (_ <=? _)%Z = true |- _ => apply Z.leb_le in H end.
  all: unfold assigned_status, PassengerStatus.of_string in *;
    repeat case_match; repeat case_decide; simplify_eq.
  all: seats.
  all: try by rewrite users_set_status.
Qed.

Lemma cancelRideRequest_evolves s caller rid :
  wp (cancelRideRequest caller rid)
    (λ _ s', rides_evolve (rides s) (rides s')) s.
Proof.
  hsteps.
  all: try (simpl; apply rides_evolve_refl).
  all: eapply rides_evolve_insert; [done|].
  all: match goal with H : list_find _ _ = Some _ |- _ =>
         apply list_find_Some in H as (Hi & Hu & _) end.
  all: pose proof (accepted_delete _ _ _ Hi) as Hc.
  all: seats.
  all: rewrite list_fmap_delete; eapply sublist_NoDup; [done | apply sublist_delete].
Qed.

Lemma wp_for_each_rides {A} (body : A → Handler unit) (xs : list A)
    (Φ : Response + unit → Store → Prop) s :
  (∀ x s1, wp (body x) (λ _ s2, rides s2 = rides s1) s1) →
  (∀ o s', rides s' = rides s → Φ o s') →
  wp (for_each body xs) Φ s.
Proof.
  intros Hbody HΦ.
  apply (wp_for_each _ _ (λ s', rides s' = rides s)); [done | | done].
  intros x s1 _ H1. eapply wp_mono; [apply Hbody|].
  simpl. intros _ s2 H2. congruence.
Qed.

Ltac loop_keeps_rides :=
  apply wp_for_each_rides;
  [ intros ? ?; hsteps; simpl; done
  | let o := fresh "o" in let s' := fresh "s'" in let Hs' := fresh "Hs'" in
    intros o s' Hs'; simpl in Hs'; destruct o as [?|[]]; cbn beta iota ].

Lemma startRide_evolves s caller rid now :
  wp (startRide caller rid now) (λ _ s', rides_evolve (rides s) (rides s')) s.
Proof.
  hsteps.
  all: try (simpl; apply rides_evolve_refl).
  loop_keeps_rides; hsteps; rewrite Hs'.
  all: eapply rides_evolve_insert; [done|]; seats.
Qed.

Lemma updateRideLocation_evolves s caller rid coords now :
  wp (updateRideLocation caller rid coords now)
    (λ _ s', rides_evolve (rides s) (rides s')) s.
Proof.
  hsteps.
  all: try (simpl; apply rides_evolve_refl).
  simpl. eapply rides_evolve_insert; [done|]. seats.
Qed.

Lemma createRide_evolves s caller body :
  wp (createRide caller body) (λ _ s', rides_evolve (rides s) (rides s')) s.
Proof.
  hsteps.
  all: try (simpl; apply rides_evolve_refl).
  simpl. apply rides_evolve_app.
Qed.

Lemma completeRide_evolves s caller rid now :
  wp (completeRide caller rid now) (λ _ s', rides_evolve (rides s) (rides s')) s.
Proof.
  hsteps.
  all: try (simpl; apply rides_evolve_refl).
  all: try (simpl; eapply rides_evolve_insert; [done|]; seats).
  loop_keeps_rides; hsteps; rewrite Hs'; simpl.
  all: eapply rides_evolve_insert; [done|]; seats.
Qed.

(** A passenger who withdraws has an accepted entry, and with one entry
    per user it is the entry that the handler marks as cancelled. *)
Lemma withdrawing_entry_accepted (ps : list Passenger.t) caller i p :
  NoDup (Passenger.user <$> ps) →
  existsb (λ p, bool_decide (Passenger.user p = caller ∧
                             Passenger.status p = PassengerStatus.accepted)) ps = true →
  list_find (λ p, Passenger.user p = caller) ps = Some (i, p) →
  ps !! i = Some p ∧ Passenger.status p = PassengerStatus.accepted.
Proof.
  intros Hnd Hex Hfind.
  apply list_find_Some in Hfind as (Hi & Hu & _). split; [done|].
  apply existsb_exists in Hex as (q & Hq & Hacc).
  apply bool_decide_eq_true in Hacc as [Hqu Hqs].
  apply list_elem_of_In in Hq.
  assert (q = p) as <-; [|done].
  eapply unique_entry; [done.. | | congruence].
  by eapply list_elem_of_lookup_2.
Qed.

Lemma cancelRide_evolves s caller rid reason now :
  wp (cancelRide caller rid reason now)
    (λ _ s', rides_evolve (rides s) (rides s')) s.
Proof.
  hsteps.
  all: try (simpl; apply rides_evolve_refl).
  loop_keeps_rides; hsteps; simpl; rewrite ?Hs'.
  all: try apply rides_evolve_refl.
  - eapply rides_evolve_insert; [done|]. seats.
  - eapply rides_evolve_insert; [done|].
    (* the entry marked is the accepted one, so the seat given back
       matches the entry that stops counting *)
    match goal with
    | H : bool_decide (_ ∈ notification_type_enum) = true |- _ => clear H
    end.
    intros Hnd. simpl in *.
    match goal with
    | H : negb _ = false, Hf : list_find _ _ = Some _ |- _ =>
        apply negb_false_iff in H;
        destruct (withdrawing_entry_accepted _ _ _ _ Hnd H Hf) as [Hi Hacc]
    end.
    match type of Hi with
    | _ !! _ = Some ?q =>
        pose proof (accepted_insert _ _ _
                      (Passenger.set_status PassengerStatus.cancelled q) Hi) as Hc
    end.
    unfold one_entry_per_user, seat_total, accepted_weight in *. simpl in *.
    rewrite users_set_status by done.
    split; [done|].
    repeat case_decide; try congruence; (split; [lia | intros; lia]).
Qed.

Lemma step_evolves s op : rides_evolve (rides s) (rides (step s op)).
Proof.
  unfold step.
  apply (wp_run (handle op) (λ _ s', rides_evolve (rides s) (rides s'))).
  eapply wp_mono.
  - destruct op; simpl.
    + apply createRide_evolves.
    + apply requestRide_evolves.
    + apply respondToRideRequest_evolves.
    + apply cancelRideRequest_evolves.
    + apply startRide_evolves.
    + apply completeRide_evolves.
    + apply cancelRide_evolves.
    + apply updateRideLocation_evolves.
  - by intros [r|r] s'.
Qed.

Lemma exec_evolves ops s : rides_evolve (rides s) (rides (exec ops s)).
Proof.
  revert s. induction ops as [|op ops IH]; intros s; simpl.
  - apply rides_evolve_refl.
  - eapply rides_evolve_trans; [apply step_evolves | apply IH].
Qed.

(** *** Seats without the proviso on the entries *)

Lemma seats_follow_intro r r' :
  seat_total r' = seat_total r →
  (∀ k, (k ≤ 1)%Z → (k ≤ Ride.availableSeats r)%Z → (k ≤ Ride.availableSeats r')%Z) →
  seats_follow r r'.
Proof. intros Ht Hb. by split. Qed.

Lemma seats_follow_refl r : seats_follow r r.
Proof. by split. Qed.

Lemma rides_seats_follow_refl l : rides_seats_follow l l.
Proof. intros rid r H. exists r. split; [done | apply seats_follow_refl]. Qed.

Lemma rides_seats_follow_trans l1 l2 l3 :
  rides_seats_follow l1 l2 → rides_seats_follow l2 l3 → rides_seats_follow l1 l3.
Proof.
  intros H12 H23 rid r1 H1.
  destruct (H12 rid r1 H1) as (r2 & H2 & Ht2 & Hb2).
  destruct (H23 rid r2 H2) as (r3 & H3 & Ht3 & Hb3).
  exists r3. split; [done|]. split; [congruence | auto].
Qed.

Lemma rides_seats_follow_insert l rid r r' :
  l !! rid = Some r → seats_follow r r' → rides_seats_follow l (<[rid := r']> l).
Proof.
  intros Hr Hk rid0 r0 H0.
  destruct (decide (rid = rid0)) as [->|Hne].
  - rewrite list_lookup_insert_eq by (by eapply lookup_lt_Some).
    exists r'. split; [done|]. by assert (r0 = r) as -> by congruence.
  - rewrite list_lookup_insert_ne by done.
    exists r0. split; [done | apply seats_follow_refl].
Qed.

Lemma rides_seats_follow_app l r : rides_seats_follow l (l ++ [r]).
Proof.
  intros rid r0 H0. exists r0. split; [|apply seats_follow_refl].
  by apply lookup_app_l_Some.
Qed.

(** Settles [seats_follow] by arithmetic on the seats and on what the
    entries count for. *)
Ltac follows :=
  apply seats_follow_intro;
  unfold seat_total, accepted_weight in *; simpl in *;
  repeat case_decide; try congruence; try lia; intros; lia.

Lemma requestRide_seats s caller rid pickup dropoff :
  wp (requestRide caller rid pickup dropoff)
    (λ _ s', rides_seats_follow (rides s) (rides s')) s.
Proof.
  hsteps.
  all: try (simpl; apply rides_seats_follow_refl).
  all: eapply rides_seats_follow_insert; [done|].
  all: apply seats_follow_intro; unfold seat_total; simpl; [|auto].
  all: rewrite accepted_app; simpl; lia.
Qed.

Lemma respondToRideRequest_seats s caller rid userId status :
  wp (respondToRideRequest caller rid userId status)
    (λ _ s', rides_seats_follow (rides s) (rides s')) s.
Proof.
  hsteps.
  all: try (simpl; apply rides_seats_follow_refl).
  all: eapply rides_seats_follow_insert; [done|].
  all: match goal with H : list_find _ _ = Some _ |- _ =>
         apply list_find_Some in H as (Hi & [Hu Hst%read_pending_not_accepted] & _) end.
  all: match goal with |- seats_follow _ (_ (Ride.set_passengers (<[_ := ?p']> _) _)) =>
         pose proof (accepted_insert _ _ _ p' Hi) as Hc
       | |- seats_follow _ (Ride.set_passengers (<[_ := ?p']> _) _) =>
         pose proof (accepted_insert _ _ _ p' Hi) as Hc end.
  all: unfold Ride_valid in *; simpl in *.
  all: try match goal with H : (_ <=? _)%Z = true |- _ => apply Z.leb_le in H end.
  all: unfold assigned_status, PassengerStatus.of_string in *;
    repeat case_match; repeat case_decide; simplify_eq.
  all: follows.
Qed.

Lemma cancelRideRequest_seats s caller rid :
  wp (cancelRideRequest caller rid)
    (λ _ s', rides_seats_follow (rides s) (rides s')) s.
Proof.
  hsteps.
  all: try (simpl; apply rides_seats_follow_refl).
  all: eapply rides_seats_follow_insert; [done|].
  all: match goal with H : list_find _ _ = Some _ |- _ =>
         apply list_find_Some in H as (Hi & Hu & _) end.
  all: pose proof (accepted_delete _ _ _ Hi) as Hc.
  all: follows.
Qed.

Lemma startRide_seats s caller rid now :
  wp (startRide caller rid now) (λ _ s', rides_seats_follow (rides s) (rides s')) s.
Proof.
  hsteps.
  all: try (simpl; apply rides_seats_follow_refl).
  loop_keeps_rides; hsteps; rewrite Hs'.
  all: eapply rides_seats_follow_insert; [done|]; follows.
Qed.

Lemma updateRideLocation_seats s caller rid coords now :
  wp (updateRideLocation caller rid coords now)
    (λ _ s', rides_seats_follow (rides s) (rides s')) s.
Proof.
  hsteps.
  all: try (simpl; apply rides_seats_follow_refl).
  simpl. eapply rides_seats_follow_insert; [done|]. follows.
Qed.

Lemma createRide_seats s caller body :
  wp (createRide caller body) (λ _ s', rides_seats_follow (rides s) (rides s')) s.
Proof.
  hsteps.
  all: try (simpl; apply rides_seats_follow_refl).
  simpl. apply rides_seats_follow_app.
Qed.

Lemma completeRide_seats s caller rid now :
  wp (completeRide caller rid now) (λ _ s', rides_seats_follow (rides s) (rides s')) s.
Proof.
  hsteps.
  all: try (simpl; apply rides_seats_follow_refl).
  all: try (simpl; eapply rides_seats_follow_insert; [done|]; follows).
  loop_keeps_rides; hsteps; rewrite Hs'; simpl.
  all: eapply rides_seats_follow_insert; [done|]; follows.
Qed.

(** The passenger's branch never reaches the save of the ride: its
    notification is of a type that the schema does not list. *)
Lemma cancelRide_seats s caller rid reason now :
  wp (cancelRide caller rid reason now)
    (λ _ s', rides_seats_follow (rides s) (rides s')) s.
Proof.
  hsteps.
  all: try (simpl; apply rides_seats_follow_refl).
  all: try match goal with
           | H : bool_decide (_ ∈ notification_type_enum) = true |- _ =>
               by vm_compute in H
           end.
  loop_keeps_rides; hsteps; simpl; rewrite ?Hs'.
  all: try apply rides_seats_follow_refl.
  eapply rides_seats_follow_insert; [done|]. follows.
Qed.

Lemma step_seats s op : rides_seats_follow (rides s) (rides (step s op)).
Proof.
  unfold step.
  apply (wp_run (handle op) (λ _ s', rides_seats_follow (rides s) (rides s'))).
  eapply wp_mono.
  - destruct op; simpl.
    + apply createRide_seats.
    + apply requestRide_seats.
    + apply respondToRideRequest_seats.
    + apply cancelRideRequest_seats.
    + apply startRide_seats.
    + apply completeRide_seats.
    + apply cancelRide_seats.
    + apply updateRideLocation_seats.
  - by intros [r|r] s'.
Qed.

Lemma exec_seats ops s : rides_seats_follow (rides s) (rides (exec ops s)).
Proof.
  revert s. induction ops as [|op ops IH]; intros s; simpl.
  - apply rides_seats_follow_refl.
  - eapply rides_seats_follow_trans; [apply step_seats | apply IH].
Qed.

(** What the enum of the passenger status lets through as accepted. *)
Lemma cast_status_accepted (o : option string) st :
  cast_enum PassengerStatus.of_string PassengerStatus.pending "passengers.status" o = inr st →
  st = PassengerStatus.accepted ↔ o = Some "accepted".
Proof.
  unfold cast_enum, PassengerStatus.of_string.
  destruct o as [x|]; [|by intros [= <-]].
  repeat case_decide; intros [= <-]; subst; split; try done; intros [=]; done.
Qed.

Lemma Passengers_new_accepted es ps :
  Passengers_new es = inr ps →
  length (with_status PassengerStatus.accepted ps) = sent_accepted es.
Proof.
  unfold sent_accepted, with_status.
  revert ps. induction es as [|e es IH]; intros ps; simpl.
  - by intros [= <-].
  - unfold Passenger_new.
    destruct (cast_enum _ _ "passengers.status" _) as [?|st] eqn:Est; [done|].
    destruct (cast_enum _ _ "passengers.fare.status" _) as [?|fst] eqn:Ef; [done|].
    destruct (Passengers_new es) as [?|ps'] eqn:E; [done|].
    intros [= <-]. rewrite !filter_cons. simpl.
    pose proof (cast_status_accepted _ _ Est) as Hacc.
    specialize (IH _ eq_refl).
    repeat case_decide; simpl; try (by rewrite IH); exfalso; tauto.
Qed.

Lemma createRide_created s caller body :
  (run (createRide caller body) s).1 = Json 201 true "" →
  ∃ r, rides (run (createRide caller body) s).2 = rides s ++ [r] ∧
       Ride.availableSeats r = body_availableSeats body ∧
       length (with_status PassengerStatus.accepted (Ride.passengers r)) =
         sent_accepted (body_passengers body) ∧
       (1 ≤ Ride.availableSeats r)%Z.
Proof.
  unfold createRide. hcompute.
  destruct (users s !! caller) as [u|]; simpl; [|done].
  unfold Ride_new.
  destruct (body_estimatedArrivalTime body); simpl; [|done].
  destruct (Passengers_new (body_passengers body)) as [?|ps] eqn:Eps; simpl; [done|].
  destruct (cast_enum RideStatus.of_string _ _ _) as [?|st]; simpl; [done|].
  destruct (1 <=? body_availableSeats body)%Z eqn:E; simpl; [|done].
  intros _. eexists. split; [done|]. simpl. split_and!; try done.
  - by apply Passengers_new_accepted.
  - by apply Z.leb_le.
Qed.

(** C1, the claim as stated fails at creation: the body of the request
    is stored as it is sent, so a ride created with 3 seats and two
    entries that the payload marks as accepted has 3 free seats and 2
    accepted entries, 5 in total, before any other operation. *)
Lemma seat_claim_counterexample :
  let body := sample_body 3 [sample_entry 1 (Some "accepted");
                             sample_entry 2 (Some "accepted")] None in
  let out := run (createRide 0 body) (mkStore sample_users [] [] []) in
  out.1 = Json 201 true "" ∧
  body_availableSeats body = 3%Z ∧
  ∃ r,
    rides (exec [] out.2) !! 0 = Some r ∧
    (Ride.availableSeats r +
     Z.of_nat (length (with_status PassengerStatus.accepted (Ride.passengers r))))%Z = 5%Z.
Proof.
  split; [reflexivity|]. split; [reflexivity|].
  eexists. split; reflexivity.
Qed.

(** C1, amended.  A ride created from a payload keeps, after every
    sequence of ride operations (create, request to join, respond to a
    request, cancel own request, start, complete, cancel, update
    location, each of them completed or refused), a non-negative
    [availableSeats], and [availableSeats] plus the number of passenger
    entries with status [accepted] stays equal to the seat count
    supplied at creation plus the number of entries that the creation
    payload itself supplied as accepted; for a payload without
    passenger entries this is the seat count supplied. *)
Theorem seat_invariant s caller body ops :
  (run (createRide caller body) s).1 = Json 201 true "" →
  ∃ r,
    rides (exec ops (run (createRide caller body) s).2) !! length (rides s) = Some r ∧
    (0 ≤ Ride.availableSeats r)%Z ∧
    (Ride.availableSeats r +
     Z.of_nat (length (with_status PassengerStatus.accepted (Ride.passengers r))))%Z =
      (body_availableSeats body + Z.of_nat (sent_accepted (body_passengers body)))%Z ∧
    (body_passengers body = [] →
     (Ride.availableSeats r +
      Z.of_nat (length (with_status PassengerStatus.accepted (Ride.passengers r))))%Z =
       body_availableSeats body).
Proof.
  intros Hcreated.
  destruct (createRide_created _ _ _ Hcreated) as (r0 & Hrides & Hseats & Hps & Hpos).
  destruct (exec_seats ops (run (createRide caller body) s).2 (length (rides s)) r0)
    as (r & Hr & Htotal & Hbound).
  { rewrite Hrides. by apply list_lookup_middle. }
  exists r. split; [done|]. split; [apply Hbound; lia|].
  rewrite Htotal, Hps, Hseats. split; [done|].
  intros ->. unfold sent_accepted. simpl. lia.
Qed.

(** ** Respond to a request *)

Lemma pending_request_found (ps : list Passenger.t) userId :
  (∃ p, p ∈ ps ∧ Passenger.user p = userId ∧
        Passenger.status p = PassengerStatus.pending) →
  ∃ i p, list_find (λ p, Passenger.user p = userId ∧
                         PassengerStatus.read (Passenger.status p) = PassengerStatus.pending)
           ps = Some (i, p).
Proof.
  intros (p & Hin & Hu & Hst).
  destruct (list_find _ ps) as [[i q]|] eqn:E; [by eauto|].
  apply list_find_None in E. rewrite Forall_forall in E.
  destruct (E p Hin). by rewrite Hst.
Qed.





Lemma seat_invariant_witness :
  let body := sample_body 3 [sample_entry 3 (Some "accepted")] None in
  let s1 := (run (createRide 0 body) (mkStore sample_users [] [] [])).2 in
  let ops := [RequestRide 1 0 sample_place sample_place;
              RequestRide 2 0 sample_place sample_place;
              RespondToRideRequest 0 0 1 (Some "accepted");
              RespondToRideRequest 0 0 2 (Some "accepted");
              StartRide 0 0 10;
              CancelRideRequest 1 0;
              CompleteRide 0 0 20] in
  (run (createRide 0 body) (mkStore sample_users [] [] [])).1 = Json 201 true "" ∧
  ∃ r,
    rides (exec ops s1) !! 0 = Some r ∧
    (0 ≤ Ride.availableSeats r)%Z ∧
    (Ride.availableSeats r +
     Z.of_nat (length (with_status PassengerStatus.accepted (Ride.passengers r))))%Z = 4%Z.
Proof.
  intros body s1 ops.
  split; [reflexivity|].
  destruct (seat_invariant (mkStore sample_users [] [] []) 0 body ops eq_refl)
    as (r & Hr & Hpos & Htotal & _).
  exists r. split; [exact Hr | split; [exact Hpos | exact Htotal]].
Defined.

(** ** Wallet withdrawal *)

Lemma withdrawFunds_insufficient s caller amount user :
  users s !! caller = Some user →
  (Wallet.balance (User.wallet user) < amount)%Q →
  run (withdrawFunds caller amount) s = (Json 400 false "Insufficient balance", s).
Proof.
  intros Hu Hlt. unfold withdrawFunds. hcompute. rewrite Hu. simpl.
  destruct (Qlt_le_dec _ _) as [_|Hle]; [done|].
  exfalso. by apply (Qlt_not_le _ _ Hlt).
Qed.

(** With enough balance the handler goes on to record the withdrawal
    with [paymentMethod: 'bank_transfer'], which the transaction schema
    does not list: [Transaction.create] throws, no transaction is
    recorded and the balance is not touched. *)
Lemma withdrawFunds_sufficient s caller amount user :
  users s !! caller = Some user →
  (amount <= Wallet.balance (User.wallet user))%Q →
  run (withdrawFunds caller amount) s = (Next (ValidationError "paymentMethod"), s).
Proof.
  intros Hu Hle. unfold withdrawFunds. hcompute. rewrite Hu. simpl.
  destruct (Qlt_le_dec _ _) as [Hlt|_]; [|done].
  exfalso. by apply (Qlt_not_le _ _ Hlt).
Qed.

(** C7, at the failing input: a user holding 100 asks to withdraw 40. *)
Example withdrawFunds_within_balance :
  run (withdrawFunds 1 40) ledger_store = (Next (ValidationError "paymentMethod"), ledger_store).
Proof. by apply (withdrawFunds_sufficient _ _ _ (user_with_balance 100)). Qed.

(** ** Completion of a ride payment *)

Lemma completeRidePayment_not_pending s caller rideId txid tx :
  transactions s !! txid = Some tx →
  Transaction.sender tx = caller →
  Transaction.status tx ≠ TxStatus.pending →
  run (completeRidePayment caller rideId txid) s =
    (Json 400 false ("Transaction is already " +:+
                     TxStatus.to_string (Transaction.status tx)), s).
Proof.
  intros Htx Hs Hst. unfold completeRidePayment. hcompute. rewrite Htx. simpl.
  rewrite bool_decide_eq_false_2 by (by intros ?). simpl.
  rewrite bool_decide_eq_true_2 by done. done.
Qed.

Lemma completeRidePayment_pending s caller rideId txid tx ride driver :
  transactions s !! txid = Some tx →
  Transaction.sender tx = caller →
  Transaction.status tx = TxStatus.pending →
  Transaction.paymentMethod tx ∈ paymentMethod_enum →
  rides s !! rideId = Some ride →
  Ride_valid ride = true →
  users s !! Ride.driver ride = Some driver →
  run (completeRidePayment caller rideId txid) s =
    (Json 200 true "", payment_completed caller rideId txid tx ride driver s).
Proof.
  intros Htx Hs Hst Hpm Hr Hv Hd. unfold completeRidePayment. hcompute. rewrite Htx. simpl.
  rewrite bool_decide_eq_false_2 by (by intros ?). simpl.
  rewrite bool_decide_eq_false_2 by (by intros ?). simpl.
  rewrite bool_decide_eq_true_2 by done. simpl.
  rewrite Hr. simpl. unfold payment_completed.
  destruct (list_find _ _) as [[i p]|]; simpl.
  - unfold Ride_valid in Hv. simpl. rewrite Hv. simpl. rewrite Hd. done.
  - rewrite Hd. done.
Qed.

(** When the ride identifier does not resolve, the transaction has
    already been saved as completed when the handler answers 404. *)
Lemma completeRidePayment_ride_missing s caller rideId txid tx :
  transactions s !! txid = Some tx →
  Transaction.sender tx = caller →
  Transaction.status tx = TxStatus.pending →
  Transaction.paymentMethod tx ∈ paymentMethod_enum →
  rides s !! rideId = None →
  run (completeRidePayment caller rideId txid) s =
    (Json 404 false "Ride not found",
     set_transactions <[txid := Transaction.set_status TxStatus.completed tx]> s).
Proof.
  intros Htx Hs Hst Hpm Hr. unfold completeRidePayment. hcompute. rewrite Htx. simpl.
  rewrite bool_decide_eq_false_2 by (by intros ?). simpl.
  rewrite bool_decide_eq_false_2 by (by intros ?). simpl.
  rewrite bool_decide_eq_true_2 by done. simpl.
  rewrite Hr. done.
Qed.

(** Where the ride named in the request resolves: completing a pending
    transaction named by its sender answers 200, saves the transaction
    as [completed] and adds its amount to the wallet balance of the
    driver of the ride that the request names; on a transaction that is
    not pending the handler answers 400 and writes nothing, so that a
    second completion of the same transaction, for whatever ride, is
    refused and leaves the store of the first one. *)
Theorem completeRidePayment_credits_once s caller rideId rideId' txid tx :
  transactions s !! txid = Some tx →
  Transaction.sender tx = caller →
  (Transaction.status tx ≠ TxStatus.pending →
   run (completeRidePayment caller rideId txid) s =
     (Json 400 false ("Transaction is already " +:+
                      TxStatus.to_string (Transaction.status tx)), s)) ∧
  (∀ ride driver,
     Transaction.status tx = TxStatus.pending →
     Transaction.paymentMethod tx ∈ paymentMethod_enum →
     rides s !! rideId = Some ride →
     Ride_valid ride = true →
     users s !! Ride.driver ride = Some driver →
     let out1 := run (completeRidePayment caller rideId txid) s in
     out1.1 = Json 200 true "" ∧
     transactions out1.2 !! txid = Some (Transaction.set_status TxStatus.completed tx) ∧
     (∃ driver',
        users out1.2 !! Ride.driver ride = Some driver' ∧
        Wallet.balance (User.wallet driver') =
          (Wallet.balance (User.wallet driver) + Transaction.amount tx)%Q) ∧
     (∀ uid, uid ≠ Ride.driver ride → users out1.2 !! uid = users s !! uid) ∧
     let out2 := run (completeRidePayment caller rideId' txid) out1.2 in
     out2.1 = Json 400 false "Transaction is already completed" ∧
     out2.2 = out1.2).
Proof.
  intros Htx Hs. split.
  - intros Hst. by apply completeRidePayment_not_pending.
  - intros ride driver Hst Hpm Hr Hv Hd out1. subst out1.
    rewrite (completeRidePayment_pending s caller rideId txid tx ride driver) by done.
    assert (transactions (payment_completed caller rideId txid tx ride driver s) !! txid =
            Some (Transaction.set_status TxStatus.completed tx)) as Htx'.
    { simpl. apply list_lookup_insert_eq. by eapply lookup_lt_Some. }
    simpl. split_and!.
    + done.
    + exact Htx'.
    + eexists. split; [apply lookup_insert_eq | done].
    + intros uid Hne. by rewrite lookup_insert_ne.
    + by rewrite (completeRidePayment_not_pending _ _ _ _ _ Htx').
    + by rewrite (completeRidePayment_not_pending _ _ _ _ _ Htx').
Qed.

Lemma completeRidePayment_credits_once_witness :
  let out1 := run (completeRidePayment 1 0 0) ledger_store in
  out1.1 = Json 200 true "" ∧
  (∃ driver',
     users out1.2 !! 0 = Some driver' ∧
     Wallet.balance (User.wallet driver') = (0 + 50)%Q) ∧
  let out2 := run (completeRidePayment 1 0 0) out1.2 in
  out2.1 = Json 400 false "Transaction is already completed" ∧ out2.2 = out1.2.
Proof.
  pose proof (proj2 (completeRidePayment_credits_once ledger_store 1 0 0 0
                       pending_card_payment eq_refl eq_refl)
                (sample_ride 2 [sample_passenger 1 PassengerStatus.accepted]
                   RideStatus.completed)
                (user_with_balance 0) eq_refl) as H.
  destruct H as (H1 & _ & H3 & _ & H5).
  - unfold paymentMethod_enum. simpl. set_solver.
  - reflexivity.
  - reflexivity.
  - reflexivity.
  - split; [exact H1|]. split; [exact H3 | exact H5].
Defined.

(** C6, at the failing input: passenger 1 completes the pending card
    payment 0 under the identifier 7, which names no ride.  The handler
    answers 404 after it has saved the transaction as completed; no
    wallet was credited. *)
Example completeRidePayment_unknown_ride :
  let out := run (completeRidePayment 1 7 0) ledger_store in
  out.1 = Json 404 false "Ride not found" ∧
  Transaction.status <$> transactions ledger_store !! 0 = Some TxStatus.pending ∧
  Transaction.status <$> transactions out.2 !! 0 = Some TxStatus.completed ∧
  users out.2 = users ledger_store.
Proof.
  rewrite (completeRidePayment_ride_missing ledger_store 1 7 0 pending_card_payment);
    try done.
  unfold paymentMethod_enum. simpl. set_solver.
Qed.

(** C5, at the failing input: passenger 1 completes the pending card
    payment 0 of 50 first under the identifier 7, which names no ride
    (the request of C6), then under the identifier of the ride, 0.
    The first call answers 404 after it has saved the transaction as
    completed; the second finds the transaction completed and refuses.
    After two successive completion calls of the one transaction the
    driver has been credited not once but never. *)
Example completeRidePayment_never_credited :
  let out1 := run (completeRidePayment 1 7 0) ledger_store in
  let out2 := run (completeRidePayment 1 0 0) out1.2 in
  Transaction.status <$> transactions ledger_store !! 0 = Some TxStatus.pending ∧
  out1.1 = Json 404 false "Ride not found" ∧
  out2.1 = Json 400 false "Transaction is already completed" ∧
  Transaction.status <$> transactions out2.2 !! 0 = Some TxStatus.completed ∧
  users out2.2 = users ledger_store ∧
  Wallet.balance <$> (User.wallet <$> users out2.2 !! 0) = Some 0%Q.
Proof.
  assert (run (completeRidePayment 1 7 0) ledger_store =
            (Json 404 false "Ride not found",
             set_transactions
               <[0 := Transaction.set_status TxStatus.completed pending_card_payment]>
               ledger_store)) as ->.
  { apply completeRidePayment_ride_missing; try done. by apply (bool_decide_unpack _). }
  cbn [fst snd].
  erewrite completeRidePayment_not_pending; [|reflexivity|reflexivity|discriminate].
  by split_and!.
Qed.

(** ** Rating aggregation *)

Lemma fold_left_rating (l : list Review.t) (acc : Z) :
  fold_left (λ sum r, (sum + Review.rating r)%Z) l acc =
  (acc + foldr Z.add 0 (Review.rating <$> l))%Z.
Proof.
  revert acc. induction l as [|r l IH]; intros acc; csimpl.
  - lia.
  - rewrite IH. lia.
Qed.

Lemma totalRating_sum (l : list Review.t) :
  totalRating l = foldr Z.add 0%Z (Review.rating <$> l).
Proof. unfold totalRating. by rewrite fold_left_rating. Qed.

(** The recomputed summary is the mean and the number of the reviews of
    the role. *)
Lemma recompute_rating_mean role (reviews : list Review.t) :
  let rated := filter (λ r, Review.role r = role) reviews in
  Rating.average (recompute_rating role reviews) = mean (Review.rating <$> rated) ∧
  Rating.count (recompute_rating role reviews) = length rated.
Proof.
  simpl. unfold mean. by rewrite totalRating_sum, length_fmap.
Qed.

Lemma submitRating_run s caller userId rideId role rating comment now user :
  users s !! userId = Some user →
  let reviews' := User.reviews user ++ [Review.mk caller role rating comment now] in
  let user1 := User.set_reviews reviews' user in
  run (submitRating caller userId rideId role rating comment now) s =
    (Json 201 true "",
     set_notifications
       (λ l, l ++ [Notification.mk userId caller "rating_received" (Some rideId) None])
       (set_users
          <[userId :=
              match role with
              | Role.driver =>
                  User.set_asDriver (recompute_rating Role.driver reviews') user1
              | Role.passenger =>
                  User.set_asPassenger (recompute_rating Role.passenger reviews') user1
              end]> s)).
Proof.
  intros Hu. unfold submitRating. hcompute. rewrite Hu. simpl.
  by destruct role.
Qed.

(** C9. Submitting a review appends it to the rated user's reviews and
    then sets the summary of the reviewed role to the arithmetic mean
    and the number of all reviews of that role in the whole list; the
    summary of the other role is not touched.  In particular ratings 4
    then 2 for a user without earlier reviews of the role give average
    3 and count 2. *)
Theorem submitRating_recomputes s caller userId rideId role rating comment now user :
  users s !! userId = Some user →
  let out := run (submitRating caller userId rideId role rating comment now) s in
  out.1 = Json 201 true "" ∧
  (∃ user',
     users out.2 !! userId = Some user' ∧
     User.reviews user' = User.reviews user ++ [Review.mk caller role rating comment now] ∧
     let rated := filter (λ r, Review.role r = role) (User.reviews user') in
     Rating.average (rating_for role user') = mean (Review.rating <$> rated) ∧
     Rating.count (rating_for role user') = length rated ∧
     ∀ other, other ≠ role → rating_for other user' = rating_for other user) ∧
  (filter (λ r, Review.role r = role) (User.reviews user) = [] →
   ∀ caller2 rideId2 comment2 now2,
     let s1 := (run (submitRating caller userId rideId role 4 comment now) s).2 in
     let s2 := (run (submitRating caller2 userId rideId2 role 2 comment2 now2) s1).2 in
     ∃ user2,
       users s2 !! userId = Some user2 ∧
       (Rating.average (rating_for role user2) == 3)%Q ∧
       Rating.count (rating_for role user2) = 2).
Proof.
  intros Hu out. subst out. split_and!.
  - by rewrite (submitRating_run _ _ _ _ _ _ _ _ _ Hu).
  - rewrite (submitRating_run _ _ _ _ _ _ _ _ _ Hu). simpl.
    eexists. split; [apply lookup_insert_eq|].
    destruct role; simpl; (split; [done|]); split_and!;
      try apply recompute_rating_mean; by intros [].
  - intros Hnone caller2 rideId2 comment2 now2.
    rewrite (submitRating_run _ _ _ _ _ _ _ _ _ Hu). simpl.
    erewrite submitRating_run; [|apply lookup_insert_eq].
    simpl. eexists. split; [apply lookup_insert_eq|].
    destruct role; simpl; unfold recompute_rating.
    all: rewrite !filter_app, Hnone, !filter_cons; simpl.
    all: split; [by vm_compute | done].
Qed.

Lemma submitRating_recomputes_witness :
  users (sample_store (sample_ride 2 [] RideStatus.completed)) !! 0 = Some User.fresh ∧
  let s1 := (run (submitRating 1 0 0 Role.driver 4 None 10)
               (sample_store (sample_ride 2 [] RideStatus.completed))).2 in
  let s2 := (run (submitRating 2 0 0 Role.driver 2 None 20) s1).2 in
  ∃ user2,
    users s2 !! 0 = Some user2 ∧
    (Rating.average (User.asDriver user2) == 3)%Q ∧
    Rating.count (User.asDriver user2) = 2.
Proof.
  split; [reflexivity|].
  exact (proj2 (proj2 (submitRating_recomputes
                         (sample_store (sample_ride 2 [] RideStatus.completed))
                         1 0 0 Role.driver 4 None 10 User.fresh eq_refl))
           eq_refl 2 0 None 20%Z).
Defined.

(** ** Impact settlement at completion *)


Lemma or_default_nonzero (x d : Q) : ¬ (x == 0)%Q → or_default (Some x) d = x.
Proof.
  intros Hx. unfold or_default.
  destruct (Qeq_bool x 0) eqn:E; [|done].
  apply Qeq_bool_iff in E. done.
Qed.







(** ** The wallet ledger *)

#[local] Set Warnings "-clear-no-such-hyp".

Lemma sum_amounts_app P l x :
  (sum_amounts P (l ++ [x]) == sum_amounts P l + counted P x)%Q.
Proof.
  induction l as [|y l IH]; simpl.
  - unfold counted. ring.
  - rewrite IH. ring.
Qed.

Lemma sum_amounts_insert P l i x x' :
  l !! i = Some x →
  (sum_amounts P (<[i := x']> l) + counted P x == sum_amounts P l + counted P x')%Q.
Proof.
  revert i. induction l as [|y l IH]; intros [|i] Hi; simplify_eq/=.
  - unfold counted. ring.
  - specialize (IH i Hi). lra.
Qed.

Lemma wallet_net_app uid l x :
  (wallet_net uid (l ++ [x]) ==
   wallet_net uid l + counted (wallet_credit uid) x - counted (wallet_debit uid) x)%Q.
Proof. unfold wallet_net. rewrite !sum_amounts_app. ring. Qed.

Lemma wallet_net_insert uid l i x x' :
  l !! i = Some x →
  (wallet_net uid (<[i := x']> l) ==
   wallet_net uid l
   + (counted (wallet_credit uid) x' - counted (wallet_credit uid) x)
   - (counted (wallet_debit uid) x' - counted (wallet_debit uid) x))%Q.
Proof.
  intros Hi. unfold wallet_net.
  pose proof (sum_amounts_insert (wallet_credit uid) l i x x' Hi).
  pose proof (sum_amounts_insert (wallet_debit uid) l i x x' Hi).
  lra.
Qed.

(** A pending transaction counts for nothing. *)
Lemma counted_pending_credit uid x :
  Transaction.status x = TxStatus.pending → counted (wallet_credit uid) x = 0%Q.
Proof.
  intros H. unfold counted, wallet_credit.
  rewrite bool_decide_eq_false_2; [done|]. intros [? _]. congruence.
Qed.

Lemma counted_pending_debit uid x :
  Transaction.status x = TxStatus.pending → counted (wallet_debit uid) x = 0%Q.
Proof.
  intros H. unfold counted, wallet_debit.
  rewrite bool_decide_eq_false_2; [done|]. intros [? _]. congruence.
Qed.

Ltac count_tx :=
  unfold counted, wallet_credit, wallet_debit; simpl;
  repeat case_bool_decide;
  first [ lra | exfalso; intuition congruence | exfalso; naive_solver ].

(** Closes an invariant goal on an explicit final store: splits on
    which wallet is looked up, brings in the invariant of the initial
    store, and counts the transaction that was added or changed. *)
Ltac ledger_done Hinv :=
  let uid := fresh "uid" in
  let u := fresh "u" in
  let Hlook := fresh "Hlook" in
  intros uid u Hlook; simpl in *;
  repeat match goal with
    | H : context [<[_ := _]> _ !! _] |- _ => rewrite lookup_insert in H
    end;
  repeat case_decide; simplify_eq/=;
  repeat match goal with
    | H : users _ !! _ = Some _ |- _ => pose proof (Hinv _ _ H); revert H
    end;
  intros; rewrite ?wallet_net_app;
  erewrite ?wallet_net_insert by eassumption;
  try count_tx.

Lemma addFundsToWallet_ledger s caller amount paymentMethod :
  balances_match_wallet s →
  wp (addFundsToWallet caller (Num amount) paymentMethod)
    (λ _ s', balances_match_wallet s') s.
Proof.
  intros Hinv. unfold addFundsToWallet, User_credit. simpl. hsteps; try done.
  all: ledger_done Hinv.
Qed.

Lemma initiateRidePayment_ledger s caller rideId amount paymentMethod :
  balances_match_wallet s →
  sent_as_number (InitiateRidePayment caller rideId amount paymentMethod) →
  wp (initiateRidePayment caller rideId amount paymentMethod)
    (λ _ s', balances_match_wallet s') s.
Proof.
  intros Hinv Hnum. simpl in Hnum.
  destruct (decide (paymentMethod = "wallet")) as [->|Hne].
  - destruct (Hnum eq_refl) as [q ->].
    unfold initiateRidePayment, User_credit. simpl. hsteps; try done.
    all: ledger_done Hinv.
  - clear Hnum. unfold initiateRidePayment, User_credit. hsteps; try done.
    all: ledger_done Hinv.
Qed.

Lemma completeRidePayment_ledger s caller rideId txid :
  balances_match_wallet s →
  completion_matches_ride s (CompleteRidePayment caller rideId txid) →
  wp (completeRidePayment caller rideId txid)
    (λ _ s', balances_match_wallet s') s.
Proof.
  intros Hinv Hmatch. simpl in Hmatch. hsteps; try done.
  all: pose proof (Hmatch _ eq_refl) as Hm; clear Hmatch.
  all: hfacts.
  all: destruct Hm as (Hty & Hpm & ride & Hr & Hd & Hv); [done..|].
  all: unfold Ride_valid in *; simplify_eq/=.
  all: ledger_done Hinv.
Qed.

(** C3, the claim as stated fails at the first top-up: the transaction
    that records it has the user as sender and as receiver, so it adds
    the same amount to both sums while the balance has grown. *)
Lemma ledger_claim_counterexample :
  balances_match_ledger fresh_ledger ∧
  (run (addFundsToWallet 1 (Num 500) "card") fresh_ledger).1 = Json 200 true "" ∧
  ¬ balances_match_ledger (run (addFundsToWallet 1 (Num 500) "card") fresh_ledger).2.
Proof.
  split_and!.
  - intros uid u Hu. unfold fresh_ledger in Hu. simpl in Hu.
    apply lookup_singleton_Some in Hu as [_ <-]. by vm_compute.
  - reflexivity.
  - intros H.
    specialize (H 1 (wallet_apply 500 0 User.fresh) eq_refl).
    vm_compute in H. discriminate H.
Qed.

Lemma ledger_store_matches : balances_match_wallet ledger_store.
Proof.
  intros uid u Hu. unfold ledger_store in Hu. simpl in Hu.
  apply lookup_insert_Some in Hu as [[<- <-]|[_ Hu]]; [by vm_compute|].
  apply lookup_insert_Some in Hu as [[<- <-]|[_ Hu]]; [by vm_compute|].
  by rewrite lookup_empty in Hu.
Qed.

(** A top-up whose amount is sent as the string ["500"] passes the
    route's rule.  The recorded transaction carries the number 500,
    but [balance += amount] concatenates: the user's balance of 100
    becomes 100500, and the wallet no longer matches the ledger. *)
Example addFundsToWallet_text_amount :
  let out := run (addFundsToWallet 1 (Str "500") "card") ledger_store in
  out.1 = Json 200 true "" ∧
  (∃ x, transactions out.2 !! 2 = Some x ∧ (Transaction.amount x == 500)%Q) ∧
  (∃ u, users ledger_store !! 1 = Some u ∧ (Wallet.balance (User.wallet u) == 100)%Q) ∧
  (∃ u, users out.2 !! 1 = Some u ∧ (Wallet.balance (User.wallet u) == 100500)%Q) ∧
  ¬ balances_match_wallet out.2.
Proof.
  split_and!.
  - reflexivity.
  - eexists. split; [reflexivity | by vm_compute].
  - eexists. split; [reflexivity | by vm_compute].
  - eexists. split; [reflexivity | by vm_compute].
  - intros H.
    match type of H with
    | balances_match_wallet ?s' =>
        destruct (users s' !! 1) as [u|] eqn:Hu; [|by vm_compute in Hu]
    end.
    specialize (H 1 u Hu).
    vm_compute in Hu. injection Hu as <-.
    vm_compute in H. discriminate H.
Qed.

Lemma step_ledger_preserved s op :
  balances_match_wallet s →
  sent_as_number op →
  completion_matches_ride s op →
  balances_match_wallet (step_ledger s op).
Proof.
  intros Hinv Hnum Hmatch. unfold step_ledger.
  apply (wp_run (handle_ledger op) (λ _ s', balances_match_wallet s')).
  eapply wp_mono.
  - destruct op; simpl.
    + destruct Hnum as [q ->]. by apply addFundsToWallet_ledger.
    + by apply initiateRidePayment_ledger.
    + by apply completeRidePayment_ledger.
  - by intros [r|r] s'.
Qed.

(** C3, amended.  Every wallet balance equals the completed top-ups and
    ride payments received minus the completed wallet-paid ride payments
    sent: once this holds, it holds after every sequence of top-ups and
    wallet payments whose amount is sent as a JSON number, ride payments
    by another method, and completions that settle what they name,
    whether a handler answers 200 or fails on the way. *)
Theorem wallet_ledger_preserved s ops :
  balances_match_wallet s →
  Forall sent_as_number ops →
  completions_match_rides s ops →
  balances_match_wallet (exec_ledger ops s).
Proof.
  intros Hinv Hnum. revert s Hinv.
  induction Hnum as [|op ops Hop _ IH]; intros s Hinv Hmatch; simpl; [done|].
  destruct Hmatch as [Hm Hms].
  apply IH; [|done]. by apply step_ledger_preserved.
Qed.

Lemma wallet_ledger_preserved_witness :
  balances_match_wallet ledger_store ∧
  Forall sent_as_number
    [AddFundsToWallet 0 (Num 25) "upi"; InitiateRidePayment 1 0 (Str "30") "card";
     CompleteRidePayment 1 0 0] ∧
  completions_match_rides ledger_store
    [AddFundsToWallet 0 (Num 25) "upi"; InitiateRidePayment 1 0 (Str "30") "card";
     CompleteRidePayment 1 0 0] ∧
  balances_match_wallet
    (exec_ledger [AddFundsToWallet 0 (Num 25) "upi";
                  InitiateRidePayment 1 0 (Str "30") "card";
                  CompleteRidePayment 1 0 0] ledger_store).
Proof.
  assert (Forall sent_as_number
            [AddFundsToWallet 0 (Num 25) "upi"; InitiateRidePayment 1 0 (Str "30") "card";
             CompleteRidePayment 1 0 0]) as Hnum.
  { repeat constructor; simpl; [by eexists | discriminate]. }
  assert (completions_match_rides ledger_store
            [AddFundsToWallet 0 (Num 25) "upi"; InitiateRidePayment 1 0 (Str "30") "card";
             CompleteRidePayment 1 0 0]) as Hmatch.
  { split; [exact I|]. split; [exact I|]. split; [|exact I].
    intros tx Htx _ _. vm_compute in Htx. injection Htx as <-.
    split; [reflexivity|]. split; [discriminate|].
    eexists. split; [reflexivity|]. split; reflexivity. }
  split; [exact ledger_store_matches|]. split; [exact Hnum|]. split; [exact Hmatch|].
  exact (wallet_ledger_preserved ledger_store _ ledger_store_matches Hnum Hmatch).
Defined.

(** * Further properties *)

(** ** Guards of the ride handlers *)

(** X1. An operation on an identifier that names no ride is answered
    404 and writes nothing. *)
Theorem unknown_ride_refused s op rid :
  op_ride op = Some rid →
  rides s !! rid = None →
  run (handle op) s = (Json 404 false "Ride not found", s).
Proof.
  intros Hop Hr.
  destruct op; simplify_eq/=.
  - unfold requestRide. hcompute. by rewrite Hr.
  - unfold respondToRideRequest. hcompute. by rewrite Hr.
  - unfold cancelRideRequest. hcompute. by rewrite Hr.
  - unfold startRide. hcompute. by rewrite Hr.
  - unfold completeRide. hcompute. by rewrite Hr.
  - unfold cancelRide. hcompute. by rewrite Hr.
  - unfold updateRideLocation. hcompute. by rewrite Hr.
Qed.

Lemma unknown_ride_refused_witness :
  run (handle (StartRide 0 5 10)) (sample_store (sample_ride 2 [] RideStatus.scheduled)) =
    (Json 404 false "Ride not found", sample_store (sample_ride 2 [] RideStatus.scheduled)).
Proof.
  exact (unknown_ride_refused (sample_store (sample_ride 2 [] RideStatus.scheduled))
           (StartRide 0 5 10) 5 eq_refl eq_refl).
Defined.

Lemma respondToRideRequest_not_driver s caller rid userId status ride :
  rides s !! rid = Some ride →
  Ride.driver ride ≠ caller →
  run (respondToRideRequest caller rid userId status) s =
    (Json 401 false "Not authorized to update this ride", s).
Proof.
  intros Hr Hd. unfold respondToRideRequest. hcompute. rewrite Hr. simpl.
  by rewrite bool_decide_eq_true_2.
Qed.

Lemma startRide_not_driver s caller rid now ride :
  rides s !! rid = Some ride →
  Ride.driver ride ≠ caller →
  run (startRide caller rid now) s =
    (Json 401 false "Not authorized to start this ride", s).
Proof.
  intros Hr Hd. unfold startRide. hcompute. rewrite Hr. simpl.
  by rewrite bool_decide_eq_true_2.
Qed.

Lemma completeRide_not_driver s caller rid now ride :
  rides s !! rid = Some ride →
  Ride.driver ride ≠ caller →
  run (completeRide caller rid now) s =
    (Json 401 false "Not authorized to complete this ride", s).
Proof.
  intros Hr Hd. unfold completeRide. hcompute. rewrite Hr. simpl.
  by rewrite bool_decide_eq_true_2.
Qed.

Lemma updateRideLocation_not_driver s caller rid coords now ride :
  rides s !! rid = Some ride →
  Ride.driver ride ≠ caller →
  run (updateRideLocation caller rid coords now) s =
    (Json 401 false "Not authorized to update this ride location", s).
Proof.
  intros Hr Hd. unfold updateRideLocation. hcompute. rewrite Hr. simpl.
  by rewrite bool_decide_eq_true_2.
Qed.

(** X2. Answering a request, starting, completing and reporting the
    location are the driver's: any other caller is answered 401 and
    nothing is written. *)
Theorem only_the_driver s caller rid ride :
  rides s !! rid = Some ride →
  Ride.driver ride ≠ caller →
  (∀ userId status,
     run (respondToRideRequest caller rid userId status) s =
       (Json 401 false "Not authorized to update this ride", s)) ∧
  (∀ now, run (startRide caller rid now) s =
            (Json 401 false "Not authorized to start this ride", s)) ∧
  (∀ now, run (completeRide caller rid now) s =
            (Json 401 false "Not authorized to complete this ride", s)) ∧
  (∀ coords now,
     run (updateRideLocation caller rid coords now) s =
       (Json 401 false "Not authorized to update this ride location", s)).
Proof.
  intros Hr Hd. split_and!; intros.
  - by eapply respondToRideRequest_not_driver.
  - by eapply startRide_not_driver.
  - by eapply completeRide_not_driver.
  - by eapply updateRideLocation_not_driver.
Qed.

Lemma only_the_driver_witness :
  run (startRide 1 0 10)
    (sample_store (sample_ride 2 [sample_passenger 1 PassengerStatus.accepted]
                     RideStatus.scheduled)) =
    (Json 401 false "Not authorized to start this ride",
     sample_store (sample_ride 2 [sample_passenger 1 PassengerStatus.accepted]
                     RideStatus.scheduled)).
Proof.
  refine (proj1 (proj2 (only_the_driver
    (sample_store (sample_ride 2 [sample_passenger 1 PassengerStatus.accepted]
                     RideStatus.scheduled)) 1 0 _ eq_refl _)) 10%Z).
  simpl. discriminate.
Defined.

(** ** Notification loops *)



(** Decides a membership in one of the schema's enums. *)
Ltac in_enum := by apply (bool_decide_unpack _).

(** Runs a handler whose tests are settled by the hypotheses: the goal
    is a statement on [run h s]; what is left is that statement on the
    outcome of the one branch that the hypotheses allow (and the loops,
    if there are any). *)
Ltac hrun :=
  lazymatch goal with
  | |- context [run ?h ?s] => pattern (run h s); apply wp_run_pair
  end;
  hsteps; hfacts;
  unfold Ride_valid in *; simpl in *; try congruence;
  try match goal with
      | H : ¬ (_ ∈ notification_type_enum) |- _ => exfalso; apply H; in_enum
      | H : ¬ (_ ∈ paymentMethod_enum) |- _ => exfalso; apply H; in_enum
      end.

(** ** Start, location updates, completion *)







Lemma completeRide_not_in_progress s caller rid now ride :
  rides s !! rid = Some ride →
  Ride.driver ride = caller →
  Ride.status ride ≠ RideStatus.in_progress →
  run (completeRide caller rid now) s =
    (Json 400 false ("Ride must be in progress to complete, current status: " +:+
                     RideStatus.to_string (Ride.status ride)), s).
Proof. intros Hr Hd Hst. by hrun. Qed.




Lemma completeRide_rides s caller rid now ride :
  rides s !! rid = Some ride →
  Ride.driver ride = caller →
  Ride.status ride = RideStatus.in_progress →
  Ride_valid ride = true →
  rides (run (completeRide caller rid now) s).2 = <[rid := completed now ride]> (rides s).
Proof.
  intros Hr Hd Hst Hv. hrun.
  loop_keeps_rides; hsteps; by rewrite Hs'.
Qed.

(** X6. A ride is completed once.  The driver's completion of a valid
    ride in progress records the status [completed] and the end of the
    trip as current location, with seats and entries as they were,
    whatever happens to the rest of the request; from then on every
    completion, by any caller, is refused (400, or 401 for another
    caller) and writes nothing, so no impact is credited twice. *)
Theorem completeRide_once s caller rid now ride :
  rides s !! rid = Some ride →
  Ride.driver ride = caller →
  Ride.status ride = RideStatus.in_progress →
  Ride_valid ride = true →
  let s1 := (run (completeRide caller rid now) s).2 in
  rides s1 = <[rid := completed now ride]> (rides s) ∧
  ∀ caller' now',
    (run (completeRide caller' rid now') s1).2 = s1 ∧
    (status_code (run (completeRide caller' rid now') s1).1 = 400 ∨
     status_code (run (completeRide caller' rid now') s1).1 = 401).
Proof.
  intros Hr Hd Hst Hv s1.
  pose proof (completeRide_rides _ _ _ now _ Hr Hd Hst Hv) as Hrides.
  fold s1 in Hrides. split; [done|]. intros caller' now'.
  assert (rides s1 !! rid = Some (completed now ride)) as Hr1.
  { rewrite Hrides. apply list_lookup_insert_eq. by eapply lookup_lt_Some. }
  destruct (decide (caller = caller')) as [<-|Hne].
  - rewrite (completeRide_not_in_progress _ _ _ _ _ Hr1) by done. auto.
  - rewrite (completeRide_not_driver _ _ _ _ _ Hr1) by (simpl; congruence). auto.
Qed.

Lemma completeRide_once_witness :
  let s := sample_store (sample_ride 1 [sample_passenger 1 PassengerStatus.accepted]
                           RideStatus.in_progress) in
  let s1 := (run (completeRide 0 0 10) s).2 in
  (run (completeRide 0 0 11) s1).2 = s1.
Proof.
  intros s s1.
  exact (proj1 (proj2 (completeRide_once s 0 0 10 _ eq_refl eq_refl eq_refl eq_refl)
                  0 11%Z)).
Defined.

(** ** Cancellation *)




Lemma pull_ridesAsDriver_gone rid u :
  rid ∉ User.ridesAsDriver (pull_ridesAsDriver rid u).
Proof.
  unfold pull_ridesAsDriver. destruct u; simpl.
  intros [H _]%list_elem_of_filter. done.
Qed.






(** A user with an accepted entry has an entry. *)
Lemma accepted_entry_found (ps : list Passenger.t) caller :
  existsb (λ p, bool_decide (Passenger.user p = caller ∧
                             Passenger.status p = PassengerStatus.accepted)) ps = true →
  is_Some (list_find (λ p, Passenger.user p = caller) ps).
Proof.
  intros (q & Hq & Hacc)%existsb_exists.
  apply bool_decide_eq_true in Hacc as [Hu _].
  apply list_elem_of_In in Hq.
  destruct (list_find (λ p, Passenger.user p = caller) ps) eqn:E; [done|].
  apply list_find_None in E. rewrite Forall_forall in E. by destruct (E q Hq).
Qed.

(** X8. An accepted passenger cannot cancel their part through
    [cancelRide]: on a ride that is scheduled or in progress the
    handler creates a notification of type [passenger_cancelled], which
    the notification schema does not list, so the request ends in a
    forwarded validation error (answered 500) and nothing is written:
    the entry stays accepted and the seat stays taken. *)
Theorem cancelRide_by_passenger_fails s caller rid reason now ride :
  rides s !! rid = Some ride →
  Ride.driver ride ≠ caller →
  (∃ p, p ∈ Ride.passengers ride ∧ Passenger.user p = caller ∧
        Passenger.status p = PassengerStatus.accepted) →
  open_ride ride →
  run (cancelRide caller rid reason now) s = (Next (ValidationError "type"), s) ∧
  status_code (run (cancelRide caller rid reason now) s).1 = 500.
Proof.
  intros Hr Hd (q & Hq & Hqu & Hqs) Hopen.
  assert (existsb (λ p, bool_decide (Passenger.user p = caller ∧
                                     Passenger.status p = PassengerStatus.accepted))
            (Ride.passengers ride) = true) as Hex.
  { apply existsb_exists. exists q. split; [by apply list_elem_of_In|].
    by apply bool_decide_eq_true. }
  assert (¬ (Ride.status ride = RideStatus.completed ∨
             Ride.status ride = RideStatus.cancelled)) as Hnc.
  { destruct Hopen as [E|E]; rewrite E; intros [?|?]; done. }
  destruct (accepted_entry_found _ _ Hex) as [[i p] Hfind].
  assert (run (cancelRide caller rid reason now) s = (Next (ValidationError "type"), s))
    as ->; [|done].
  unfold cancelRide. hcompute. rewrite Hr. simpl. rewrite Hex.
  rewrite (bool_decide_eq_false_2 (Ride.driver ride = caller)) by done. simpl.
  rewrite bool_decide_eq_false_2 by done. simpl.
  rewrite Hfind. simpl. done.
Qed.

Lemma cancelRide_by_passenger_fails_witness :
  let s := sample_store (sample_ride 1 [sample_passenger 1 PassengerStatus.accepted]
                           RideStatus.scheduled) in
  run (cancelRide 1 0 "ill" 10) s = (Next (ValidationError "type"), s).
Proof.
  intros s.
  refine (proj1 (cancelRide_by_passenger_fails s 1 0 "ill" 10 _ eq_refl _ _
                   (or_introl eq_refl))).
  - simpl. discriminate.
  - exists (sample_passenger 1 PassengerStatus.accepted).
    split; [apply list_elem_of_here | split; reflexivity].
Defined.

(** ** Requests to join: answers and withdrawals *)













Lemma respondToRideRequest_reject s caller rid userId ride i p :
  rides s !! rid = Some ride →
  Ride.driver ride = caller →
  list_find (λ p, Passenger.user p = userId ∧
                  PassengerStatus.read (Passenger.status p) = PassengerStatus.pending)
    (Ride.passengers ride) = Some (i, p) →
  Ride_valid ride = true →
  run (respondToRideRequest caller rid userId (Some "rejected")) s =
    (Json 200 true "",
     set_notifications
       (λ l, l ++ [Notification.mk userId caller "ride_rejected" (Some rid) None])
       (set_rides <[rid := answered i p PassengerStatus.rejected ride]> s)).
Proof.
  intros Hr Hd Hfind Hv.
  unfold respondToRideRequest. hcompute. rewrite Hr. simpl.
  rewrite bool_decide_eq_false_2 by (by intros ?). simpl.
  rewrite Hfind. simpl.
  unfold Ride_valid in Hv. by rewrite Hv.
Qed.





Lemma respondToRideRequest_unset s caller rid userId ride i p :
  rides s !! rid = Some ride →
  Ride.driver ride = caller →
  list_find (λ p, Passenger.user p = userId ∧
                  PassengerStatus.read (Passenger.status p) = PassengerStatus.pending)
    (Ride.passengers ride) = Some (i, p) →
  Ride_valid ride = true →
  run (respondToRideRequest caller rid userId None) s =
    (Json 200 true "",
     set_notifications
       (λ l, l ++ [Notification.mk userId caller "ride_rejected" (Some rid) None])
       (set_rides <[rid := answered i p PassengerStatus.unset ride]> s)).
Proof.
  intros Hr Hd Hfind Hv.
  unfold respondToRideRequest. hcompute. rewrite Hr. simpl.
  rewrite bool_decide_eq_false_2 by (by intros ?). simpl.
  rewrite Hfind. simpl.
  unfold Ride_valid in Hv. by rewrite Hv.
Qed.

(** An entry whose status has been unset is found again by the next
    answer. *)
Lemma unset_entry_found (ps : list Passenger.t) userId i p :
  list_find (λ p, Passenger.user p = userId ∧
                  PassengerStatus.read (Passenger.status p) = PassengerStatus.pending)
    ps = Some (i, p) →
  list_find (λ p, Passenger.user p = userId ∧
                  PassengerStatus.read (Passenger.status p) = PassengerStatus.pending)
    (<[i := Passenger.set_status PassengerStatus.unset p]> ps) =
    Some (i, Passenger.set_status PassengerStatus.unset p).
Proof.
  intros Hfind. apply list_find_Some in Hfind as (Hi & [Hu Hst] & Hmin).
  apply list_find_Some. split; [|split].
  - apply list_lookup_insert_eq. by eapply lookup_lt_Some.
  - done.
  - intros j y Hj Hlt. rewrite list_lookup_insert_ne in Hj by lia. by eapply Hmin.
Qed.

(** X13. The answer to a request is stored as it is sent.  A status
    that the passenger schema does not list ends the request in a
    forwarded validation error (answered 500) with nothing written.  A
    body without [status] is answered 200 on a valid ride: the status
    of the entry is unset, the seats, the users and the transactions
    stay as they were, and the passenger is notified of a rejection;
    the entry, which a later load reads as pending again, can then be
    answered once more. *)
Theorem respond_unknown_status s caller rid userId ride :
  rides s !! rid = Some ride →
  Ride.driver ride = caller →
  (∃ p, p ∈ Ride.passengers ride ∧ Passenger.user p = userId ∧
        Passenger.status p = PassengerStatus.pending) →
  (∀ status,
     PassengerStatus.of_string status = None →
     run (respondToRideRequest caller rid userId (Some status)) s =
       (Next (ValidationError "passengers.status"), s) ∧
     status_code (run (respondToRideRequest caller rid userId (Some status)) s).1 = 500) ∧
  (Ride_valid ride = true →
   let out := run (respondToRideRequest caller rid userId None) s in
   let out2 := run (respondToRideRequest caller rid userId (Some "rejected")) out.2 in
   out.1 = Json 200 true "" ∧
   users out.2 = users s ∧
   transactions out.2 = transactions s ∧
   notifications out.2 =
     notifications s ++ [Notification.mk userId caller "ride_rejected" (Some rid) None] ∧
   ∃ i p ride1 ride2,
     Ride.passengers ride !! i = Some p ∧ Passenger.user p = userId ∧
     rides out.2 !! rid = Some ride1 ∧
     Ride.availableSeats ride1 = Ride.availableSeats ride ∧
     Ride.passengers ride1 =
       <[i := Passenger.set_status PassengerStatus.unset p]> (Ride.passengers ride) ∧
     out2.1 = Json 200 true "" ∧
     rides out2.2 !! rid = Some ride2 ∧
     Ride.passengers ride2 =
       <[i := Passenger.set_status PassengerStatus.rejected p]> (Ride.passengers ride)).
Proof.
  intros Hr Hd Hp.
  destruct (pending_request_found _ _ Hp) as (i & p & Hfind).
  split.
  - intros status Hnone.
    assert (run (respondToRideRequest caller rid userId (Some status)) s =
              (Next (ValidationError "passengers.status"), s)) as ->; [|done].
    unfold respondToRideRequest. hcompute. rewrite Hr. simpl.
    rewrite bool_decide_eq_false_2 by (by intros ?). simpl.
    rewrite Hfind. simpl. by rewrite Hnone.
  - intros Hv out out2. subst out2 out.
    pose proof Hfind as Hfind'.
    apply list_find_Some in Hfind' as (Hi & [Hu Hst] & _).
    rewrite (respondToRideRequest_unset _ _ _ _ _ _ _ Hr Hd Hfind Hv).
    cbn [fst snd].
    set (ride1 := answered i p PassengerStatus.unset ride).
    set (s1 := set_notifications _ _).
    assert (rides s1 !! rid = Some ride1) as Hr1.
    { simpl. apply list_lookup_insert_eq. by eapply lookup_lt_Some. }
    rewrite (respondToRideRequest_reject s1 caller rid userId ride1 i
               (Passenger.set_status PassengerStatus.unset p) Hr1 Hd);
      [| by apply unset_entry_found | done].
    simpl. split_and!; try done.
    exists i, p, ride1. eexists. split_and!; try done.
    + apply list_lookup_insert_eq. rewrite length_insert. by eapply lookup_lt_Some.
    + simpl. by rewrite list_insert_insert_eq.
Qed.

Lemma respond_unknown_status_witness :
  let s := sample_store (sample_ride 2 [sample_passenger 1 PassengerStatus.pending]
                           RideStatus.scheduled) in
  run (respondToRideRequest 0 0 1 (Some "maybe")) s =
    (Next (ValidationError "passengers.status"), s) ∧
  (run (respondToRideRequest 0 0 1 None) s).1 = Json 200 true "" ∧
  notifications (run (respondToRideRequest 0 0 1 None) s).2 =
    [Notification.mk 1 0 "ride_rejected" (Some 0) None] ∧
  rides (run (respondToRideRequest 0 0 1 None) s).2 =
    [sample_ride 2 [sample_passenger 1 PassengerStatus.unset] RideStatus.scheduled].
Proof.
  intros s.
  destruct (respond_unknown_status s 0 0 1 _ eq_refl eq_refl) as [H1 H2].
  - exists (sample_passenger 1 PassengerStatus.pending).
    split; [apply list_elem_of_here | split; reflexivity].
  - split; [exact (proj1 (H1 "maybe" eq_refl))|].
    destruct (H2 eq_refl) as (Hok & _ & _ & Hn & _).
    split; [exact Hok|]. split; [exact Hn | reflexivity].
Defined.



(** ** What every request keeps *)

Lemma status_reaches_refl st : status_reaches st st.
Proof. by destruct st. Qed.

Lemma status_reaches_trans st1 st2 st3 :
  status_reaches st1 st2 → status_reaches st2 st3 → status_reaches st1 st3.
Proof. destruct st1, st2, st3; simpl; done. Qed.

Lemma trip_follows_refl r : trip_follows r r.
Proof. unfold trip_follows. split_and!; auto using status_reaches_refl. Qed.

Lemma trip_follows_trans r1 r2 r3 :
  trip_follows r1 r2 → trip_follows r2 r3 → trip_follows r1 r3.
Proof.
  intros (Hd & Hv & Hs & He & Hdi & Hst & Hp) (Hd' & Hv' & Hs' & He' & Hdi' & Hst' & Hp').
  unfold trip_follows. split_and!; try congruence.
  - by eapply status_reaches_trans.
  - intros H. apply Hp', Hp, H.
Qed.

Lemma rides_follow_refl l : rides_follow l l.
Proof. intros rid r H. exists r. split; [done | apply trip_follows_refl]. Qed.

Lemma rides_follow_trans l1 l2 l3 :
  rides_follow l1 l2 → rides_follow l2 l3 → rides_follow l1 l3.
Proof.
  intros H12 H23 rid r1 H1.
  destruct (H12 rid r1 H1) as (r2 & H2 & Hk2).
  destruct (H23 rid r2 H2) as (r3 & H3 & Hk3).
  exists r3. split; [done|]. by eapply trip_follows_trans.
Qed.

Lemma rides_follow_insert l rid r r' :
  l !! rid = Some r → trip_follows r r' → rides_follow l (<[rid := r']> l).
Proof.
  intros Hr Hk rid0 r0 H0.
  destruct (decide (rid = rid0)) as [->|Hne].
  - rewrite list_lookup_insert_eq by (by eapply lookup_lt_Some).
    exists r'. split; [done|]. by assert (r0 = r) as -> by congruence.
  - rewrite list_lookup_insert_ne by done.
    exists r0. split; [done | apply trip_follows_refl].
Qed.

Lemma rides_follow_app l r : rides_follow l (l ++ [r]).
Proof.
  intros rid r0 H0. exists r0. split; [|apply trip_follows_refl].
  by apply lookup_app_l_Some.
Qed.

(** Replacing the fare of an entry does not change whose entry it is. *)
Lemma users_set_fare (ps : list Passenger.t) i p f :
  ps !! i = Some p →
  Passenger.user <$> <[i := Passenger.set_fare f p]> ps = Passenger.user <$> ps.
Proof.
  intros Hi. rewrite list_fmap_insert. apply list_insert_id.
  by rewrite list_lookup_fmap, Hi.
Qed.

(** Settles [trip_follows] for a ride rebuilt from the stored one by
    the setters of the handlers. *)
Ltac trip :=
  unfold trip_follows, set_fare_at; simpl;
  split_and!; try done;
  try match goal with
      | H : Ride.status _ = _ |- status_reaches _ _ => by rewrite H
      | |- status_reaches ?st ?st => apply status_reaches_refl
      | |- status_reaches ?st _ => by destruct st; simpl; try tauto
      end;
  try match goal with
      | H : list_find _ _ = Some _ |- _ =>
          let Hi := fresh "Hi" in
          pose proof H as Hi; apply list_find_Some in Hi as (Hi & _ & _);
          rewrite ?(users_set_status _ _ _ _ Hi), ?(users_set_fare _ _ _ _ Hi);
          try done
      end.

Lemma requestRide_follows s caller rid pickup dropoff :
  wp (requestRide caller rid pickup dropoff)
    (λ _ s', rides_follow (rides s) (rides s')) s.
Proof.
  hsteps.
  all: try (simpl; apply rides_follow_refl).
  all: eapply rides_follow_insert; [done|].
  all: hfacts; trip.
  all: rewrite fmap_app, elem_of_app; intros Hnd [?|Hin]; [done|].
  all: apply list_elem_of_singleton in Hin; simpl in Hin; congruence.
Qed.

Lemma respondToRideRequest_follows s caller rid userId status :
  wp (respondToRideRequest caller rid userId status)
    (λ _ s', rides_follow (rides s) (rides s')) s.
Proof.
  hsteps.
  all: try (simpl; apply rides_follow_refl).
  all: eapply rides_follow_insert; [done|]; trip.
Qed.

Lemma cancelRideRequest_follows s caller rid :
  wp (cancelRideRequest caller rid)
    (λ _ s', rides_follow (rides s) (rides s')) s.
Proof.
  hsteps.
  all: try (simpl; apply rides_follow_refl).
  all: eapply rides_follow_insert; [done|]; trip.
  all: intros Hnd Hin; apply Hnd.
  all: rewrite list_fmap_delete in Hin.
  all: by eapply list_elem_of_delete_inv.
Qed.

Lemma startRide_follows s caller rid now :
  wp (startRide caller rid now) (λ _ s', rides_follow (rides s) (rides s')) s.
Proof.
  hsteps.
  all: try (simpl; apply rides_follow_refl).
  loop_keeps_rides; hsteps; rewrite Hs'.
  all: eapply rides_follow_insert; [done|]; hfacts; trip.
Qed.

Lemma updateRideLocation_follows s caller rid coords now :
  wp (updateRideLocation caller rid coords now)
    (λ _ s', rides_follow (rides s) (rides s')) s.
Proof.
  hsteps.
  all: try (simpl; apply rides_follow_refl).
  simpl. eapply rides_follow_insert; [done|]. trip.
Qed.

Lemma createRide_follows s caller body :
  wp (createRide caller body) (λ _ s', rides_follow (rides s) (rides s')) s.
Proof.
  hsteps.
  all: try (simpl; apply rides_follow_refl).
  simpl. apply rides_follow_app.
Qed.

Lemma completeRide_follows s caller rid now :
  wp (completeRide caller rid now) (λ _ s', rides_follow (rides s) (rides s')) s.
Proof.
  hsteps.
  all: try (simpl; apply rides_follow_refl).
  all: try (simpl; eapply rides_follow_insert; [done|]; hfacts; trip).
  loop_keeps_rides; hsteps; rewrite Hs'; simpl.
  all: eapply rides_follow_insert; [done|]; hfacts; trip.
Qed.

Lemma cancelRide_follows s caller rid reason now :
  wp (cancelRide caller rid reason now)
    (λ _ s', rides_follow (rides s) (rides s')) s.
Proof.
  hsteps.
  all: try (simpl; apply rides_follow_refl).
  loop_keeps_rides; hsteps; simpl; rewrite ?Hs'.
  all: try apply rides_follow_refl.
  all: eapply rides_follow_insert; [done|]; hfacts; trip.
  all: match goal with
       | H : ¬ (Ride.status ?r = _ ∨ Ride.status ?r = _) |- _ =>
           destruct (Ride.status r); simpl; try done; exfalso; apply H; auto
       end.
Qed.

Lemma initiateRidePayment_follows s caller rideId amount paymentMethod :
  wp (initiateRidePayment caller rideId amount paymentMethod)
    (λ _ s', rides_follow (rides s) (rides s')) s.
Proof.
  hsteps.
  all: try (simpl; apply rides_follow_refl).
  all: simpl; eapply rides_follow_insert; [done|]; trip.
Qed.

Lemma completeRidePayment_follows s caller rideId txid :
  wp (completeRidePayment caller rideId txid)
    (λ _ s', rides_follow (rides s) (rides s')) s.
Proof.
  hsteps.
  all: try (simpl; apply rides_follow_refl).
  all: simpl; eapply rides_follow_insert; [done|]; trip.
Qed.

(** The handlers that never write a ride. *)
Lemma withdrawFunds_rides s caller amount :
  wp (withdrawFunds caller amount) (λ _ s', rides s' = rides s) s.
Proof. hsteps; done. Qed.

Lemma addFundsToWallet_rides s caller amount paymentMethod :
  wp (addFundsToWallet caller amount paymentMethod) (λ _ s', rides s' = rides s) s.
Proof. hsteps; done. Qed.

Lemma requestRefund_rides s caller rideId :
  wp (requestRefund caller rideId) (λ _ s', rides s' = rides s) s.
Proof. hsteps; done. Qed.

Lemma updateVehicleDetails_rides s caller body :
  wp (updateVehicleDetails caller body) (λ _ s', rides s' = rides s) s.
Proof. hsteps; done. Qed.

Lemma sendSafetyAlert_rides s caller rid message :
  wp (sendSafetyAlert caller rid message) (λ _ s', rides s' = rides s) s.
Proof.
  hsteps; try done.
  loop_keeps_rides; hsteps; done.
Qed.

Lemma submitRating_rides s caller userId rideId role rating comment now :
  wp (submitRating caller userId rideId role rating comment now)
    (λ _ s', rides s' = rides s) s.
Proof. hsteps; done. Qed.

Lemma wp_same_rides_follow {A} (h : Handler A) s :
  wp h (λ _ s', rides s' = rides s) s →
  wp h (λ _ s', rides_follow (rides s) (rides s')) s.
Proof.
  intros H. eapply wp_mono; [exact H|]. simpl. intros _ s' ->. apply rides_follow_refl.
Qed.

Lemma served_wp (R : Store → Store → Prop) s req :
  wp (serve req) (λ _ s', R s s') s → R s (served s req).
Proof.
  intros H. unfold served.
  apply (wp_run (serve req) (λ _ s', R s s')).
  eapply wp_mono; [exact H | by intros [r|r] s'].
Qed.

Lemma served_follows s req : rides_follow (rides s) (rides (served s req)).
Proof.
  apply (served_wp (λ s s', rides_follow (rides s) (rides s'))).
  destruct req as [op | op | | | | |]; simpl; [destruct op | destruct op | ..]; simpl.
  - apply createRide_follows.
  - apply requestRide_follows.
  - apply respondToRideRequest_follows.
  - apply cancelRideRequest_follows.
  - apply startRide_follows.
  - apply completeRide_follows.
  - apply cancelRide_follows.
  - apply updateRideLocation_follows.
  - apply wp_same_rides_follow, addFundsToWallet_rides.
  - apply initiateRidePayment_follows.
  - apply completeRidePayment_follows.
  - apply wp_same_rides_follow, withdrawFunds_rides.
  - apply wp_same_rides_follow, requestRefund_rides.
  - apply wp_same_rides_follow, updateVehicleDetails_rides.
  - apply wp_same_rides_follow, sendSafetyAlert_rides.
  - apply wp_same_rides_follow, submitRating_rides.
Qed.

Lemma served_all_follows reqs s : rides_follow (rides s) (rides (served_all reqs s)).
Proof.
  revert s. induction reqs as [|req reqs IH]; intros s; simpl.
  - apply rides_follow_refl.
  - eapply rides_follow_trans; [apply served_follows | apply IH].
Qed.

(** X14. A ride keeps its identity for life.  After any sequence of
    requests of [Request] (the eight ride operations, top-ups, ride
    payments and their completions, withdrawals, refund requests,
    vehicle updates, safety alerts and ratings; [updateRide] and
    [deleteRide] are not among them), answered or refused, a stored
    ride is still stored under its identifier with the same driver,
    vehicle snapshot, start, end and distance; its status has only
    moved forward (from [scheduled] anywhere, from [in_progress] to an
    end, from an end nowhere); and a driver who had no passenger entry
    on their own ride has none. *)
Theorem ride_identity_kept s reqs rid r :
  rides s !! rid = Some r →
  ∃ r', rides (served_all reqs s) !! rid = Some r' ∧
        Ride.driver r' = Ride.driver r ∧
        Ride.vehicle r' = Ride.vehicle r ∧
        Ride.startLocation r' = Ride.startLocation r ∧
        Ride.endLocation r' = Ride.endLocation r ∧
        Ride.distance r' = Ride.distance r ∧
        status_reaches (Ride.status r) (Ride.status r') ∧
        (Ride.driver r ∉ Passenger.user <$> Ride.passengers r →
         Ride.driver r' ∉ Passenger.user <$> Ride.passengers r').
Proof.
  intros Hr. destruct (served_all_follows reqs s rid r Hr) as (r' & Hr' & Hf).
  exists r'. split; [done | exact Hf].
Qed.

Lemma ride_identity_kept_witness :
  ∃ r', rides (served_all [OnRide (StartRide 0 0 10);
                           UpdateVehicleDetails 0 (Vehicle.mk (Some 5%Q));
                           OnRide (CompleteRide 0 0 20)]
                 (sample_store (sample_ride 2 [] RideStatus.scheduled))) !! 0 = Some r' ∧
        Ride.driver r' = 0 ∧
        Ride.vehicle r' = Vehicle.mk (Some 10%Q) ∧
        Ride.distance r' = Some 100%Q.
Proof.
  destruct (ride_identity_kept (sample_store (sample_ride 2 [] RideStatus.scheduled))
              [OnRide (StartRide 0 0 10); UpdateVehicleDetails 0 (Vehicle.mk (Some 5%Q));
               OnRide (CompleteRide 0 0 20)] 0 _ eq_refl)
    as (r' & Hr' & Hd & Hv & _ & _ & Hdist & _).
  exists r'. split; [exact Hr' | split; [exact Hd | split; [exact Hv | exact Hdist]]].
Defined.

(** *** Seats *)

(** Replacing the fare of an entry does not change what it counts for. *)
Lemma accepted_set_fare (ps : list Passenger.t) i p f :
  ps !! i = Some p →
  length (accepted (<[i := Passenger.set_fare f p]> ps)) = length (accepted ps).
Proof.
  intros Hi.
  pose proof (accepted_insert _ _ _ (Passenger.set_fare f p) Hi) as H.
  unfold accepted_weight in H. simpl in H. lia.
Qed.

Lemma seats_kept_set_fare ride i p f :
  Ride.passengers ride !! i = Some p →
  seats_kept ride (set_fare_at i p f ride).
Proof.
  intros Hi Hnd.
  unfold one_entry_per_user, seat_total, set_fare_at in *. simpl.
  rewrite users_set_fare, accepted_set_fare by done. auto.
Qed.

Lemma initiateRidePayment_evolves s caller rideId amount paymentMethod :
  wp (initiateRidePayment caller rideId amount paymentMethod)
    (λ _ s', rides_evolve (rides s) (rides s')) s.
Proof.
  hsteps.
  all: try (simpl; apply rides_evolve_refl).
  all: simpl; eapply rides_evolve_insert; [done|].
  all: match goal with H : list_find _ _ = Some _ |- _ =>
         apply list_find_Some in H as (Hi & _ & _) end.
  all: by apply seats_kept_set_fare.
Qed.

Lemma completeRidePayment_evolves s caller rideId txid :
  wp (completeRidePayment caller rideId txid)
    (λ _ s', rides_evolve (rides s) (rides s')) s.
Proof.
  hsteps.
  all: try (simpl; apply rides_evolve_refl).
  all: simpl; eapply rides_evolve_insert; [done|].
  all: match goal with H : list_find _ _ = Some _ |- _ =>
         apply list_find_Some in H as (Hi & Hu & _) end.
  all: by apply seats_kept_set_fare.
Qed.

Lemma wp_same_rides_evolve {A} (h : Handler A) s :
  wp h (λ _ s', rides s' = rides s) s →
  wp h (λ _ s', rides_evolve (rides s) (rides s')) s.
Proof.
  intros H. eapply wp_mono; [exact H|]. simpl. intros _ s' ->. apply rides_evolve_refl.
Qed.

Lemma served_evolves s req : rides_evolve (rides s) (rides (served s req)).
Proof.
  destruct req as [op | op | | | | |]; [apply (step_evolves s op) | ..].
  all: apply (served_wp (λ s s', rides_evolve (rides s) (rides s'))); simpl.
  - destruct op; simpl.
    + apply wp_same_rides_evolve, addFundsToWallet_rides.
    + apply initiateRidePayment_evolves.
    + apply completeRidePayment_evolves.
  - apply wp_same_rides_evolve, withdrawFunds_rides.
  - apply wp_same_rides_evolve, requestRefund_rides.
  - apply wp_same_rides_evolve, updateVehicleDetails_rides.
  - apply wp_same_rides_evolve, sendSafetyAlert_rides.
  - apply wp_same_rides_evolve, submitRating_rides.
Qed.

Lemma served_all_evolves reqs s : rides_evolve (rides s) (rides (served_all reqs s)).
Proof.
  revert s. induction reqs as [|req reqs IH]; intros s; simpl.
  - apply rides_evolve_refl.
  - eapply rides_evolve_trans; [apply served_evolves | apply IH].
Qed.

(** X15. One seat always stays free.  Take a stored ride that is valid
    for its schema (at least one free seat) and has one entry per user.
    After any sequence of requests of [Request], answered or refused,
    it still has one entry per user, at least one free
    seat, and the same total of free seats and accepted entries: the
    accepted passengers never fill the last seat, and payments, refunds,
    alerts and ratings do not touch the seats. *)
Theorem last_seat_stays_free s reqs rid r :
  rides s !! rid = Some r →
  one_entry_per_user r →
  Ride_valid r = true →
  ∃ r', rides (served_all reqs s) !! rid = Some r' ∧
        one_entry_per_user r' ∧
        (1 ≤ Ride.availableSeats r')%Z ∧
        seat_total r' = seat_total r ∧
        (Z.of_nat (length (accepted (Ride.passengers r'))) ≤ seat_total r - 1)%Z.
Proof.
  intros Hr Hnd Hv.
  destruct (served_all_evolves reqs s rid r Hr) as (r' & Hr' & Hk).
  destruct (Hk Hnd) as (Hnd' & Htotal & Hbound).
  assert (1 ≤ Ride.availableSeats r')%Z as Hone.
  { apply Hbound; [lia|]. by apply Z.leb_le. }
  exists r'. split_and!; try done.
  unfold seat_total in *. lia.
Qed.

Lemma last_seat_stays_free_witness :
  ∃ r', rides (served_all [OnRide (RespondToRideRequest 0 0 1 (Some "accepted"));
                           OnRide (RespondToRideRequest 0 0 2 (Some "accepted"))]
                 (sample_store (sample_ride 2 [sample_passenger 1 PassengerStatus.pending;
                                               sample_passenger 2 PassengerStatus.pending]
                                  RideStatus.scheduled))) !! 0 = Some r' ∧
        (1 ≤ Ride.availableSeats r')%Z ∧
        (Z.of_nat (length (accepted (Ride.passengers r'))) ≤ 1)%Z.
Proof.
  destruct (last_seat_stays_free
              (sample_store (sample_ride 2 [sample_passenger 1 PassengerStatus.pending;
                                            sample_passenger 2 PassengerStatus.pending]
                               RideStatus.scheduled))
              [OnRide (RespondToRideRequest 0 0 1 (Some "accepted"));
               OnRide (RespondToRideRequest 0 0 2 (Some "accepted"))] 0 _ eq_refl)
    as (r' & Hr' & _ & H1 & _ & H2).
  - unfold one_entry_per_user. simpl. apply NoDup_cons. split.
    + intros H. apply list_elem_of_singleton in H. discriminate H.
    + apply NoDup_singleton.
  - reflexivity.
  - exists r'. split; [exact Hr' | split; [exact H1 | exact H2]].
Defined.

(** *** The ledger *)

Lemma settles_refl x : settles x x.
Proof. by left. Qed.

Lemma settles_trans x1 x2 x3 : settles x1 x2 → settles x2 x3 → settles x1 x3.
Proof.
  intros [->|[Hp ->]] [->|[Hp' ->]]; try (by left); by right.
Qed.

Lemma ledger_follows_refl l : ledger_follows l l.
Proof. intros id x H. exists x. split; [done | apply settles_refl]. Qed.

Lemma ledger_follows_trans l1 l2 l3 :
  ledger_follows l1 l2 → ledger_follows l2 l3 → ledger_follows l1 l3.
Proof.
  intros H12 H23 id x1 H1.
  destruct (H12 id x1 H1) as (x2 & H2 & Hk2).
  destruct (H23 id x2 H2) as (x3 & H3 & Hk3).
  exists x3. split; [done|]. by eapply settles_trans.
Qed.

Lemma ledger_follows_app l x : ledger_follows l (l ++ [x]).
Proof.
  intros id x0 H0. exists x0. split; [|apply settles_refl].
  by apply lookup_app_l_Some.
Qed.

Lemma ledger_follows_insert l id x :
  l !! id = Some x →
  Transaction.status x = TxStatus.pending →
  ledger_follows l (<[id := Transaction.set_status TxStatus.completed x]> l).
Proof.
  intros Hx Hp id0 x0 H0.
  destruct (decide (id = id0)) as [->|Hne].
  - rewrite list_lookup_insert_eq by (by eapply lookup_lt_Some).
    eexists. split; [done|]. assert (x0 = x) as -> by congruence. by right.
  - rewrite list_lookup_insert_ne by done.
    exists x0. split; [done | apply settles_refl].
Qed.

Lemma wp_for_each_transactions {A} (body : A → Handler unit) (xs : list A)
    (Φ : Response + unit → Store → Prop) s :
  (∀ x s1, wp (body x) (λ _ s2, transactions s2 = transactions s1) s1) →
  (∀ o s', transactions s' = transactions s → Φ o s') →
  wp (for_each body xs) Φ s.
Proof.
  intros Hbody HΦ.
  apply (wp_for_each _ _ (λ s', transactions s' = transactions s)); [done | | done].
  intros x s1 _ H1. eapply wp_mono; [apply Hbody|].
  simpl. intros _ s2 H2. congruence.
Qed.

Ltac loop_keeps_transactions :=
  apply wp_for_each_transactions;
  [ intros ? ?; hsteps; simpl; done
  | let o := fresh "o" in let s' := fresh "s'" in let Hs' := fresh "Hs'" in
    intros o s' Hs'; simpl in Hs'; destruct o as [?|[]]; cbn beta iota ].

(** The ride and user controllers never write a transaction. *)
Lemma handle_transactions s op :
  wp (handle op) (λ _ s', transactions s' = transactions s) s.
Proof.
  destruct op; simpl.
  - hsteps; done.
  - hsteps; done.
  - hsteps; done.
  - hsteps; done.
  - hsteps; try done. loop_keeps_transactions; hsteps; done.
  - hsteps; try done. loop_keeps_transactions; hsteps; done.
  - hsteps; try done. loop_keeps_transactions; hsteps; done.
  - hsteps; done.
Qed.

Lemma updateVehicleDetails_transactions s caller body :
  wp (updateVehicleDetails caller body) (λ _ s', transactions s' = transactions s) s.
Proof. hsteps; done. Qed.

Lemma sendSafetyAlert_transactions s caller rid message :
  wp (sendSafetyAlert caller rid message) (λ _ s', transactions s' = transactions s) s.
Proof.
  hsteps; try done.
  loop_keeps_transactions; hsteps; done.
Qed.

Lemma submitRating_transactions s caller userId rideId role rating comment now :
  wp (submitRating caller userId rideId role rating comment now)
    (λ _ s', transactions s' = transactions s) s.
Proof. hsteps; done. Qed.

Lemma wp_same_ledger_follows {A} (h : Handler A) s :
  wp h (λ _ s', transactions s' = transactions s) s →
  wp h (λ _ s', ledger_follows (transactions s) (transactions s')) s.
Proof.
  intros H. eapply wp_mono; [exact H|]. simpl. intros _ s' ->. apply ledger_follows_refl.
Qed.

(** Settles [ledger_follows] for the stores that the payment handlers
    leave. *)
Ltac ledger :=
  simpl;
  first [ apply ledger_follows_refl
        | apply ledger_follows_app
        | apply ledger_follows_insert; [done | by hfacts] ].

Lemma served_ledger_follows s req :
  ledger_follows (transactions s) (transactions (served s req)).
Proof.
  apply (served_wp (λ s s', ledger_follows (transactions s) (transactions s'))).
  destruct req as [op | op | | | | |]; simpl; [| destruct op | ..]; simpl.
  - apply wp_same_ledger_follows, handle_transactions.
  - hsteps; ledger.
  - hsteps; ledger.
  - hsteps; ledger.
  - hsteps; ledger.
  - hsteps; ledger.
  - apply wp_same_ledger_follows, updateVehicleDetails_transactions.
  - apply wp_same_ledger_follows, sendSafetyAlert_transactions.
  - apply wp_same_ledger_follows, submitRating_transactions.
Qed.

Lemma served_all_ledger_follows reqs s :
  ledger_follows (transactions s) (transactions (served_all reqs s)).
Proof.
  revert s. induction reqs as [|req reqs IH]; intros s; simpl.
  - apply ledger_follows_refl.
  - eapply ledger_follows_trans; [apply served_ledger_follows | apply IH].
Qed.

(** X16. The ledger is append-only.  After any sequence of requests
    of [Request], answered or refused, a stored transaction is still stored under its
    identifier with the same sender, receiver, ride, amount, type and
    payment method; its status is what it was, or [completed] where it
    was [pending].  No transaction is deleted, none is reopened, and
    none ever becomes [failed] or [refunded]. *)
Theorem ledger_append_only s reqs id x :
  transactions s !! id = Some x →
  ∃ x', transactions (served_all reqs s) !! id = Some x' ∧
        Transaction.sender x' = Transaction.sender x ∧
        Transaction.receiver x' = Transaction.receiver x ∧
        Transaction.ride x' = Transaction.ride x ∧
        Transaction.amount x' = Transaction.amount x ∧
        Transaction.type x' = Transaction.type x ∧
        Transaction.paymentMethod x' = Transaction.paymentMethod x ∧
        (Transaction.status x' = Transaction.status x ∨
         Transaction.status x = TxStatus.pending ∧
         Transaction.status x' = TxStatus.completed).
Proof.
  intros Hx.
  destruct (served_all_ledger_follows reqs s id x Hx) as (x' & Hx' & [->|[Hp ->]]).
  - exists x. split_and!; auto.
  - eexists. split; [done|]. simpl. split_and!; auto.
Qed.

Lemma ledger_append_only_witness :
  ∃ x', transactions (served_all [OnLedger (CompleteRidePayment 1 0 0);
                                  RequestRefund 1 0;
                                  OnLedger (CompleteRidePayment 1 0 0)]
                        ledger_store) !! 0 = Some x' ∧
        Transaction.amount x' = 50%Q ∧
        (Transaction.status x' = TxStatus.pending ∨
         TxStatus.pending = TxStatus.pending ∧
         Transaction.status x' = TxStatus.completed).
Proof.
  destruct (ledger_append_only ledger_store
              [OnLedger (CompleteRidePayment 1 0 0); RequestRefund 1 0;
               OnLedger (CompleteRidePayment 1 0 0)] 0 _ eq_refl)
    as (x' & Hx' & _ & _ & _ & Ha & _ & _ & Hs).
  exists x'. split; [exact Hx' | split; [exact Ha | exact Hs]].
Defined.

(** *** Wallets *)

Lemma wr_rides f s : wallets_resolve s → wallets_resolve (set_rides f s).
Proof. done. Qed.

Lemma wr_notifications f s : wallets_resolve s → wallets_resolve (set_notifications f s).
Proof. done. Qed.

Lemma wr_transactions_app x s :
  wallets_resolve s → wallets_resolve (set_transactions (λ l, l ++ [x]) s).
Proof.
  intros H uid u id Hu Hin. simpl in *. rewrite length_app. simpl.
  pose proof (H uid u id Hu Hin). lia.
Qed.

Lemma wr_transactions_insert i x s :
  wallets_resolve s → wallets_resolve (set_transactions <[i := x]> s).
Proof.
  intros H uid u id Hu Hin. simpl in *. rewrite length_insert. by eapply H.
Qed.

Lemma wr_users_alter f uid s :
  wallets_resolve s →
  (∀ u, User.wallet (f u) = User.wallet u) →
  wallets_resolve (set_users (alter f uid) s).
Proof.
  intros H Hf uid0 u id Hu Hin. simpl in *.
  apply lookup_alter_Some in Hu as [(_ & u0 & Hu0 & ->)|[_ Hu]].
  - rewrite Hf in Hin. by eapply H.
  - by eapply H.
Qed.

Lemma wr_users_insert uid u0 u s :
  wallets_resolve s →
  users s !! uid = Some u0 →
  (∀ id, id ∈ Wallet.transactions (User.wallet u) →
         id ∈ Wallet.transactions (User.wallet u0) ∨ id < length (transactions s)) →
  wallets_resolve (set_users <[uid := u]> s).
Proof.
  intros H Hu0 Hside uid0 u1 id Hu Hin. simpl in *.
  apply lookup_insert_Some in Hu as [[<- <-]|[_ Hu]].
  - destruct (Hside id Hin) as [Hold|Hnew]; [by eapply H | done].
  - by eapply H.
Qed.

(** The identifiers of a rewritten wallet are the old ones or that of
    a stored transaction. *)
Ltac wr_side :=
  let id := fresh "id" in let Hin := fresh "Hin" in
  intros id Hin;
  unfold wallet_apply, add_impact in Hin; repeat case_decide; simpl in *;
  first
    [ by left
    | apply elem_of_app in Hin as [Hin|Hin];
      [ by left
      | right; apply list_elem_of_singleton in Hin; subst;
        rewrite ?length_app, ?length_insert; simpl;
        first [ lia | eapply lookup_lt_Some; eassumption ] ] ].

Ltac resolves :=
  repeat first
    [ assumption
    | apply wr_rides
    | apply wr_notifications
    | apply wr_transactions_app
    | apply wr_transactions_insert
    | apply wr_users_alter; [| solve [by intros []] ]
    | eapply wr_users_insert; [| solve [simpl in *; eassumption] | solve [wr_side] ] ].

Ltac loop_resolves :=
  apply (wp_for_each _ _ wallets_resolve);
  [ resolves
  | let H1 := fresh "H1" in intros ? ? _ H1; hsteps; resolves
  | let o := fresh "o" in let H' := fresh "Hs'" in
    intros o ? H'; destruct o as [?|[]]; cbn beta iota ].

Lemma served_wallets_resolve s req : wallets_resolve s → wallets_resolve (served s req).
Proof.
  intros Hinv.
  apply (served_wp (λ _ s', wallets_resolve s')).
  destruct req as [op | op | | | | |]; simpl; [destruct op | destruct op | ..]; simpl.
  - hsteps; resolves.
  - hsteps; resolves.
  - hsteps; resolves.
  - hsteps; resolves.
  - hsteps; resolves. loop_resolves; hsteps; resolves.
  - hsteps; resolves. loop_resolves; hsteps; resolves.
  - hsteps; resolves. loop_resolves; hsteps; resolves.
  - hsteps; resolves.
  - hsteps; resolves.
  - hsteps; resolves.
  - hsteps; resolves.
  - hsteps; resolves.
  - hsteps; resolves.
  - hsteps; resolves.
  - hsteps; resolves. loop_resolves; hsteps; resolves.
  - hsteps; resolves.
Qed.

(** X17. Wallets point into the ledger.  If every transaction
    identifier held in a wallet names a stored transaction, this is
    still so after any sequence of requests of [Request], answered or
    refused. *)
Theorem wallets_point_to_ledger s reqs :
  wallets_resolve s → wallets_resolve (served_all reqs s).
Proof.
  revert s. induction reqs as [|req reqs IH]; intros s Hinv; simpl; [done|].
  apply IH. by apply served_wallets_resolve.
Qed.

Lemma wallets_point_to_ledger_witness :
  wallets_resolve
    (served_all [OnLedger (AddFundsToWallet 1 (Num 100) "card"); WithdrawFunds 1 30;
                 OnLedger (AddFundsToWallet 1 (Str "5") "upi")] fresh_ledger).
Proof.
  apply (wallets_point_to_ledger fresh_ledger).
  intros uid u id Hu Hin. unfold fresh_ledger in Hu. simpl in Hu.
  apply lookup_singleton_Some in Hu as [_ <-]. simpl in Hin.
  by apply elem_of_nil in Hin.
Defined.

(** ** Ride payments *)

(** Writing the fare of the entry found leaves it the entry found. *)
Lemma accepted_entry_set_fare caller ride i p f :
  accepted_entry caller ride = Some (i, p) →
  accepted_entry caller (set_fare_at i p f ride) = Some (i, Passenger.set_fare f p).
Proof.
  unfold accepted_entry, set_fare_at. simpl. intros Hfind.
  apply list_find_Some in Hfind as (Hi & HP & Hmin).
  apply list_find_Some. split; [|split].
  - apply list_lookup_insert_eq. by eapply lookup_lt_Some.
  - exact HP.
  - intros j y Hj Hlt. rewrite list_lookup_insert_ne in Hj by lia. by eapply Hmin.
Qed.

Lemma initiateRidePayment_not_passenger s caller rideId amount value paymentMethod ride :
  to_number amount = Some value →
  rides s !! rideId = Some ride →
  accepted_entry caller ride = None →
  run (initiateRidePayment caller rideId amount paymentMethod) s =
    (Json 401 false "You are not a passenger in this ride", s).
Proof.
  unfold accepted_entry. intros Hv Hr Hnone.
  unfold initiateRidePayment. rewrite Hv. hcompute. rewrite Hr. simpl. by rewrite Hnone.
Qed.

Lemma initiateRidePayment_paid s caller rideId amount value paymentMethod ride i p :
  to_number amount = Some value →
  rides s !! rideId = Some ride →
  accepted_entry caller ride = Some (i, p) →
  Fare.status (Passenger.fare p) = FareStatus.paid →
  run (initiateRidePayment caller rideId amount paymentMethod) s =
    (Json 400 false "Payment already made for this ride", s).
Proof.
  unfold accepted_entry. intros Hv Hr Hfind Hpaid.
  unfold initiateRidePayment. rewrite Hv. hcompute. rewrite Hr. simpl. rewrite Hfind. simpl.
  by rewrite bool_decide_eq_true_2.
Qed.

Lemma initiateRidePayment_insufficient s caller rideId amount value ride i p user :
  to_number amount = Some value →
  rides s !! rideId = Some ride →
  accepted_entry caller ride = Some (i, p) →
  Fare.status (Passenger.fare p) ≠ FareStatus.paid →
  users s !! caller = Some user →
  (Wallet.balance (User.wallet user) < value)%Q →
  run (initiateRidePayment caller rideId amount "wallet") s =
    (Json 400 false "Insufficient wallet balance", s).
Proof.
  unfold accepted_entry. intros Hv Hr Hfind Hpaid Hu Hlt.
  unfold initiateRidePayment. rewrite Hv. hcompute. rewrite Hr. simpl. rewrite Hfind. simpl.
  rewrite bool_decide_eq_false_2 by done. simpl. rewrite Hu. simpl.
  destruct (Qlt_le_dec _ _) as [?|Hle]; [done|].
  by apply Qle_not_lt in Hle.
Qed.

Lemma initiateRidePayment_wallet s caller rideId amount ride i p user driver :
  rides s !! rideId = Some ride →
  accepted_entry caller ride = Some (i, p) →
  Fare.status (Passenger.fare p) ≠ FareStatus.paid →
  users s !! caller = Some user →
  users s !! Ride.driver ride = Some driver →
  Ride.driver ride ≠ caller →
  (amount <= Wallet.balance (User.wallet user))%Q →
  Ride_valid ride = true →
  run (initiateRidePayment caller rideId (Num amount) "wallet") s =
    (Json 200 true "",
     mkStore
       (<[Ride.driver ride := wallet_apply amount (length (transactions s)) driver]>
          (<[caller := wallet_apply (- amount) (length (transactions s)) user]> (users s)))
       (<[rideId := set_fare_at i p (Fare.mk (Some amount) "INR" FareStatus.paid) ride]>
          (rides s))
       (transactions s ++
          [ride_payment caller rideId ride amount TxStatus.completed "wallet"])
       (notifications s ++
          [Notification.mk (Ride.driver ride) caller "payment_received" (Some rideId)
             (Some (length (transactions s)))])).
Proof.
  unfold accepted_entry. intros Hr Hfind Hpaid Hu Hd Hne Hle Hv.
  unfold initiateRidePayment, User_credit. hcompute. rewrite Hr. simpl. rewrite Hfind. simpl.
  rewrite bool_decide_eq_false_2 by done. simpl. rewrite Hu. simpl.
  destruct (Qlt_le_dec _ _) as [Hlt|_]; [by apply Qlt_not_le in Hlt|]. simpl.
  rewrite lookup_insert_ne by done. rewrite Hd. simpl.
  unfold Ride_valid in Hv. by rewrite Hv.
Qed.

Lemma initiateRidePayment_other s caller rideId amount value paymentMethod ride i p :
  to_number amount = Some value →
  rides s !! rideId = Some ride →
  accepted_entry caller ride = Some (i, p) →
  Fare.status (Passenger.fare p) ≠ FareStatus.paid →
  paymentMethod ∈ ["card"; "upi"; "netbanking"; "cash"] →
  Ride_valid ride = true →
  run (initiateRidePayment caller rideId amount paymentMethod) s =
    (Json 200 true "",
     set_rides
       <[rideId := set_fare_at i p (Fare.mk (Some value) "INR" FareStatus.pending) ride]>
       (set_transactions
          (λ l, l ++ [ride_payment caller rideId ride value TxStatus.pending paymentMethod])
          s)).
Proof.
  unfold accepted_entry. intros Hval Hr Hfind Hpaid Hm Hv.
  unfold initiateRidePayment. rewrite Hval. hcompute. rewrite Hr. simpl. rewrite Hfind. simpl.
  rewrite bool_decide_eq_false_2 by done. simpl.
  unfold Ride_valid in Hv.
  repeat (apply elem_of_cons in Hm as [->|Hm]; [simpl; by rewrite Hv|]).
  by apply elem_of_nil in Hm.
Qed.

(** X18. A ride payment from the wallet, its amount sent as a JSON
    number, moves the amount once.  For an accepted passenger whose
    fare is not paid and whose balance covers the amount, paying a
    valid ride by wallet answers 200, records one completed
    transaction of the amount from the passenger to the driver, leaves
    the passenger with the balance minus the amount and the driver
    with the balance plus the amount, files the transaction in both
    wallets, marks the fare of the entry paid with that amount and
    notifies the driver; every later payment for that ride by that
    passenger, by whatever method, is refused with 400 and writes
    nothing. *)
Theorem initiateRidePayment_by_wallet s caller rideId amount ride i p user driver :
  rides s !! rideId = Some ride →
  accepted_entry caller ride = Some (i, p) →
  Fare.status (Passenger.fare p) ≠ FareStatus.paid →
  users s !! caller = Some user →
  users s !! Ride.driver ride = Some driver →
  Ride.driver ride ≠ caller →
  (amount <= Wallet.balance (User.wallet user))%Q →
  Ride_valid ride = true →
  let out := run (initiateRidePayment caller rideId (Num amount) "wallet") s in
  let txid := length (transactions s) in
  out.1 = Json 200 true "" ∧
  transactions out.2 =
    transactions s ++
      [Transaction.mk caller (Ride.driver ride) (Some rideId) amount
         TxType.ride_payment TxStatus.completed "wallet"] ∧
  (∃ user',
     users out.2 !! caller = Some user' ∧
     (Wallet.balance (User.wallet user') == Wallet.balance (User.wallet user) - amount)%Q ∧
     Wallet.transactions (User.wallet user') =
       Wallet.transactions (User.wallet user) ++ [txid]) ∧
  (∃ driver',
     users out.2 !! Ride.driver ride = Some driver' ∧
     (Wallet.balance (User.wallet driver') ==
        Wallet.balance (User.wallet driver) + amount)%Q ∧
     Wallet.transactions (User.wallet driver') =
       Wallet.transactions (User.wallet driver) ++ [txid]) ∧
  (∀ uid, uid ≠ caller → uid ≠ Ride.driver ride → users out.2 !! uid = users s !! uid) ∧
  (∃ ride',
     rides out.2 !! rideId = Some ride' ∧
     Ride.availableSeats ride' = Ride.availableSeats ride ∧
     Ride.passengers ride' =
       <[i := Passenger.set_fare (Fare.mk (Some amount) "INR" FareStatus.paid) p]>
         (Ride.passengers ride)) ∧
  notifications out.2 =
    notifications s ++
      [Notification.mk (Ride.driver ride) caller "payment_received" (Some rideId)
         (Some txid)] ∧
  ∀ amount' value' paymentMethod',
    to_number amount' = Some value' →
    run (initiateRidePayment caller rideId amount' paymentMethod') out.2 =
      (Json 400 false "Payment already made for this ride", out.2).
Proof.
  intros Hr Hfind Hpaid Hu Hd Hne Hle Hv out txid. subst out txid.
  rewrite (initiateRidePayment_wallet _ _ _ _ _ _ _ _ _ Hr Hfind Hpaid Hu Hd Hne Hle Hv).
  cbn [fst snd]. set (s1 := mkStore _ _ _ _).
  split_and!; try done.
  - eexists. split; [|split].
    + simpl. rewrite lookup_insert_ne by done. by rewrite lookup_insert_eq.
    + simpl. unfold Qminus. reflexivity.
    + done.
  - eexists. split; [|split].
    + simpl. by rewrite lookup_insert_eq.
    + simpl. reflexivity.
    + done.
  - intros uid H1 H2. simpl. by rewrite !lookup_insert_ne.
  - eexists. split; [|split].
    + simpl. apply list_lookup_insert_eq. by eapply lookup_lt_Some.
    + done.
    + done.
  - intros amount' value' paymentMethod' Hval.
    eapply initiateRidePayment_paid.
    + exact Hval.
    + simpl. apply list_lookup_insert_eq. by eapply lookup_lt_Some.
    + by apply accepted_entry_set_fare.
    + done.
Qed.

Lemma initiateRidePayment_by_wallet_witness :
  let s := mkStore (<[0 := user_with_balance 70]> (<[1 := user_with_balance 100]> ∅))
             [sample_ride 2 [sample_passenger 1 PassengerStatus.accepted]
                RideStatus.completed] [] [] in
  let out := run (initiateRidePayment 1 0 (Num 40) "wallet") s in
  out.1 = Json 200 true "" ∧
  (∃ user', users out.2 !! 1 = Some user' ∧ (Wallet.balance (User.wallet user') == 60)%Q) ∧
  (∃ driver',
     users out.2 !! 0 = Some driver' ∧ (Wallet.balance (User.wallet driver') == 110)%Q) ∧
  run (initiateRidePayment 1 0 (Num 40) "card") out.2 =
    (Json 400 false "Payment already made for this ride", out.2).
Proof.
  intros s out.
  destruct (initiateRidePayment_by_wallet s 1 0 40 _ 0 _ _ _
              eq_refl eq_refl ltac:(discriminate) eq_refl eq_refl ltac:(discriminate)
              ltac:(simpl; lra) eq_refl)
    as (H1 & _ & (user' & Hu & Hb & _) & (driver' & Hd & Hc & _) & _ & _ & _ & H4).
  split; [exact H1|]. split; [|split].
  - exists user'. split; [exact Hu|]. rewrite Hb. by vm_compute.
  - exists driver'. split; [exact Hd|]. rewrite Hc. by vm_compute.
  - exact (H4 (Num 40) 40%Q "card" eq_refl).
Defined.

(** The same payment with the amount sent as the string ["40"]: the
    passenger is debited 40 and the transaction records 40, but the
    driver's balance of 70 becomes 7040. *)
Example initiateRidePayment_text_amount :
  let s := mkStore (<[0 := user_with_balance 70]> (<[1 := user_with_balance 100]> ∅))
             [sample_ride 2 [sample_passenger 1 PassengerStatus.accepted]
                RideStatus.completed] [] [] in
  let out := run (initiateRidePayment 1 0 (Str "40") "wallet") s in
  out.1 = Json 200 true "" ∧
  (∃ x, transactions out.2 !! 0 = Some x ∧ (Transaction.amount x == 40)%Q) ∧
  (∃ u, users out.2 !! 1 = Some u ∧ (Wallet.balance (User.wallet u) == 60)%Q) ∧
  (∃ u, users out.2 !! 0 = Some u ∧ (Wallet.balance (User.wallet u) == 7040)%Q).
Proof.
  split_and!.
  - reflexivity.
  - eexists. split; [reflexivity | by vm_compute].
  - eexists. split; [reflexivity | by vm_compute].
  - eexists. split; [reflexivity | by vm_compute].
Qed.

(** X19. What stops a ride payment before anything is written: a
    caller without an accepted entry on the ride is answered 401, a
    fare already paid 400, and a wallet payment above the balance 400;
    the store is unchanged in each case.  The amount is one that the
    route's rule admits, a number or a numeric string. *)
Theorem initiateRidePayment_refused s caller rideId amount value paymentMethod ride :
  to_number amount = Some value →
  rides s !! rideId = Some ride →
  (accepted_entry caller ride = None →
   run (initiateRidePayment caller rideId amount paymentMethod) s =
     (Json 401 false "You are not a passenger in this ride", s)) ∧
  (∀ i p, accepted_entry caller ride = Some (i, p) →
          Fare.status (Passenger.fare p) = FareStatus.paid →
          run (initiateRidePayment caller rideId amount paymentMethod) s =
            (Json 400 false "Payment already made for this ride", s)) ∧
  (∀ i p user, accepted_entry caller ride = Some (i, p) →
               Fare.status (Passenger.fare p) ≠ FareStatus.paid →
               users s !! caller = Some user →
               (Wallet.balance (User.wallet user) < value)%Q →
               paymentMethod = "wallet" →
               run (initiateRidePayment caller rideId amount paymentMethod) s =
                 (Json 400 false "Insufficient wallet balance", s)).
Proof.
  intros Hval Hr. split_and!.
  - intros. by eapply initiateRidePayment_not_passenger.
  - intros. by eapply initiateRidePayment_paid.
  - intros i p user ? ? ? ? ->. by eapply initiateRidePayment_insufficient.
Qed.

Lemma initiateRidePayment_refused_witness :
  let s := mkStore (<[0 := user_with_balance 0]> (<[1 := user_with_balance 100]> ∅))
             [sample_ride 2 [sample_passenger 1 PassengerStatus.accepted]
                RideStatus.completed] [] [] in
  run (initiateRidePayment 1 0 (Num 140) "wallet") s =
    (Json 400 false "Insufficient wallet balance", s) ∧
  run (initiateRidePayment 1 0 (Str "140.5") "wallet") s =
    (Json 400 false "Insufficient wallet balance", s).
Proof.
  intros s. split.
  - refine (proj2 (proj2 (initiateRidePayment_refused s 1 0 (Num 140) 140 "wallet" _
                            eq_refl eq_refl))
              0 _ _ eq_refl _ eq_refl _ eq_refl).
    + simpl. discriminate.
    + simpl. lra.
  - refine (proj2 (proj2 (initiateRidePayment_refused s 1 0 (Str "140.5") _ "wallet" _
                            eq_refl eq_refl))
              0 _ _ eq_refl _ eq_refl _ eq_refl).
    + simpl. discriminate.
    + by vm_compute.
Defined.

(** X20. A ride payment by card, UPI, netbanking or cash moves no
    money and can be repeated: each call on a valid ride by an accepted
    passenger, with an amount that the route's rule admits, answers
    200, appends one pending transaction, sets the fare to pending and
    leaves every wallet as it was, so two calls leave two pending
    transactions for the same ride. *)
Theorem initiateRidePayment_pending_repeats s caller rideId amount value amount' value'
    paymentMethod paymentMethod' ride i p :
  to_number amount = Some value →
  to_number amount' = Some value' →
  rides s !! rideId = Some ride →
  accepted_entry caller ride = Some (i, p) →
  Fare.status (Passenger.fare p) ≠ FareStatus.paid →
  paymentMethod ∈ ["card"; "upi"; "netbanking"; "cash"] →
  paymentMethod' ∈ ["card"; "upi"; "netbanking"; "cash"] →
  Ride_valid ride = true →
  let out1 := run (initiateRidePayment caller rideId amount paymentMethod) s in
  let out2 := run (initiateRidePayment caller rideId amount' paymentMethod') out1.2 in
  out1.1 = Json 200 true "" ∧ out2.1 = Json 200 true "" ∧
  users out2.2 = users s ∧
  notifications out2.2 = notifications s ∧
  transactions out2.2 =
    transactions s ++
      [ride_payment caller rideId ride value TxStatus.pending paymentMethod;
       ride_payment caller rideId ride value' TxStatus.pending paymentMethod'] ∧
  rides out2.2 =
    <[rideId := set_fare_at i p (Fare.mk (Some value') "INR" FareStatus.pending) ride]>
      (rides s).
Proof.
  intros Hval Hval' Hr Hfind Hpaid Hm Hm' Hv out1 out2. subst out2 out1.
  rewrite (initiateRidePayment_other _ _ _ _ _ _ _ _ _ Hval Hr Hfind Hpaid Hm Hv).
  cbn [fst snd].
  set (ride1 := set_fare_at i p _ ride). set (s1 := set_rides _ _).
  assert (rides s1 !! rideId = Some ride1) as Hr1.
  { simpl. apply list_lookup_insert_eq. by eapply lookup_lt_Some. }
  rewrite (initiateRidePayment_other s1 _ _ _ _ _ ride1 i
             (Passenger.set_fare (Fare.mk (Some value) "INR" FareStatus.pending) p)
             Hval' Hr1);
    [| by apply accepted_entry_set_fare | done | done | done].
  simpl. split_and!; try done.
  - by rewrite <- app_assoc.
  - rewrite list_insert_insert_eq. f_equal.
    unfold set_fare_at. simpl. rewrite list_insert_insert_eq.
    pose proof Hfind as Hfind'. unfold accepted_entry in Hfind'.
    apply list_find_Some in Hfind' as (Hi & _ & _).
    by destruct ride, p.
Qed.

Lemma initiateRidePayment_pending_repeats_witness :
  let s := mkStore (<[0 := user_with_balance 0]> (<[1 := user_with_balance 100]> ∅))
             [sample_ride 2 [sample_passenger 1 PassengerStatus.accepted]
                RideStatus.completed] [] [] in
  let out1 := run (initiateRidePayment 1 0 (Num 40) "card") s in
  let out2 := run (initiateRidePayment 1 0 (Str "40") "upi") out1.2 in
  out2.1 = Json 200 true "" ∧ users out2.2 = users s ∧
  length (transactions out2.2) = 2.
Proof.
  intros s out1 out2.
  destruct (initiateRidePayment_pending_repeats s 1 0 (Num 40) 40 (Str "40") _
              "card" "upi" _ 0 _
              eq_refl eq_refl eq_refl eq_refl ltac:(discriminate)
              ltac:(by apply (bool_decide_unpack _))
              ltac:(by apply (bool_decide_unpack _)) eq_refl)
    as (_ & H1 & H2 & _ & H3 & _).
  split; [exact H1 | split; [exact H2 |]].
  subst out2 out1. rewrite H3. reflexivity.
Defined.

(** ** Refunds and completions *)

(** X21. A refund request never succeeds and never moves money.
    Whatever the store and the caller, [requestRefund] does not answer
    200: it stops at a guard with nothing written, or it records a
    pending refund and then fails on the notification, whose type
    [refund_requested] the notification schema does not list.  Users,
    rides and notifications are never changed. *)
Theorem requestRefund_never_confirms s caller rideId :
  let out := run (requestRefund caller rideId) s in
  out.1 ≠ Json 200 true "" ∧
  users out.2 = users s ∧ rides out.2 = rides s ∧
  notifications out.2 = notifications s ∧
  (transactions out.2 = transactions s ∨
   out.1 = Next (ValidationError "type") ∧
   ∃ x, transactions out.2 = transactions s ++ [x] ∧
        Transaction.type x = TxType.refund ∧
        Transaction.status x = TxStatus.pending ∧
        Transaction.receiver x = caller).
Proof.
  intros out. subst out.
  pattern (run (requestRefund caller rideId) s). apply wp_run_pair.
  hsteps; simpl; split_and!; try done; auto.
  right. split; [done|]. eexists. by split.
Qed.

Lemma requestRefund_run s caller rideId ride i p j x :
  rides s !! rideId = Some ride →
  accepted_entry caller ride = Some (i, p) →
  Fare.status (Passenger.fare p) = FareStatus.paid →
  list_find (settled_payment caller rideId ride) (transactions s) = Some (j, x) →
  Transaction.paymentMethod x ∈ paymentMethod_enum →
  run (requestRefund caller rideId) s =
    (Next (ValidationError "type"),
     set_transactions (λ l, l ++ [refund_of caller rideId ride x]) s).
Proof.
  unfold accepted_entry. intros Hr Hfind Hpaid Hx Hm.
  unfold requestRefund, Transaction_findOne_payment. hcompute.
  rewrite Hr. simpl. rewrite Hfind. simpl.
  rewrite bool_decide_eq_false_2 by (by intros ?). simpl.
  unfold settled_payment in Hx. rewrite Hx. simpl.
  by rewrite bool_decide_eq_true_2.
Qed.

(** X22. Paying by wallet and then asking for the money back: after
    the wallet payment of an accepted passenger (the first payment of
    this passenger for this ride), the passenger's refund request
    records a pending refund of the amount paid, from the driver to the
    passenger, and is answered with the forwarded validation error
    (500); both wallets keep the balances that the payment left. *)
Theorem refund_after_wallet_payment s caller rideId amount ride i p user driver :
  rides s !! rideId = Some ride →
  accepted_entry caller ride = Some (i, p) →
  Fare.status (Passenger.fare p) ≠ FareStatus.paid →
  users s !! caller = Some user →
  users s !! Ride.driver ride = Some driver →
  Ride.driver ride ≠ caller →
  (amount <= Wallet.balance (User.wallet user))%Q →
  Ride_valid ride = true →
  (∀ x, x ∈ transactions s → ¬ settled_payment caller rideId ride x) →
  let s1 := (run (initiateRidePayment caller rideId (Num amount) "wallet") s).2 in
  let out := run (requestRefund caller rideId) s1 in
  status_code out.1 = 500 ∧
  transactions out.2 =
    transactions s ++
      [ride_payment caller rideId ride amount TxStatus.completed "wallet";
       Transaction.mk (Ride.driver ride) caller (Some rideId) amount
         TxType.refund TxStatus.pending "wallet"] ∧
  users out.2 = users s1 ∧ rides out.2 = rides s1 ∧
  notifications out.2 = notifications s1.
Proof.
  intros Hr Hfind Hpaid Hu Hd Hne Hle Hv Hfirst s1 out. subst out s1.
  rewrite (initiateRidePayment_wallet _ _ _ _ _ _ _ _ _ Hr Hfind Hpaid Hu Hd Hne Hle Hv).
  cbn [fst snd]. set (s1 := mkStore _ _ _ _).
  set (pay := ride_payment caller rideId ride amount TxStatus.completed "wallet").
  rewrite (requestRefund_run s1 caller rideId
             (set_fare_at i p (Fare.mk (Some amount) "INR" FareStatus.paid) ride) i
             (Passenger.set_fare (Fare.mk (Some amount) "INR" FareStatus.paid) p)
             (length (transactions s)) pay).
  - simpl. split_and!; try done. by rewrite <- app_assoc.
  - simpl. apply list_lookup_insert_eq. by eapply lookup_lt_Some.
  - by apply accepted_entry_set_fare.
  - done.
  - simpl. apply list_find_Some. split; [|split].
    + by apply list_lookup_middle.
    + by unfold settled_payment, pay.
    + intros k y Hk Hlt. rewrite lookup_app_l in Hk by done.
      apply Hfirst. by eapply list_elem_of_lookup_2.
  - simpl. in_enum.
Qed.

Lemma refund_after_wallet_payment_witness :
  let s := mkStore (<[0 := user_with_balance 0]> (<[1 := user_with_balance 100]> ∅))
             [sample_ride 2 [sample_passenger 1 PassengerStatus.accepted]
                RideStatus.completed] [] [] in
  let s1 := (run (initiateRidePayment 1 0 (Num 40) "wallet") s).2 in
  let out := run (requestRefund 1 0) s1 in
  status_code out.1 = 500 ∧ users out.2 = users s1.
Proof.
  intros s s1 out.
  destruct (refund_after_wallet_payment s 1 0 40 _ 0 _ _ _
              eq_refl eq_refl ltac:(discriminate) eq_refl eq_refl ltac:(discriminate)
              ltac:(simpl; lra) eq_refl)
    as (H1 & _ & H2 & _).
  - intros x Hx. by apply elem_of_nil in Hx.
  - split; [exact H1 | exact H2].
Defined.

(** X23. Completing a payment needs the transaction and its sender: an
    identifier that names no transaction is answered 404, a caller
    other than the sender 401, and nothing is written. *)
Theorem completeRidePayment_guards s caller rideId txid :
  (transactions s !! txid = None →
   run (completeRidePayment caller rideId txid) s =
     (Json 404 false "Transaction not found", s)) ∧
  (∀ tx, transactions s !! txid = Some tx →
         Transaction.sender tx ≠ caller →
         run (completeRidePayment caller rideId txid) s =
           (Json 401 false "Not authorized to complete this transaction", s)).
Proof.
  split.
  - intros Hnone. unfold completeRidePayment. hcompute. by rewrite Hnone.
  - intros tx Htx Hne. unfold completeRidePayment. hcompute. rewrite Htx. simpl.
    by rewrite bool_decide_eq_true_2.
Qed.

Lemma completeRidePayment_guards_witness :
  run (completeRidePayment 0 0 0) ledger_store =
    (Json 401 false "Not authorized to complete this transaction", ledger_store) ∧
  run (completeRidePayment 1 0 7) ledger_store =
    (Json 404 false "Transaction not found", ledger_store).
Proof.
  split.
  - refine (proj2 (completeRidePayment_guards ledger_store 0 0 0) _ eq_refl _).
    simpl. discriminate.
  - exact (proj1 (completeRidePayment_guards ledger_store 1 0 7) eq_refl).
Defined.

(** ** Money *)

Lemma wk_refl s : wallets_kept s s.
Proof. done. Qed.

Lemma wk_rides f s0 s : wallets_kept s0 s → wallets_kept s0 (set_rides f s).
Proof. done. Qed.

Lemma wk_notifications f s0 s : wallets_kept s0 s → wallets_kept s0 (set_notifications f s).
Proof. done. Qed.

Lemma wk_transactions f s0 s : wallets_kept s0 s → wallets_kept s0 (set_transactions f s).
Proof. done. Qed.

Lemma wk_users_alter f uid s0 s :
  wallets_kept s0 s →
  (∀ u, User.wallet (f u) = User.wallet u) →
  wallets_kept s0 (set_users (alter f uid) s).
Proof.
  intros H Hf uid0. rewrite <- H. simpl.
  destruct (decide (uid = uid0)) as [->|Hne].
  - rewrite lookup_alter_eq. destruct (users s !! uid0); simpl; [|done]. by rewrite Hf.
  - by rewrite lookup_alter_ne.
Qed.

Lemma wk_users_insert uid u0 u s0 s :
  wallets_kept s0 s →
  users s !! uid = Some u0 →
  User.wallet u = User.wallet u0 →
  wallets_kept s0 (set_users <[uid := u]> s).
Proof.
  intros H Hu0 Hw uid0. rewrite <- H. simpl.
  destruct (decide (uid = uid0)) as [->|Hne].
  - rewrite lookup_insert_eq, Hu0. simpl. by rewrite Hw.
  - by rewrite lookup_insert_ne.
Qed.

Lemma wk_trans s0 s1 s2 : wallets_kept s0 s1 → wallets_kept s1 s2 → wallets_kept s0 s2.
Proof. intros H1 H2 uid. by rewrite H2, H1. Qed.

Ltac keeps_wallets :=
  repeat first
    [ assumption
    | apply wk_refl
    | apply wk_rides
    | apply wk_notifications
    | apply wk_transactions
    | apply wk_users_alter; [| solve [by intros []] ]
    | eapply wk_users_insert;
      [| solve [simpl in *; eassumption]
       | solve [unfold add_impact; repeat case_decide; done] ] ].

Ltac loop_keeps_wallets s0 :=
  apply (wp_for_each _ _ (wallets_kept s0));
  [ keeps_wallets
  | let H1 := fresh "H1" in intros ? ? _ H1; hsteps; keeps_wallets
  | let o := fresh "o" in let H' := fresh "Hs'" in
    intros o ? H'; destruct o as [?|[]]; cbn beta iota ].

Lemma served_wallets_kept s req : ¬ moves_money req → wallets_kept s (served s req).
Proof.
  intros Hreq.
  apply (served_wp wallets_kept).
  destruct req as [op | op | | | | |]; simpl; [destruct op | by destruct Hreq | ..]; simpl.
  - hsteps; keeps_wallets.
  - hsteps; keeps_wallets.
  - hsteps; keeps_wallets.
  - hsteps; keeps_wallets.
  - hsteps; keeps_wallets. loop_keeps_wallets s; hsteps; keeps_wallets.
  - hsteps; keeps_wallets. loop_keeps_wallets s; hsteps; keeps_wallets.
  - hsteps; keeps_wallets. loop_keeps_wallets s; hsteps; keeps_wallets.
  - hsteps; keeps_wallets.
  - hsteps; keeps_wallets.
    match goal with H : bool_decide _ = true |- _ => by vm_compute in H end.
  - hsteps; keeps_wallets.
  - hsteps; keeps_wallets.
  - hsteps; keeps_wallets. loop_keeps_wallets s; hsteps; keeps_wallets.
  - hsteps; keeps_wallets.
Qed.

(** X24. Only three handlers move money.  A request of [Request]
    that is not a top-up, a ride payment or a payment completion leaves
    every wallet,
    balance and transaction list, as it was: rides, cancellations,
    ratings, alerts and vehicle updates never touch a wallet, and
    neither do withdrawals and refund requests. *)
Theorem only_payments_move_money s reqs uid :
  Forall (λ req, ¬ moves_money req) reqs →
  User.wallet <$> users (served_all reqs s) !! uid = User.wallet <$> users s !! uid.
Proof.
  intros Hreqs. revert s.
  induction Hreqs as [|req reqs Hreq _ IH]; intros s; simpl; [done|].
  rewrite IH. by apply served_wallets_kept.
Qed.

Lemma only_payments_move_money_witness :
  User.wallet <$>
    users (served_all [WithdrawFunds 1 40; RequestRefund 1 0;
                       OnRide (CancelRide 0 0 "rain" 10)] ledger_store) !! 1 =
  User.wallet <$> users ledger_store !! 1.
Proof.
  apply (only_payments_move_money ledger_store
           [WithdrawFunds 1 40; RequestRefund 1 0; OnRide (CancelRide 0 0 "rain" 10)] 1).
  repeat constructor; simpl; tauto.
Defined.

Lemma sv_rides f s : solvent s → solvent (set_rides f s).
Proof. done. Qed.

Lemma sv_notifications f s : solvent s → solvent (set_notifications f s).
Proof. done. Qed.

Lemma sv_transactions_app x s :
  solvent s → (0 <= Transaction.amount x)%Q →
  solvent (set_transactions (λ l, l ++ [x]) s).
Proof.
  intros [Hu Ht] Hx. split; [done|]. simpl. intros id y Hy.
  apply lookup_app_Some in Hy as [Hy|[_ Hy]]; [by eapply Ht|].
  apply list_lookup_singleton_Some in Hy as [_ <-]. done.
Qed.

Lemma sv_transactions_insert i x s :
  solvent s → (0 <= Transaction.amount x)%Q →
  solvent (set_transactions <[i := x]> s).
Proof.
  intros [Hu Ht] Hx. split; [done|]. simpl. intros id y Hy.
  apply list_lookup_insert_Some in Hy as [(_ & <- & _)|[_ Hy]]; [done | by eapply Ht].
Qed.

Lemma sv_users_alter f uid s :
  solvent s →
  (∀ u, User.wallet (f u) = User.wallet u) →
  solvent (set_users (alter f uid) s).
Proof.
  intros [Hu Ht] Hf. split; [|done]. simpl. intros uid0 u Hlook.
  apply lookup_alter_Some in Hlook as [(_ & u0 & Hu0 & ->)|[_ Hlook]].
  - rewrite Hf. by eapply Hu.
  - by eapply Hu.
Qed.

Lemma sv_users_insert uid u0 u s :
  solvent s →
  users s !! uid = Some u0 →
  ((0 <= Wallet.balance (User.wallet u0))%Q → (0 <= Wallet.balance (User.wallet u))%Q) →
  solvent (set_users <[uid := u]> s).
Proof.
  intros [Hu Ht] Hu0 Hside. split; [|done]. simpl. intros uid0 u1 Hlook.
  apply lookup_insert_Some in Hlook as [[<- <-]|[_ Hlook]].
  - apply Hside. by eapply Hu.
  - by eapply Hu.
Qed.

Lemma findOne_stored {A} (P : A → Prop) `{∀ x, Decision (P x)} (l : list A) x :
  snd <$> list_find P l = Some x → ∃ j, l !! j = Some x.
Proof.
  destruct (list_find P l) as [[j y]|] eqn:E; simpl; [|done].
  intros [= <-]. apply list_find_Some in E as (Hj & _ & _). by exists j.
Qed.

Lemma Qdiv_nonneg (a b : Q) : (0 <= a)%Q → (0 <= b)%Q → (0 <= a / b)%Q.
Proof.
  intros Ha Hb. unfold Qdiv. apply Qmult_le_0_compat; [done|].
  by apply Qinv_le_0_compat.
Qed.

(** *** What adding a payload to a balance can give *)

Lemma digit_nonneg c d : digit c = Some d → (0 ≤ d)%Z.
Proof.
  unfold digit. case_bool_decide; [|done]. intros [= <-]. lia.
Qed.

Lemma digit_no_sign c d : digit c = Some d → c ≠ "-"%char ∧ c ≠ "+"%char.
Proof. intros H. split; intros ->; by vm_compute in H. Qed.

Lemma decimal_nonneg s m places ended m' k :
  decimal s m places ended = Some (m', k) → (0 ≤ m)%Z → (0 ≤ m')%Z.
Proof.
  revert m places ended. induction s as [|c s IH]; intros m places ended; simpl.
  - destruct ended; [|done]. by intros [= <- _].
  - destruct (digit c) as [d|] eqn:Ed.
    + intros H Hm. apply (IH _ _ _ H). pose proof (digit_nonneg _ _ Ed). lia.
    + case_decide; [|done]. destruct places; [done|]. apply IH.
Qed.

(** A numeral that starts with a digit does not read as a negative
    number. *)
Lemma numeric_unsigned c d s q :
  digit c = Some d → numeric (String c s) = Some q → (0 <= q)%Q.
Proof.
  intros Ed. destruct (digit_no_sign _ _ Ed) as [Hm Hp].
  unfold numeric, signed. rewrite !decide_False by done. cbn [fst snd].
  destruct (decimal _ _ _ _) as [[m k]|] eqn:E; [|done].
  intros [= <-]. apply decimal_nonneg in E; [|done].
  apply Qdiv_nonneg.
  - rewrite Z.mul_1_l. change 0%Q with (inject_Z 0). by rewrite <- Zle_Qle.
  - change 0%Q with (inject_Z 0). rewrite <- Zle_Qle. apply Z.pow_nonneg. lia.
Qed.

Lemma string_of_uint_digit (u : Decimal.uint) :
  ∃ c s d, NilZero.string_of_uint u = String c s ∧ digit c = Some d.
Proof. destruct u; simpl; by eexists _, _, _. Qed.

(** The printing of a number that is not negative starts with a
    digit. *)
Lemma Number_toString_digit x :
  (0 <= x)%Q → ∃ c s d, Number_toString x = String c s ∧ digit c = Some d.
Proof.
  intros Hx. unfold Number_toString.
  assert (0 ≤ Qnum x)%Z as Hnum.
  { unfold Qle in Hx. simpl in Hx. lia. }
  rewrite (proj2 (Z.ltb_ge _ _)) by done. simpl.
  assert (0 ≤ Z.abs (Qnum x) / Z.pos (Qden x))%Z as Hdiv.
  { apply Z.div_pos; lia. }
  destruct (Z.abs (Qnum x) / Z.pos (Qden x))%Z as [|n|n] eqn:E; [| |lia].
  - simpl. by eexists _, _, _.
  - unfold Z.to_int, NilZero.string_of_int.
    destruct (string_of_uint_digit (Pos.to_uint n)) as (c & s & d & -> & Hd).
    simpl. by eexists _, _, _.
Qed.

(** A balance that is not negative stays so when a payload that is not
    negative is added to it, as a number or as a string. *)
Lemma js_plus_nonneg x amount q :
  js_plus x amount = Some q →
  (0 <= x)%Q →
  (∀ value, to_number amount = Some value → (0 <= value)%Q) →
  (0 <= q)%Q.
Proof.
  destruct amount as [v|s]; simpl.
  - intros [= <-] Hx Hv. specialize (Hv v eq_refl). lra.
  - intros Hq Hx _.
    destruct (Number_toString_digit x Hx) as (c & s' & d & E & Hd).
    rewrite E in Hq. simpl in Hq. by eapply numeric_unsigned.
Qed.

(** The arithmetic of a wallet update. *)
Ltac sv_side :=
  let Hb := fresh "Hb" in
  intros Hb; unfold wallet_apply, add_impact; repeat case_decide; simpl in *;
  repeat match goal with
         | H : (if Qlt_le_dec ?a ?b then true else false) = _ |- _ =>
             destruct (Qlt_le_dec a b); [discriminate H | clear H]
         end;
  first [ assumption | lra
        | eapply js_plus_nonneg;
          [ eassumption
          | first [assumption | lra]
          | let v := fresh "v" in let Hv := fresh "Hv" in
            intros v Hv;
            match goal with
            | H : to_number _ = Some ?q |- _ => assert (v = q) as -> by congruence
            end;
            assumption ] ].

Ltac stays_solvent :=
  repeat first
    [ assumption
    | apply sv_rides
    | apply sv_notifications
    | apply sv_transactions_app; [| solve [simpl; first [assumption | lra]] ]
    | apply sv_transactions_insert; [| solve [simpl; first [assumption | lra]] ]
    | apply sv_users_alter; [| solve [by intros []] ]
    | eapply sv_users_insert; [| solve [simpl in *; eassumption] | solve [sv_side] ] ].

Ltac loop_stays_solvent :=
  apply (wp_for_each _ _ solvent);
  [ stays_solvent
  | let H1 := fresh "H1" in intros ? ? _ H1; hsteps; stays_solvent
  | let o := fresh "o" in let H' := fresh "Hs'" in
    intros o ? H'; destruct o as [?|[]]; cbn beta iota ].

Lemma served_solvent s req : solvent s → amount_nonnegative req → solvent (served s req).
Proof.
  intros Hinv Hreq.
  apply (served_wp (λ _ s', solvent s')).
  destruct req as [op | op | | | | |]; simpl; [destruct op | destruct op | ..]; simpl in *.
  - hsteps; stays_solvent.
  - hsteps; stays_solvent.
  - hsteps; stays_solvent.
  - hsteps; stays_solvent.
  - hsteps; stays_solvent. loop_stays_solvent; hsteps; stays_solvent.
  - hsteps; stays_solvent. loop_stays_solvent; hsteps; stays_solvent.
  - hsteps; stays_solvent. loop_stays_solvent; hsteps; stays_solvent.
  - hsteps; stays_solvent.
  - hsteps.
    all: try pose proof (Hreq _ eq_refl) as Hpos.
    all: stays_solvent.
  - hsteps.
    all: try pose proof (Hreq _ eq_refl) as Hpos.
    all: stays_solvent.
  - hsteps.
    all: match goal with
         | H : transactions _ !! _ = Some ?t |- _ =>
             pose proof (proj2 Hinv _ _ H)
         | _ => idtac
         end.
    all: stays_solvent.
  - hsteps; stays_solvent.
    match goal with H : bool_decide _ = true |- _ => by vm_compute in H end.
  - hsteps.
    all: match goal with
         | H : snd <$> list_find _ _ = Some _ |- _ =>
             let j := fresh "j" in let Hj := fresh "Hj" in
             destruct (findOne_stored _ _ _ H) as [j Hj];
             pose proof (proj2 Hinv _ _ Hj)
         | _ => idtac
         end.
    all: stays_solvent.
  - hsteps; stays_solvent.
  - hsteps; stays_solvent. loop_stays_solvent; hsteps; stays_solvent.
  - hsteps; stays_solvent.
Qed.

(** X25. No wallet is overdrawn.  From a store in which no balance and
    no stored amount is negative, every sequence of requests of
    [Request] whose top-ups and ride payments carry non-negative amounts leads to such
    a store again: a wallet payment is only taken when the balance
    covers it, and nothing else debits a wallet. *)
Theorem wallets_never_overdrawn s reqs uid u :
  solvent s →
  Forall amount_nonnegative reqs →
  users (served_all reqs s) !! uid = Some u →
  (0 <= Wallet.balance (User.wallet u))%Q.
Proof.
  intros Hinv Hreqs.
  assert (solvent (served_all reqs s)) as [H _]; [|by apply H].
  revert s Hinv. induction Hreqs as [|req reqs Hreq _ IH]; intros s Hinv; simpl; [done|].
  apply IH. by apply served_solvent.
Qed.

Lemma wallets_never_overdrawn_witness :
  match users (served_all [OnLedger (InitiateRidePayment 1 0 (Num 60) "wallet");
                           WithdrawFunds 1 30;
                           OnLedger (CompleteRidePayment 1 0 0)] ledger_store) !! 1 with
  | Some u => (0 <= Wallet.balance (User.wallet u))%Q
  | None => True
  end.
Proof.
  destruct (users (served_all [OnLedger (InitiateRidePayment 1 0 (Num 60) "wallet");
                               WithdrawFunds 1 30;
                               OnLedger (CompleteRidePayment 1 0 0)] ledger_store) !! 1)
    as [u|] eqn:E; [|exact I].
  apply (wallets_never_overdrawn ledger_store
           [OnLedger (InitiateRidePayment 1 0 (Num 60) "wallet"); WithdrawFunds 1 30;
            OnLedger (CompleteRidePayment 1 0 0)] 1 u); [| | exact E].
  - split.
    + intros uid u0 Hu0. unfold ledger_store in Hu0. simpl in Hu0.
      apply lookup_insert_Some in Hu0 as [[_ <-]|[_ Hu0]]; [simpl; lra|].
      apply lookup_insert_Some in Hu0 as [[_ <-]|[_ Hu0]]; [simpl; lra|].
      by apply lookup_empty_Some in Hu0.
    + intros id x Hx. unfold ledger_store in Hx. simpl in Hx.
      destruct id as [|[|id]]; simpl in Hx; simplify_eq; simpl; lra.
  - repeat constructor; simpl; try done. intros value [= <-]. lra.
Defined.

(** ** Safety alerts *)






(** ** Creating rides and the vehicle *)

Lemma createRide_run s caller body user :
  users s !! caller = Some user →
  plain_body body →
  (1 ≤ body_availableSeats body)%Z →
  run (createRide caller body) s =
    (Json 201 true "",
     set_users
       <[caller := User.set_ridesAsDriver (User.ridesAsDriver user ++ [length (rides s)]) user]>
       (set_rides (λ l, l ++ [created caller user body]) s)).
Proof.
  intros Hu ([eta Heta] & Hps & Hst & Hloc & Hreason & Htime) Hseats.
  unfold createRide, Ride_new. hcompute. rewrite Hu. simpl.
  rewrite Heta, Hps, Hst. simpl.
  rewrite (proj2 (Z.leb_le 1 _)) by done. simpl.
  unfold created. by rewrite Hloc, Hreason, Htime.
Qed.

Lemma createRide_no_arrival s caller body user :
  users s !! caller = Some user →
  body_estimatedArrivalTime body = None →
  run (createRide caller body) s = (Next (ValidationError "estimatedArrivalTime"), s).
Proof.
  intros Hu Heta. unfold createRide, Ride_new. hcompute. rewrite Hu. simpl.
  by rewrite Heta.
Qed.

Lemma updateVehicleDetails_run s caller body user :
  users s !! caller = Some user →
  run (updateVehicleDetails caller body) s =
    (Json 200 true "", set_users (alter (User_set_vehicle body) caller) s).
Proof.
  intros Hu. unfold updateVehicleDetails. hcompute.
  by rewrite lookup_alter_eq, Hu.
Qed.

(** X27. A ride carries the vehicle of the day it was offered.  A
    ride created by a registered user from a payload that brings an
    arrival time and at least one seat, and no passengers, status,
    location or cancellation of its own, is stored under the next
    identifier, scheduled, without passengers, with the user's vehicle
    as it is then, and is filed in the user's rides as driver.  When
    the user updates the vehicle afterwards, the stored ride keeps the
    old vehicle, and the next ride they create carries the new one.  A
    payload without [estimatedArrivalTime] is refused by the schema:
    the error is forwarded (answered 500) and nothing is written. *)
Theorem vehicle_snapshot s caller body vehicle body' user :
  users s !! caller = Some user →
  plain_body body → plain_body body' →
  (1 ≤ body_availableSeats body)%Z →
  (1 ≤ body_availableSeats body')%Z →
  let out1 := run (createRide caller body) s in
  let out2 := run (updateVehicleDetails caller vehicle) out1.2 in
  let out3 := run (createRide caller body') out2.2 in
  out1.1 = Json 201 true "" ∧ out2.1 = Json 200 true "" ∧ out3.1 = Json 201 true "" ∧
  rides out1.2 = rides s ++ [created caller user body] ∧
  rides out2.2 = rides out1.2 ∧
  (∃ r1 r2,
     rides out3.2 = rides s ++ [r1; r2] ∧
     r1 = created caller user body ∧
     Ride.vehicle r1 = User.vehicle user ∧
     Ride.driver r1 = caller ∧ Ride.passengers r1 = [] ∧
     Ride.status r1 = RideStatus.scheduled ∧
     Ride.availableSeats r1 = body_availableSeats body ∧
     Ride.vehicle r2 = vehicle ∧
     Ride.driver r2 = caller ∧ Ride.passengers r2 = [] ∧
     Ride.status r2 = RideStatus.scheduled ∧
     Ride.availableSeats r2 = body_availableSeats body') ∧
  (∃ user3,
     users out3.2 !! caller = Some user3 ∧
     User.vehicle user3 = vehicle ∧
     User.ridesAsDriver user3 =
       User.ridesAsDriver user ++ [length (rides s); S (length (rides s))]) ∧
  ∀ body0,
    body_estimatedArrivalTime body0 = None →
    run (createRide caller body0) s = (Next (ValidationError "estimatedArrivalTime"), s) ∧
    status_code (run (createRide caller body0) s).1 = 500.
Proof.
  intros Hu Hplain Hplain' Hseats Hseats' out1 out2 out3. subst out3 out2 out1.
  rewrite (createRide_run _ _ _ _ Hu Hplain Hseats). cbn [fst snd].
  set (s1 := set_users _ _).
  erewrite (updateVehicleDetails_run s1); [|apply lookup_insert_eq]. cbn [fst snd].
  set (s2 := set_users _ s1).
  erewrite (createRide_run s2);
    [| simpl; rewrite lookup_alter_eq, lookup_insert_eq; done | done | done].
  simpl. split_and!; try done.
  - eexists _, _. split; [by rewrite <- app_assoc|]. done.
  - eexists. split; [apply lookup_insert_eq|]. simpl. split; [done|].
    rewrite length_app, <- app_assoc. simpl. do 3 f_equal. lia.
  - intros body0 Heta. by rewrite (createRide_no_arrival _ _ _ _ Hu Heta).
Qed.

Lemma vehicle_snapshot_witness :
  let s := sample_store (sample_ride 2 [] RideStatus.completed) in
  let body := sample_body 3 [] None in
  let late := mkCreateRideBody sample_place sample_place (Some 10%Q) None 3 [] None
                None None None in
  let out1 := run (createRide 0 body) s in
  let out2 := run (updateVehicleDetails 0 (Vehicle.mk (Some 20%Q))) out1.2 in
  let out3 := run (createRide 0 body) out2.2 in
  (∃ r1 r2,
     rides out3.2 = rides s ++ [r1; r2] ∧
     Ride.vehicle r1 = Vehicle.mk None ∧ Ride.vehicle r2 = Vehicle.mk (Some 20%Q)) ∧
  run (createRide 0 late) s = (Next (ValidationError "estimatedArrivalTime"), s).
Proof.
  intros s body late out1 out2 out3.
  destruct (vehicle_snapshot s 0 body (Vehicle.mk (Some 20%Q)) body User.fresh eq_refl)
    as (_ & _ & _ & _ & _ & (r1 & r2 & H1 & _ & H2 & _ & _ & _ & _ & H3 & _) & _ & H4).
  - unfold plain_body. simpl. by split_and!.
  - unfold plain_body. simpl. by split_and!.
  - simpl. lia.
  - simpl. lia.
  - split.
    + exists r1, r2. split; [exact H1 | split; [exact H2 | exact H3]].
    + exact (proj1 (H4 late eq_refl)).
Defined.

(** ** Impact accumulators *)

Lemma impact_le_refl i : impact_le i i.
Proof. unfold impact_le. split_and!; apply Qle_refl. Qed.

Lemma impact_le_trans i1 i2 i3 : impact_le i1 i2 → impact_le i2 i3 → impact_le i1 i3.
Proof.
  intros (?&?&?) (?&?&?). unfold impact_le. split_and!; by eapply Qle_trans.
Qed.

Lemma impact_le_add co2 fuel trees u :
  (0 <= co2)%Q → (0 <= fuel)%Q → (0 <= trees)%Q →
  impact_le (User.environmentalImpact u)
    (User.environmentalImpact (add_impact co2 fuel trees u)).
Proof. intros. unfold impact_le, add_impact. simpl. split_and!; lra. Qed.

Lemma ig_refl s : impacts_grow s s.
Proof. intros uid u Hu. exists u. split; [done | apply impact_le_refl]. Qed.

Lemma ig_rides f s0 s : impacts_grow s0 s → impacts_grow s0 (set_rides f s).
Proof. done. Qed.

Lemma ig_notifications f s0 s : impacts_grow s0 s → impacts_grow s0 (set_notifications f s).
Proof. done. Qed.

Lemma ig_users_insert uid u0 u s0 s :
  impacts_grow s0 s →
  users s !! uid = Some u0 →
  impact_le (User.environmentalImpact u0) (User.environmentalImpact u) →
  impacts_grow s0 (set_users <[uid := u]> s).
Proof.
  intros H Hu0 Hle uid0 v Hv. destruct (H uid0 v Hv) as (v' & Hv' & Hle'). simpl.
  destruct (decide (uid = uid0)) as [->|Hne].
  - rewrite lookup_insert_eq. exists u. split; [done|].
    eapply impact_le_trans; [exact Hle'|]. by assert (v' = u0) as -> by congruence.
  - rewrite lookup_insert_ne by done. by exists v'.
Qed.

Lemma inject_nat_nonneg (n : nat) : (0 <= inject_Z (Z.of_nat n))%Q.
Proof. unfold Qle. simpl. lia. Qed.

Lemma or_default_nonneg (o : option Q) (d : Q) :
  match o with Some x => (0 <= x)%Q | None => True end →
  (0 <= d)%Q → (0 <= or_default o d)%Q.
Proof.
  intros Ho Hd. unfold or_default. destruct o as [x|]; [|done].
  by destruct (Qeq_bool x 0).
Qed.

(** The figures of a trip with non-negative distance and efficiency are
    not negative. *)
Lemma trip_figures_nonneg ride :
  nonnegative_trip ride →
  (0 <= trip_fuelSaved ride)%Q ∧ (0 <= trip_co2Saved ride)%Q ∧
  (0 <= trip_treesEquivalent ride)%Q.
Proof.
  intros [Hd He].
  assert (0 <= trip_fuelSaved ride)%Q as Hf.
  { unfold trip_fuelSaved. apply Qdiv_nonneg.
    - apply Qmult_le_0_compat; [|apply inject_nat_nonneg].
      apply or_default_nonneg; [done | lra].
    - apply or_default_nonneg; [done | lra]. }
  assert (0 <= trip_co2Saved ride)%Q as Hc.
  { unfold trip_co2Saved. apply Qmult_le_0_compat; [done | lra]. }
  split_and!; try done.
  unfold trip_treesEquivalent. apply Qdiv_nonneg; [done | lra].
Qed.

Lemma completeRide_wp_impacts s caller rid now :
  (∀ ride, rides s !! rid = Some ride → nonnegative_trip ride) →
  wp (completeRide caller rid now) (λ _ s', impacts_grow s s') s.
Proof.
  intros Hok. hsteps.
  all: try apply ig_refl.
  all: try (apply ig_rides, ig_refl).
  match goal with H : rides _ !! _ = Some ?r |- _ =>
    destruct (trip_figures_nonneg (completed now r)) as (Hf & Hc & Ht);
      [exact (Hok _ eq_refl)|] end.
  apply (wp_for_each _ _ (impacts_grow s)).
  - eapply ig_users_insert; [apply ig_rides, ig_refl | simpl in *; eassumption |].
    by apply impact_le_add.
  - intros p s1 _ H1. hsteps.
    all: try done.
    all: try by apply ig_notifications.
    eapply ig_users_insert; [by apply ig_notifications | simpl in *; eassumption |].
    apply impact_le_add; (apply Qdiv_nonneg; [done | apply inject_nat_nonneg]).
  - intros [r|[]] s' Hs'; [done|]. by hsteps.
Qed.

(** X28. Completing a ride never lowers an impact accumulator.  When
    the distance and the fuel efficiency recorded on the ride are not
    negative, then after [completeRide], whatever its outcome, every
    user is still stored and none of the three accumulators of any user
    is below what it was. *)
Theorem completeRide_impact_grows s caller rid now uid u :
  (∀ ride, rides s !! rid = Some ride → nonnegative_trip ride) →
  users s !! uid = Some u →
  ∃ u', users (run (completeRide caller rid now) s).2 !! uid = Some u' ∧
        (Impact.co2Saved (User.environmentalImpact u) <=
           Impact.co2Saved (User.environmentalImpact u'))%Q ∧
        (Impact.fuelSaved (User.environmentalImpact u) <=
           Impact.fuelSaved (User.environmentalImpact u'))%Q ∧
        (Impact.treesEquivalent (User.environmentalImpact u) <=
           Impact.treesEquivalent (User.environmentalImpact u'))%Q.
Proof.
  intros Hok Hu.
  assert (impacts_grow s (run (completeRide caller rid now) s).2) as H.
  { apply (wp_run (completeRide caller rid now) (λ _ s', impacts_grow s s')).
    eapply wp_mono; [by apply completeRide_wp_impacts | by intros [r|r] s']. }
  exact (H uid u Hu).
Qed.

Lemma completeRide_impact_grows_witness :
  ∃ u', users (run (completeRide 0 0 10)
                 (sample_store (sample_ride 1 [sample_passenger 1 PassengerStatus.accepted]
                                  RideStatus.in_progress))).2 !! 1 = Some u' ∧
        (0 <= Impact.co2Saved (User.environmentalImpact u'))%Q.
Proof.
  destruct (completeRide_impact_grows
              (sample_store (sample_ride 1 [sample_passenger 1 PassengerStatus.accepted]
                               RideStatus.in_progress)) 0 0 10 1 User.fresh)
    as (u' & Hu' & H & _).
  - intros ride Hr. simpl in Hr. injection Hr as <-.
    split; simpl; lra.
  - reflexivity.
  - exists u'. split; [exact Hu' | exact H].
Defined.

(** ** Ratings *)

Lemma sum_stars_bounds (l : list Z) :
  Forall stars l →
  (Z.of_nat (length l) ≤ foldr Z.add 0 l ≤ 5 * Z.of_nat (length l))%Z.
Proof.
  induction 1 as [|x l Hx _ IH]; simpl; [lia|]. unfold stars in Hx. lia.
Qed.

Lemma mean_stars (l : list Z) :
  l ≠ [] → Forall stars l → (1 <= mean l)%Q ∧ (mean l <= 5)%Q.
Proof.
  intros Hne Hl. pose proof (sum_stars_bounds l Hl) as [Hlo Hhi].
  assert (0 < Z.of_nat (length l))%Z as Hpos.
  { destruct l; [done | simpl; lia]. }
  unfold mean.
  assert (0 < inject_Z (Z.of_nat (length l)))%Q as HposQ.
  { unfold Qlt. simpl. lia. }
  split.
  - apply Qle_shift_div_l; [done|]. rewrite Qmult_1_l.
    rewrite <- Zle_Qle. done.
  - apply Qle_shift_div_r; [done|].
    change 5%Q with (inject_Z 5). rewrite <- inject_Z_mult, <- Zle_Qle. done.
Qed.

(** X29. Star averages stay between 1 and 5.  When the reviews stored
    for a user all carry between 1 and 5 stars, a new review with
    between 1 and 5 stars leaves a summary for the reviewed role whose
    count is at least one and whose average is between 1 and 5, and the
    stored reviews are again all between 1 and 5 stars. *)
Theorem submitRating_average_in_range s caller userId rideId role rating comment now user :
  users s !! userId = Some user →
  Forall (λ r, stars (Review.rating r)) (User.reviews user) →
  stars rating →
  ∃ user',
    users (run (submitRating caller userId rideId role rating comment now) s).2 !! userId =
      Some user' ∧
    Forall (λ r, stars (Review.rating r)) (User.reviews user') ∧
    (1 ≤ Rating.count (rating_for role user'))%nat ∧
    (1 <= Rating.average (rating_for role user'))%Q ∧
    (Rating.average (rating_for role user') <= 5)%Q.
Proof.
  intros Hu Hall Hr.
  rewrite (submitRating_run _ _ _ _ _ _ _ _ _ Hu). cbn [snd].
  set (reviews' := User.reviews user ++ [Review.mk caller role rating comment now]).
  assert (Forall (λ r, stars (Review.rating r)) reviews') as Hall'.
  { apply Forall_app. split; [done|]. by apply Forall_singleton. }
  set (rated := filter (λ r, Review.role r = role) reviews').
  assert (rated ≠ []) as Hne.
  { unfold rated, reviews'. rewrite filter_app, filter_cons, decide_True by done.
    intros H. by apply app_eq_nil in H as [_ H]. }
  assert (Forall stars (Review.rating <$> rated)) as Hrated.
  { apply Forall_fmap. unfold rated.
    apply Forall_forall. intros r [_ Hin]%list_elem_of_filter.
    rewrite Forall_forall in Hall'. by apply Hall'. }
  destruct (recompute_rating_mean role reviews') as [Havg Hcount]. fold rated in Havg, Hcount.
  destruct (mean_stars (Review.rating <$> rated)) as [Hlo Hhi];
    [by destruct rated | done |].
  eexists. split; [simpl; apply lookup_insert_eq|].
  split; [by destruct role|].
  match goal with
  | |- context [rating_for role ?u] =>
      assert (rating_for role u = recompute_rating role reviews') as ->
        by (by destruct role)
  end.
  rewrite Havg, Hcount. split; [|done].
  destruct rated; [done | simpl; lia].
Qed.

Lemma submitRating_average_in_range_witness :
  ∃ user',
    users (run (submitRating 1 0 0 Role.driver 4 None 10)
             (sample_store (sample_ride 2 [] RideStatus.completed))).2 !! 0 = Some user' ∧
    (1 <= Rating.average (User.asDriver user'))%Q ∧
    (Rating.average (User.asDriver user') <= 5)%Q.
Proof.
  destruct (submitRating_average_in_range
              (sample_store (sample_ride 2 [] RideStatus.completed))
              1 0 0 Role.driver 4 None 10 User.fresh eq_refl)
    as (user' & Hu' & _ & _ & H1 & H2).
  - apply Forall_nil_2.
  - unfold stars. lia.
  - exists user'. split; [exact Hu' | split; [exact H1 | exact H2]].
Defined.
